(** * multi-chat: the turn-taking core, embedded and verified

    A shallow embedding of the chat services of the repository:

    - [ConversationMemory]  (services/chat/conversationMemory.js)
    - [Orchestrator]        (services/chat/orchestrator.js)
    - [TTSService]          (services/ai/ttsService.js)
    - [OpenAIService.streamChatCompletion] (services/ai/openaiService.js)
    - [ChatManager]         (services/chat/chatManager.js)
    - [AgentGenerator]      (services/ai/agentGenerator.js, from the parsed
                             answer on)

    JavaScript strings are modelled as [string]: a sequence of code units,
    each below 256.  The two in-memory tables (session id to session object,
    session id to message array) are [gmap]s; session objects live in a heap
    indexed by location, because the continuation of an [async] function
    keeps the object it looked up before the [await], whatever happens to the
    table in between.  An [async] function is cut at its [await]s: every
    piece between two suspension points is one function on the world, and a
    suspended call is a [Task] waiting in the world for its result. *)

From Stdlib Require Import Ascii String NArith ZArith Bool Lia.
From Stdlib.Strings Require Import Byte.
From stdpp Require Import base option list gmap strings.

Local Open Scope string_scope.
Local Open Scope list_scope.

(* ===================================================================== *)
(** * JavaScript strings *)
(* ===================================================================== *)

Module Js.

Definition code (c : ascii) : N := N_of_ascii c.

Definition between (lo hi : N) (c : ascii) : bool :=
  ((lo <=? code c) && (code c <=? hi))%N.

(** [\s], and the characters [trim] removes: WhiteSpace and LineTerminator
    of the language, for code units below 256: TAB, LF, VT, FF, CR, SP and
    NBSP. *)
Definition is_space (c : ascii) : bool :=
  between 9 13 c || (code c =? 32)%N || (code c =? 160)%N.

(** [\w] (the class [[\w_]] of the source is the same set). *)
Definition is_word (c : ascii) : bool :=
  between 48 57 c || between 65 90 c || between 97 122 c || (code c =? 95)%N.

Definition shift_code (c : ascii) (d : Z) : ascii :=
  ascii_of_N (Z.to_N (Z.of_N (code c) + d)).

(** [toUpperCase] on one code unit.  The three code units below 256 whose
    upper case is not a single code unit below 256 (181, 223, 255) are
    left as they are; the source only compares upper-cased text with
    [USER] and [USER:], which none of them can produce. *)
Definition upper (c : ascii) : ascii :=
  if between 97 122 c || between 224 246 c || between 248 254 c
  then shift_code c (-32) else c.

(** [toLowerCase] on one code unit (exact below 256). *)
Definition lower (c : ascii) : ascii :=
  if between 65 90 c || between 192 214 c || between 216 222 c
  then shift_code c 32 else c.

Fixpoint map_chars (f : ascii -> ascii) (s : string) : string :=
  match s with
  | EmptyString => EmptyString
  | String c t => String (f c) (map_chars f t)
  end.

Definition toUpperCase : string -> string := map_chars upper.
Definition toLowerCase : string -> string := map_chars lower.

(** The longest prefix of characters satisfying [p], and the rest. *)
Fixpoint span (p : ascii -> bool) (s : string) : string * string :=
  match s with
  | EmptyString => (EmptyString, EmptyString)
  | String c t =>
      if p c then let '(a, b) := span p t in (String c a, b)
      else (EmptyString, s)
  end.

Definition drop_while (p : ascii -> bool) (s : string) : string :=
  snd (span p s).

Fixpoint all_chars (p : ascii -> bool) (s : string) : bool :=
  match s with
  | EmptyString => true
  | String c t => p c && all_chars p t
  end.

Fixpoint rev_onto (s acc : string) : string :=
  match s with
  | EmptyString => acc
  | String c t => rev_onto t (String c acc)
  end.

Definition rev (s : string) : string := rev_onto s EmptyString.

(** [s.trim()] *)
Definition trim (s : string) : string :=
  rev (drop_while is_space (rev (drop_while is_space s))).

(** [s.startsWith(p)], and the rest of [s] after [p]. *)
Fixpoint strip_prefix (p s : string) : option string :=
  match p, s with
  | EmptyString, _ => Some s
  | String a p', String b s' =>
      if Ascii.eqb a b then strip_prefix p' s' else None
  | String _ _, EmptyString => None
  end.

Definition startsWith (s p : string) : bool :=
  match strip_prefix p s with Some _ => true | None => false end.

(** The same under the [i] flag of a regular expression: two code units
    match when their canonical (upper-case) forms are equal. *)
Fixpoint strip_prefix_ci (p s : string) : option string :=
  match p, s with
  | EmptyString, _ => Some s
  | String a p', String b s' =>
      if Ascii.eqb (upper a) (upper b) then strip_prefix_ci p' s' else None
  | String _ _, EmptyString => None
  end.

(** [s.includes(p)] *)
Fixpoint includes (s p : string) : bool :=
  startsWith s p ||
  match s with
  | EmptyString => false
  | String _ t => includes t p
  end.

(** A truthy string is a non-empty one. *)
Definition truthy (s : string) : bool :=
  match s with EmptyString => false | String _ _ => true end.

(** [s.replace(re, '')] for a global regular expression [re] that never
    matches the empty string.  [m prev s] is the length of the match of
    [re] at the head of [s], when there is one; [prev] is the character
    before it (for [\b]).  After a match the scan resumes right behind
    it: [skip] counts the characters of the current match still to drop. *)
Fixpoint remove_all_from (m : option ascii -> string -> option nat)
    (prev : option ascii) (skip : nat) (s : string) : string :=
  match s with
  | EmptyString => EmptyString
  | String c t =>
      match skip with
      | S k => remove_all_from m (Some c) k t
      | O =>
          match m prev s with
          | Some (S k) => remove_all_from m (Some c) k t
          | _ => String c (remove_all_from m (Some c) O t)
          end
      end
  end.

Definition remove_all (m : option ascii -> string -> option nat)
    (s : string) : string :=
  remove_all_from m None 0 s.

End Js.

(* ===================================================================== *)
(** * Data model *)
(* ===================================================================== *)

(** A participant generated for the session (agentGenerator.js). *)
Record Agent := mkAgent {
  agent_id : string;
  agent_name : string;
  agent_designation : string;
  agent_personalities : string;
  agent_gender : string;
}.

Inductive Role := system | user | assistant.

(** One entry of the conversation log.  [aiId] is [None] where the property
    is absent (system and user entries).  The [timestamp] property, read
    from the clock and never read back, is left out. *)
Record Message := mkMessage {
  role : Role;
  content : string;
  aiId : option string;
}.

(** The value returned by the orchestrator: [{speaker, response, shouldEnd}].
    [response] is [None] for [null]; [shouldEnd] is [false] when absent. *)
Record Decision := mkDecision {
  speaker : string;
  response : option string;
  shouldEnd : bool;
}.

Definition nl : ascii := "010"%char.

(* ===================================================================== *)
(** * Orchestrator (orchestrator.js) *)
(* ===================================================================== *)

Module Orchestrator.

(** [arr.findIndex(p)]: the first index whose element satisfies [p],
    [-1] when there is none. *)
Fixpoint findIndex_from {A} (p : A -> bool) (i : Z) (l : list A) : Z :=
  match l with
  | [] => (-1)%Z
  | x :: t => if p x then i else findIndex_from p (i + 1)%Z t
  end.

Definition findIndex {A} (p : A -> bool) (l : list A) : Z :=
  findIndex_from p 0%Z l.

(** [msg.role === 'assistant' && msg.aiId] *)
Definition is_agent_entry (msg : Message) : bool :=
  match role msg, aiId msg with
  | assistant, Some i => Js.truthy i
  | _, _ => false
  end.

(** [history.slice().reverse().find(...)?.aiId] *)
Definition lastAgentId (history : list Message) : option string :=
  match List.find is_agent_entry (List.rev history) with
  | Some msg => aiId msg
  | None => None
  end.

Definition fallbackDecision (agents : list Agent) (history : list Message)
    : Decision :=
  match agents with
  | [] => mkDecision "user" None false
  | first :: _ =>
      match lastAgentId history with
      | Some lastId =>
          if Js.truthy lastId then
            let lastIndex :=
              findIndex (fun a => String.eqb (agent_id a) lastId) agents in
            let nextIndex :=
              Z.rem (lastIndex + 1) (Z.of_nat (length agents)) in
            mkDecision (agent_id (nth (Z.to_nat nextIndex) agents first))
                       None false
          else mkDecision (agent_id first) None false
      | None => mkDecision (agent_id first) None false
      end
  end.

(** [/^USER:?\s*$/i.test(s)].  The optional colon is greedy; giving it
    back cannot help, a colon being no white space. *)
Definition userTurnPattern (s : string) : bool :=
  match Js.strip_prefix_ci "USER" s with
  | None => false
  | Some r =>
      match r with
      | String ":" r' => Js.all_chars Js.is_space r'
      | _ => Js.all_chars Js.is_space r
      end
  end.

(** The two groups of the match of [trimmedResponse] against the pattern
    [^AGENT:] [([\w_]+)] [[\s\n]*] [( .* )] [$] with the [s] flag: the marker,
    a run of word characters, white space, the rest.  The last group takes
    whatever is left, so the greedy choice of the first two always
    succeeds. *)
Definition agentMatch (s : string) : option (string * string) :=
  match Js.strip_prefix "AGENT:" s with
  | None => None
  | Some r =>
      let '(g1, r1) := Js.span Js.is_word r in
      if Js.truthy g1 then Some (g1, Js.drop_while Js.is_space r1)
      else None
  end.

(** The part of [w] behind its last line feed, if it has one. *)
Fixpoint after_last_nl (w : string) : option string :=
  match w with
  | EmptyString => None
  | String c t =>
      match after_last_nl t with
      | Some r => Some r
      | None => if Ascii.eqb c nl then Some t else None
      end
  end.

(** [s.replace(/^\s*\n+/, '')]: within the leading white space, all that
    comes up to its last line feed goes. *)
Definition drop_leading_newlines (s : string) : string :=
  let '(w, rest) := Js.span Js.is_space s in
  match after_last_nl w with
  | Some r => r +:+ rest
  | None => s
  end.

(** A match of [/\[[^\]]+\]:\s*/] at the head of [s]. *)
Definition label_at (prev : option ascii) (s : string) : option nat :=
  match s with
  | String "[" t =>
      let '(body, r) := Js.span (fun c => negb (Ascii.eqb c "]")) t in
      match body, r with
      | String _ _, String "]" (String ":" r') =>
          Some (1 + String.length body + 2
                + String.length (fst (Js.span Js.is_space r')))
      | _, _ => None
      end
  | _ => None
  end.

(** [s.replace(/\[[^\]]+\]:\s*/g, '')] *)
Definition strip_labels (s : string) : string := Js.remove_all label_at s.

(** [s.replace(/^USER:\s*/i, '')] *)
Definition strip_leading_user (s : string) : string :=
  match Js.strip_prefix_ci "USER:" s with
  | Some r => Js.drop_while Js.is_space r
  | None => s
  end.

(** [s.replace(/\s*USER:\s*$/i, '')]: the leftmost position from which
    the rest is white space, the marker, white space. *)
Fixpoint strip_trailing_user (s : string) : string :=
  let here :=
    match Js.strip_prefix_ci "USER:" (Js.drop_while Js.is_space s) with
    | Some r => Js.all_chars Js.is_space r
    | None => false
    end in
  if here then EmptyString
  else match s with
       | EmptyString => EmptyString
       | String c t => String c (strip_trailing_user t)
       end.

(** A match of [/\bUSER:\s*/i] at the head of [s]. *)
Definition user_marker_at (prev : option ascii) (s : string) : option nat :=
  let boundary :=
    match prev with Some c => negb (Js.is_word c) | None => true end in
  if boundary then
    match Js.strip_prefix_ci "USER:" s with
    | Some r => Some (5 + String.length (fst (Js.span Js.is_space r)))
    | None => None
    end
  else None.

(** [s.replace(/\bUSER:\s*/gi, '')] *)
Definition strip_user_markers (s : string) : string :=
  Js.remove_all user_marker_at s.

(** Group 1 of the match against [^] [( .*? )] [(?: \n?END: .* )?] [$] with
    the [s] flag: the lazy group stops at the first place where [END:], or
    a line feed and [END:], begins, and takes everything when there is no
    such place. *)
Fixpoint before_end (s : string) : string :=
  if Js.startsWith s (String nl "END:") || Js.startsWith s "END:"
  then EmptyString
  else match s with
       | EmptyString => EmptyString
       | String c t => String c (before_end t)
       end.

(** The last resort: the first agent whose id or name occurs in the text,
    case-insensitively. *)
Fixpoint scan_agents (candidates : list Agent) (trimmedResponse : string)
    : option Decision :=
  match candidates with
  | [] => None
  | agent :: rest =>
      if Js.includes (Js.toLowerCase trimmedResponse)
                     (Js.toLowerCase (agent_id agent))
         || Js.includes (Js.toLowerCase trimmedResponse)
                        (Js.toLowerCase (agent_name agent))
      then Some (mkDecision (agent_id agent)
                   (Some (Js.trim (strip_labels trimmedResponse))) false)
      else scan_agents rest trimmedResponse
  end.

(** [s.trim().toUpperCase() === 'USER' || s.trim().toUpperCase() === 'USER:'] *)
Definition is_user_token (s : string) : bool :=
  String.eqb (Js.toUpperCase (Js.trim s)) "USER"
  || String.eqb (Js.toUpperCase (Js.trim s)) "USER:".

(** [s.toUpperCase().trim() === 'USER' || s.toUpperCase().trim() === 'USER:'] *)
Definition is_only_user_token (s : string) : bool :=
  String.eqb (Js.trim (Js.toUpperCase s)) "USER"
  || String.eqb (Js.trim (Js.toUpperCase s)) "USER:".

(** The cleaning of the body of an agent response (lines 150-163). *)
Definition clean_body (body : string) : string :=
  let agentResponse := Js.trim body in
  let agentResponse := Js.trim (drop_leading_newlines agentResponse) in
  let agentResponse := Js.trim (strip_labels agentResponse) in
  let agentResponse := Js.trim (strip_leading_user agentResponse) in
  let agentResponse := Js.trim (strip_trailing_user agentResponse) in
  Js.trim (strip_user_markers agentResponse).

(** The classification of the provider's text (lines 124-206). *)
Definition parseResponse (agents : list Agent) (fullHistory : list Message)
    (response : string) : Decision :=
  let trimmedResponse := Js.trim response in
  if Js.startsWith trimmedResponse "END:" || String.eqb trimmedResponse "END"
  then mkDecision "end" None false
  else if userTurnPattern trimmedResponse
  then mkDecision "user" None false
  else if is_user_token trimmedResponse
  then mkDecision "user" None false
  else
    match agentMatch trimmedResponse with
    | Some (g1, g2) =>
        let agentId := Js.trim g1 in
        let agentResponse := clean_body g2 in
        if negb (Js.truthy agentResponse) || is_only_user_token agentResponse
        then fallbackDecision agents fullHistory
        else if Js.includes agentResponse "END:"
                || Js.includes trimmedResponse (String nl "END:")
        then mkDecision agentId (Some (Js.trim (before_end agentResponse)))
                        true
        else if existsb (fun a => String.eqb (agent_id a) agentId) agents
        then mkDecision agentId (Some agentResponse) false
        else fallbackDecision agents fullHistory
    | None =>
        match scan_agents agents trimmedResponse with
        | Some d => d
        | None => fallbackDecision agents fullHistory
        end
    end.

(** [decideAndGenerateResponse], as a function of what the provider
    answered: [Some text], or [None] when the call threw (or answered
    without text), which the [catch] turns into the fallback.
    [fullHistory] is the array taken before the call, as it is when the
    answer arrives; [reread] is what the [catch] block reads from the
    store again.  The prompt sent to the provider has no effect on the
    program and is not modelled. *)
Definition decideAndGenerateResponse (agents : list Agent)
    (fullHistory reread : list Message) (upstream : option string)
    : Decision :=
  match upstream with
  | Some response => parseResponse agents fullHistory response
  | None => fallbackDecision agents reread
  end.

End Orchestrator.

(* ===================================================================== *)
(** * ConversationMemory (conversationMemory.js) *)
(* ===================================================================== *)

Module ConversationMemory.

(** [memories] maps a session id to its array of messages.  Arrays are
    objects: [push] changes the array in place, and a caller that took
    the array keeps it when the table entry is replaced or deleted.  So
    the table holds locations into [arrays]. *)
Record Store := mkStore {
  memories : gmap string nat;
  arrays : list (list Message);
}.

Definition empty : Store := mkStore ∅ [].

Definition dq : string := String (ascii_of_nat 34) EmptyString.
Definition newline : string := String nl EmptyString.

Definition systemContent (scenario userName userRole : string) : string :=
  "This is a practice session for " +:+ userName
  +:+ " who is practicing for: " +:+ dq +:+ scenario +:+ dq +:+ "."
  +:+ newline +:+ "User Role: " +:+ userRole +:+ newline +:+ newline
  +:+ "This is a natural conversation practice session. The conversation will flow naturally with agents and the user taking turns. All participants share the same conversation history and can see all previous messages.".

Definition initializeSession (sessionId scenario userName userRole : string)
    (m : Store) : Store :=
  let messages :=
    [mkMessage system (systemContent scenario userName userRole) None] in
  mkStore (<[sessionId := length (arrays m)]> (memories m))
          (arrays m ++ [messages]).

(** [const messages = this.memories.get(sessionId) || [];
     messages.push(msg); this.memories.set(sessionId, messages);] *)
Definition add (sessionId : string) (msg : Message) (m : Store) : Store :=
  match memories m !! sessionId with
  | Some a =>
      mkStore (<[sessionId := a]> (memories m))
              (alter (fun messages => messages ++ [msg]) a (arrays m))
  | None =>
      mkStore (<[sessionId := length (arrays m)]> (memories m))
              (arrays m ++ [[msg]])
  end.

Definition addUserMessage (sessionId content : string) : Store -> Store :=
  add sessionId (mkMessage user content None).

Definition addAssistantMessage (sessionId content aiId : string)
    : Store -> Store :=
  add sessionId (mkMessage assistant content (Some aiId)).

(** What an array reference taken earlier shows now; [None] is the fresh
    empty array that [getMessages] makes up for an unknown session. *)
Definition deref (ref : option nat) (m : Store) : list Message :=
  match ref with
  | Some a => default [] (arrays m !! a)
  | None => []
  end.

Definition getMessages (sessionId : string) (m : Store) : list Message :=
  deref (memories m !! sessionId) m.

Definition getFormattedMessages (sessionId : string) (m : Store)
    : list (Role * string) :=
  List.map (fun msg => (role msg, content msg)) (getMessages sessionId m).

Definition clearSession (sessionId : string) (m : Store) : Store :=
  mkStore (delete sessionId (memories m)) (arrays m).

Definition hasSession (sessionId : string) (m : Store) : bool :=
  bool_decide (is_Some (memories m !! sessionId)).

End ConversationMemory.

(* ===================================================================== *)
(** * OpenAIService.streamChatCompletion (openaiService.js) *)
(* ===================================================================== *)

Module OpenAIService.

(** The function is driven by the provider's stream; between two items
    of the stream it is suspended.  Each definition below is what it does
    when one item arrives, on the caller's state [S] that the three
    callbacks act on.  An error is represented by its [message]. *)
Section Callbacks.
Context {S : Type}.
Variable onChunk : string -> S -> S.
Variable onComplete : string -> S -> S.
Variable onError : string -> S -> S.

(** One turn of the [for await] loop; [fullResponse] is the local
    accumulator of the service, [content] the text of the chunk, empty
    when the chunk carries none. *)
Definition on_chunk (content fullResponse : string) (s : S)
    : string * S :=
  if Js.truthy content
  then (fullResponse +:+ content, onChunk content s)
  else (fullResponse, s).

(** The loop ended: [onComplete(fullResponse)]. *)
Definition on_end (fullResponse : string) (s : S) : S :=
  onComplete fullResponse s.

(** The request or the loop threw: [onError(error)]. *)
Definition on_throw (error : string) (s : S) : S := onError error s.
End Callbacks.

End OpenAIService.

(* ===================================================================== *)
(** * TTSService (ttsService.js) *)
(* ===================================================================== *)

Module TTSService.

Definition createWavHeader : list byte :=
  [ x52; x49; x46; x46;
    x00; x00; x00; x00;
    x57; x41; x56; x45;
    x66; x6d; x74; x20;
    x10; x00; x00; x00;
    x01; x00;
    x01; x00;
    x80; xbb; x00; x00;
    x00; xee; x02; x00;
    x02; x00;
    x10; x00;
    x64; x61; x74; x61;
    x00; x00; x00; x00 ].

Definition female : list string :=
  ["aura-2-thalia-en"; "aura-2-amalthea-en"; "aura-2-andromeda-en"].
Definition male : list string :=
  ["aura-2-arcas-en"; "aura-2-orpheus-en"; "aura-2-zeus-en"].

(** [this.voiceModels[gender] || this.voiceModels.female], for a [gender]
    that is not the name of a property every object inherits. *)
Definition voiceArray (gender : string) : list string :=
  if String.eqb gender "male" then male else female.

(** The model [createTTSConnection] asks for. *)
Definition model_for (gender : string) (voiceIndex : nat) : string :=
  let voiceArray := voiceArray gender in
  let modelIndex := Nat.min voiceIndex (length voiceArray - 1) in
  nth modelIndex voiceArray "".

(** What [streamTextToSpeech] keeps about a connection once it is open:
    its local flag [flushed], and whether the 30 second timer is still
    to fire. *)
Record Connection := mkConnection {
  model : string;
  flushed : bool;
  timer_pending : bool;
}.

Inductive Started :=
| Returned                        (* the call is over *)
| AwaitingOpen (model : string).  (* a connection was made; suspended *)

(** [streamTextToSpeech] up to its [await], on the caller's state [S]
    that the callbacks act on.  [deepgram] tells whether the client exists
    (the API key was configured); [text] is [None] for [null] or
    [undefined].  [onAudioChunk] is handed to the connection, which calls
    it once it is open. *)
Definition streamTextToSpeech {S : Type} (deepgram : bool)
    (text : option string) (gender : string) (voiceIndex : nat)
    (onAudioChunk : list byte -> S -> S) (onComplete onError : S -> S)
    (s : S) : Started * S :=
  let blank :=
    match text with
    | None => true
    | Some t => negb (Js.truthy t) || negb (Js.truthy (Js.trim t))
    end in
  if blank then (Returned, onComplete s)
  else if deepgram then (AwaitingOpen (model_for gender voiceIndex), s)
  else (Returned, onError s).

Section Callbacks.
Context {S : Type}.
Variable onAudioChunk : list byte -> S -> S.
Variable onComplete : S -> S.
Variable onError : S -> S.

(** The connection opened: the text is sent and flushed, the handler
    of [Flushed] and the timer are installed, the call returns. *)
Definition opened (model : string) : Connection :=
  mkConnection model false true.

(** The connection reported an error before it opened: the handler
    installed by [createTTSConnection] runs, the promise is rejected
    and the [catch] runs. *)
Definition open_error (s : S) : S := onError (onError s).

(** It did not open within 5 seconds: rejected, the [catch] runs. *)
Definition open_timeout (s : S) : S := onError s.

Definition on_audio (data : list byte) (s : S) : S := onAudioChunk data s.

Definition on_error (s : S) : S := onError s.

Definition on_flushed (c : Connection) (s : S) : Connection * S :=
  if flushed c then (c, s)
  else (mkConnection (model c) true (timer_pending c), onComplete s).

Definition on_timeout (c : Connection) (s : S) : Connection * S :=
  if flushed c then (mkConnection (model c) true false, s)
  else (mkConnection (model c) true false, onComplete s).
End Callbacks.

End TTSService.

(* ===================================================================== *)
(** * ChatManager (chatManager.js) *)
(* ===================================================================== *)

(** A property that holds [undefined], [null] or a string. *)
Inductive JsRef := JUndefined | JNull | JStr (s : string).

(** [a === b] *)
Definition strict_eq (a b : JsRef) : bool :=
  match a, b with
  | JUndefined, JUndefined => true
  | JNull, JNull => true
  | JStr x, JStr y => String.eqb x y
  | _, _ => false
  end.

(** A session object.  [sink] stands for its three callbacks
    [onStreamChunk], [onStreamComplete] and [onError], closures over one
    socket.  [waitingForAudioComplete], only ever tested for truth, is
    [false] also while the property is absent.  [createdAt], read from the
    clock, is left out. *)
Record Session := mkSession {
  agents : list Agent;
  scenario : string;
  userName : string;
  userRole : string;
  sink : nat;
  isProcessing : bool;
  waitingForAudioComplete : bool;
  currentSpeakingAgentId : JsRef;
}.

Definition set_isProcessing (b : bool) (s : Session) : Session :=
  mkSession (agents s) (scenario s) (userName s) (userRole s) (sink s)
            b (waitingForAudioComplete s) (currentSpeakingAgentId s).

Definition set_waitingForAudioComplete (b : bool) (s : Session) : Session :=
  mkSession (agents s) (scenario s) (userName s) (userRole s) (sink s)
            (isProcessing s) b (currentSpeakingAgentId s).

Definition set_currentSpeakingAgentId (r : JsRef) (s : Session) : Session :=
  mkSession (agents s) (scenario s) (userName s) (userRole s) (sink s)
            (isProcessing s) (waitingForAudioComplete s) r.

(** The typed events handed to the callbacks. *)
Inductive Event :=
| user_turn (message : string)
| ai_thinking (message : string)
| ai_response_start (aiId personality gender : string)
| ai_response_chunk (aiId chunk : string)
| tts_first_audio (aiId : string)
| ai_audio_chunk (aiId : string) (audioBuffer : list byte)
| ai_audio_end (aiId : string)
| ai_response_end (aiId fullMessage personality : string)
| conversation_ended (message : string)
| error (aiId : option string) (message : string).

Inductive Callback := onStreamChunk | onStreamComplete | onError.

(** One call of a callback of the sink [to]. *)
Record Emission := mkEmission {
  to : nat;
  via : Callback;
  event : Event;
}.

(** The variables [firstAudioChunk] and [ttsFirstAudioSent] that the audio
    callback of one turn closes over. *)
Record AudioClosure := mkAudioClosure {
  firstAudioChunk : bool;
  ttsFirstAudioSent : bool;
}.

(** A suspended piece of work: a timer that has not fired, or an [async]
    call waiting at an [await], with the variables it will find again. *)
Inductive Task :=
| Timer (sessionId : string)
    (* setTimeout(() => this.continueConversation(sessionId), 500) *)
| Generating (sessionId scenario userName userRole : string) (sink : nat)
    (* createSession, at: await agentGenerator.generateAgents(...) *)
| Deciding (session : nat) (sessionId : string) (fullHistory : option nat)
    (* continueConversation, at: await orchestrator.decideAndGenerateResponse *)
| Streaming (session : nat) (sessionId : string) (agent : Agent)
    (decision : Decision) (fullResponse : string) (received : string)
    (* continueConversation, at: await openaiService.streamChatCompletion;
       [received] is the accumulator inside the service *)
| OpeningTts (session : nat) (sessionId : string) (agent : Agent)
    (decision : Decision) (fullResponse : string) (model : string)
    (* continueConversation, at: await ttsService.streamTextToSpeech, itself
       waiting for the connection to open *)
| Speaking (session : nat) (agentId : string) (closure : AudioClosure)
    (connection : TTSService.Connection).
    (* an open connection delivering audio to the callbacks of a turn *)

Record World := mkWorld {
  sessions : gmap string nat;          (* ChatManager.sessions *)
  heap : list Session;                 (* the session objects *)
  memory : ConversationMemory.Store;   (* the conversationMemory singleton *)
  deepgram : bool;                     (* ttsService.deepgram is not null *)
  tasks : list Task;
  emitted : list Emission;             (* oldest first *)
}.

Definition init (deepgram : bool) : World :=
  mkWorld ∅ [] ConversationMemory.empty deepgram [] [].

(** ** Primitive effects *)

Definition Proc : Type := World -> World.

Definition skip : Proc := fun w => w.

Definition seq (a b : Proc) : Proc := fun w => b (a w).

Declare Scope proc_scope.
Delimit Scope proc_scope with proc.
Bind Scope proc_scope with Proc.
Notation "a >> b" := (seq a b) (at level 61, left associativity) : proc_scope.
Local Open Scope proc_scope.

Definition emit (to : nat) (via : Callback) (e : Event) : Proc := fun w =>
  mkWorld (sessions w) (heap w) (memory w) (deepgram w) (tasks w)
          (emitted w ++ [mkEmission to via e]).

(** An assignment to properties of the session object at [l]. *)
Definition update_session (l : nat) (f : Session -> Session) : Proc := fun w =>
  mkWorld (sessions w) (alter f l (heap w)) (memory w) (deepgram w)
          (tasks w) (emitted w).

Definition update_memory
    (f : ConversationMemory.Store -> ConversationMemory.Store) : Proc :=
  fun w =>
  mkWorld (sessions w) (heap w) (f (memory w)) (deepgram w) (tasks w)
          (emitted w).

Definition set_sessions (m : gmap string nat) : Proc := fun w =>
  mkWorld m (heap w) (memory w) (deepgram w) (tasks w) (emitted w).

Definition set_tasks (ts : list Task) : Proc := fun w =>
  mkWorld (sessions w) (heap w) (memory w) (deepgram w) ts (emitted w).

Definition spawn (t : Task) : Proc := fun w => set_tasks (tasks w ++ [t]) w.

(** [this.sessions.set(sessionId, {...})] with a new object. *)
Definition store_session (sessionId : string) (s : Session) : Proc := fun w =>
  mkWorld (<[sessionId := length (heap w)]> (sessions w)) (heap w ++ [s])
          (memory w) (deepgram w) (tasks w) (emitted w).

(** Run [k] on the session object at [l]. *)
Definition with_session (l : nat) (k : Session -> Proc) : Proc := fun w =>
  match heap w !! l with
  | Some session => k session w
  | None => w
  end.

Module ChatManager.

Definition or_default (s fallback : string) : string :=
  if Js.truthy s then s else fallback.

Definition personality (agent : Agent) : string :=
  agent_name agent +:+ " (" +:+ agent_designation agent +:+ ")".

(** *** createSession *)

(** Up to [await agentGenerator.generateAgents(...)].  A missing field
    makes the call throw before anything is done. *)
Definition createSession (sessionId scenario userName userRole : string)
    (sink : nat) : Proc :=
  if negb (Js.truthy scenario) || negb (Js.truthy userName)
     || negb (Js.truthy userRole)
  then skip
  else
    update_memory (ConversationMemory.initializeSession
                     sessionId scenario userName userRole) >>
    spawn (Generating sessionId scenario userName userRole sink).

(** From the answer of the generator on: [inl message] when it threw,
    [inr agents] when it returned. *)
Definition createSession_generated
    (sessionId scenario userName userRole : string) (sink : nat)
    (result : string + list Agent) : Proc :=
  match result with
  | inl message =>
      emit sink onError (error None (or_default message "Failed to generate agents"))
  | inr [] =>
      emit sink onError (error None "Failed to generate agents")
  | inr agents =>
      store_session sessionId
        (mkSession agents scenario userName userRole sink
                   false false JUndefined) >>
      spawn (Timer sessionId)
  end.

(** *** continueConversation *)

(** The end of the function, from [session.onStreamComplete] of
    [ai_response_end] on (lines 285-316). *)
Definition finish (l : nat) (agent : Agent) (decision : Decision)
    (fullResponse : string) : Proc :=
  with_session l (fun session =>
    let agentId := speaker decision in
    emit (sink session) onStreamComplete
         (ai_response_end agentId fullResponse (personality agent)) >>
    update_session l (fun s =>
      set_currentSpeakingAgentId (JStr agentId)
        (set_waitingForAudioComplete true s)) >>
    if String.eqb (speaker decision) "end" || shouldEnd decision then
      emit (sink session) onStreamComplete
           (conversation_ended "Conversation ended gracefully") >>
      update_session l (fun s =>
        set_isProcessing false
          (set_currentSpeakingAgentId JNull
             (set_waitingForAudioComplete false s)))
    else skip).

(** The callbacks given to [ttsService.streamTextToSpeech]; they act on
    the variables of the closure and on the world. *)
Definition onAudioChunk (to : nat) (agentId : string)
    (audioBuffer : list byte) (st : AudioClosure * World)
    : AudioClosure * World :=
  let '(c, w) := st in
  if firstAudioChunk c then
    let c := mkAudioClosure false (ttsFirstAudioSent c) in
    let '(c, w) :=
      if negb (ttsFirstAudioSent c)
      then (mkAudioClosure (firstAudioChunk c) true,
            emit to onStreamChunk (tts_first_audio agentId) w)
      else (c, w) in
    let wavHeader := TTSService.createWavHeader in
    (c, emit to onStreamChunk
             (ai_audio_chunk agentId (wavHeader ++ audioBuffer)) w)
  else
    (c, emit to onStreamChunk (ai_audio_chunk agentId audioBuffer) w).

Definition onAudioComplete (to : nat) (agentId : string)
    (st : AudioClosure * World) : AudioClosure * World :=
  (fst st, emit to onStreamChunk (ai_audio_end agentId) (snd st)).

(** [(error) => logger.error(...)] *)
Definition onAudioError (st : AudioClosure * World) : AudioClosure * World :=
  st.

(** From [conversationMemory.addAssistantMessage] on (lines 224-283), up
    to the [await] inside [streamTextToSpeech] when it suspends, to the
    end of the function when it does not. *)
Definition after_text (l : nat) (sessionId : string) (agent : Agent)
    (decision : Decision) (fullResponse : string) : Proc :=
  with_session l (fun session =>
    let agentId := speaker decision in
    update_memory (ConversationMemory.addAssistantMessage
                     sessionId fullResponse agentId) >>
    let agentGender := or_default (agent_gender agent) "female" in
    let agentIndex :=
      Orchestrator.findIndex (fun a => String.eqb (agent_id a) agentId)
                             (agents session) in
    let voiceIndex :=
      if (0 <=? agentIndex)%Z then Z.rem agentIndex 3 else 0%Z in
    fun w =>
      match TTSService.streamTextToSpeech
              (deepgram w) (Some fullResponse) agentGender
              (Z.to_nat voiceIndex)
              (onAudioChunk (sink session) agentId)
              (onAudioComplete (sink session) agentId) onAudioError
              (mkAudioClosure true false, w) with
      | (TTSService.Returned, (_, w)) =>
          finish l agent decision fullResponse w
      | (TTSService.AwaitingOpen model, (_, w)) =>
          spawn (OpeningTts l sessionId agent decision fullResponse model) w
      end).

(** The three callbacks given to [openaiService.streamChatCompletion];
    they act on the variable [fullResponse] and on the world. *)
Definition onTextChunk (to : nat) (agentId : string)
    (chunk : string) (st : string * World) : string * World :=
  (fst st +:+ chunk,
   emit to onStreamChunk (ai_response_chunk agentId chunk) (snd st)).

Definition onTextComplete (completeResponse : string) (st : string * World)
    : string * World :=
  (completeResponse, snd st).

Definition onTextError (l : nat) (to : nat) (agentId : string)
    (message : string) (st : string * World) : string * World :=
  (fst st,
   (emit to onError
         (error (Some agentId) (or_default message "Failed to generate response")) >>
    update_session l (set_isProcessing false)) (snd st)).

(** From the decision on (lines 129-222), up to the [await] of the
    stream when the decision brings no text, and on into [after_text]
    when it does. *)
Definition after_decision (l : nat) (sessionId : string)
    (decision : Decision) : Proc :=
  with_session l (fun session =>
    if String.eqb (speaker decision) "user" then
      update_session l (set_isProcessing false) >>
      emit (sink session) onStreamChunk (user_turn "It's your turn to speak")
    else
      let agentId := speaker decision in
      match List.find (fun a => String.eqb (agent_id a) agentId)
                      (agents session) with
      | None => update_session l (set_isProcessing false)
      | Some agent =>
          emit (sink session) onStreamChunk (ai_thinking "AI is thinking...") >>
          emit (sink session) onStreamChunk
               (ai_response_start agentId (personality agent)
                                  (agent_gender agent)) >>
          let streamed := spawn (Streaming l sessionId agent decision "" "") in
          match response decision with
          | Some responseText =>
              if Js.truthy responseText
                 && negb (String.eqb (Js.trim responseText) "")
              then
                let fullResponse := responseText in
                emit (sink session) onStreamChunk
                     (ai_response_chunk agentId fullResponse) >>
                after_text l sessionId agent decision fullResponse
              else streamed
          | None => streamed
          end
      end).

(** The [catch] block (lines 318-325). *)
Definition caught (l : nat) (message : string) : Proc :=
  with_session l (fun session =>
    update_session l (set_isProcessing false) >>
    emit (sink session) onError
         (error None (or_default message "Failed to continue conversation"))).

(** The function up to its first [await] (lines 98-127): the two guards,
    the flag, and the orchestrator taking the history. *)
Definition continueConversation (sessionId : string) : Proc := fun w =>
  match sessions w !! sessionId with
  | None => w
  | Some l =>
      with_session l (fun session =>
        if isProcessing session then skip
        else if waitingForAudioComplete session then skip
        else
          update_session l (set_isProcessing true) >>
          spawn (Deciding l sessionId
                   (ConversationMemory.memories (memory w) !! sessionId))) w
  end.

(** *** onAudioPlaybackComplete *)

Definition onAudioPlaybackComplete (sessionId : string) (aiId : JsRef)
    : Proc := fun w =>
  match sessions w !! sessionId with
  | None => w
  | Some l =>
      with_session l (fun session =>
        if waitingForAudioComplete session
           && strict_eq (currentSpeakingAgentId session) aiId
        then
          update_session l (fun s =>
            set_isProcessing false
              (set_currentSpeakingAgentId JNull
                 (set_waitingForAudioComplete false s))) >>
          spawn (Timer sessionId)
        else skip) w
  end.

(** *** processUserMessage *)

Definition processUserMessage (sessionId message : string) : Proc := fun w =>
  match sessions w !! sessionId with
  | None => w
  | Some l =>
      with_session l (fun session =>
        emit (sink session) onStreamChunk
             (ai_thinking "Processing your response...") >>
        update_memory (ConversationMemory.addUserMessage sessionId message) >>
        continueConversation sessionId) w
  end.

(** *** deleteSession *)

Definition deleteSession (sessionId : string) : Proc :=
  (fun w => set_sessions (delete sessionId (sessions w)) w) >>
  update_memory (ConversationMemory.clearSession sessionId).

Definition hasSession (sessionId : string) (w : World) : bool :=
  bool_decide (is_Some (sessions w !! sessionId)).

End ChatManager.

(* ===================================================================== *)
(** * The event loop *)
(* ===================================================================== *)

(** What a suspended task is resumed with. *)
Inductive Result :=
| Fired                                   (* a timer fires *)
| Generated (result : string + list Agent) (* generateAgents threw / returned *)
| Answered (upstream : option string)     (* the provider answered the orchestrator *)
| Rejected (message : string)             (* the awaited promise is rejected *)
| Chunk (content : string)                (* one item of the text stream *)
| StreamEnd                               (* the text stream ended *)
| StreamError (message : string)          (* the text stream threw *)
| TtsOpen                                 (* LiveTTSEvents.Open *)
| TtsOpenError                            (* LiveTTSEvents.Error before Open *)
| TtsOpenTimeout                          (* no Open within 5 seconds *)
| TtsAudio (data : list byte)             (* LiveTTSEvents.Audio *)
| TtsFlushed                              (* LiveTTSEvents.Flushed *)
| TtsTimeout                              (* the 30 second timer fires *)
| TtsError.                               (* LiveTTSEvents.Error once open *)

(** One turn of the event loop: a call from the transport, or the
    resumption of the task at position [k]. *)
Inductive Input :=
| CreateSession (sessionId scenario userName userRole : string) (sink : nat)
| ProcessUserMessage (sessionId message : string)
| AudioPlaybackComplete (sessionId : string) (aiId : JsRef)
| DeleteSession (sessionId : string)
| Resume (k : nat) (r : Result).

Definition drop_task (k : nat) : Proc := fun w =>
  set_tasks (delete k (tasks w)) w.

Definition put_task (k : nat) (t : Task) : Proc := fun w =>
  set_tasks (<[k := t]> (tasks w)) w.

(** [Rejected] cannot come from the collaborators of this repository, which
    catch their own errors; the [catch] block of [continueConversation] is
    there for it all the same. *)
Definition resume (k : nat) (r : Result) : Proc := fun w =>
  match tasks w !! k, r with
  | Some (Timer sessionId), Fired =>
      (drop_task k >> ChatManager.continueConversation sessionId) w
  | Some (Generating sessionId scenario userName userRole sink),
    Generated result =>
      (drop_task k >>
       ChatManager.createSession_generated
         sessionId scenario userName userRole sink result) w
  | Some (Deciding l sessionId fullHistory), Answered upstream =>
      (drop_task k >>
       with_session l (fun session =>
         ChatManager.after_decision l sessionId
           (Orchestrator.decideAndGenerateResponse (agents session)
              (ConversationMemory.deref fullHistory (memory w))
              (ConversationMemory.getMessages sessionId (memory w))
              upstream))) w
  | Some (Deciding l _ _), Rejected message =>
      (drop_task k >> ChatManager.caught l message) w
  | Some (Streaming l sessionId agent decision fullResponse received),
    Chunk content =>
      with_session l (fun session w =>
        let '(received, (fullResponse, w)) :=
          OpenAIService.on_chunk
            (ChatManager.onTextChunk (sink session) (speaker decision))
            content received (fullResponse, w) in
        put_task k
          (Streaming l sessionId agent decision fullResponse received) w) w
  | Some (Streaming l sessionId agent decision fullResponse received),
    StreamEnd =>
      let '(fullResponse, w) :=
        OpenAIService.on_end ChatManager.onTextComplete received
                             (fullResponse, w) in
      (drop_task k >>
       ChatManager.after_text l sessionId agent decision fullResponse) w
  | Some (Streaming l sessionId agent decision fullResponse received),
    StreamError message =>
      with_session l (fun session w =>
        let '(fullResponse, w) :=
          OpenAIService.on_throw
            (ChatManager.onTextError l (sink session) (speaker decision))
            message (fullResponse, w) in
        (drop_task k >>
         ChatManager.after_text l sessionId agent decision fullResponse) w) w
  | Some (Streaming l _ _ _ _ _), Rejected message =>
      (drop_task k >> ChatManager.caught l message) w
  | Some (OpeningTts l sessionId agent decision fullResponse model), TtsOpen =>
      (drop_task k >>
       spawn (Speaking l (speaker decision) (mkAudioClosure true false)
                       (TTSService.opened model)) >>
       ChatManager.finish l agent decision fullResponse) w
  | Some (OpeningTts l sessionId agent decision fullResponse model),
    TtsOpenError =>
      let '(_, w) :=
        TTSService.open_error ChatManager.onAudioError
                              (mkAudioClosure true false, w) in
      (drop_task k >> ChatManager.finish l agent decision fullResponse) w
  | Some (OpeningTts l sessionId agent decision fullResponse model),
    TtsOpenTimeout =>
      let '(_, w) :=
        TTSService.open_timeout ChatManager.onAudioError
                                (mkAudioClosure true false, w) in
      (drop_task k >> ChatManager.finish l agent decision fullResponse) w
  | Some (Speaking l agentId closure connection), TtsAudio data =>
      with_session l (fun session w =>
        let '(closure, w) :=
          TTSService.on_audio
            (ChatManager.onAudioChunk (sink session) agentId) data
            (closure, w) in
        put_task k (Speaking l agentId closure connection) w) w
  | Some (Speaking l agentId closure connection), TtsFlushed =>
      with_session l (fun session w =>
        let '(connection, (closure, w)) :=
          TTSService.on_flushed
            (ChatManager.onAudioComplete (sink session) agentId) connection
            (closure, w) in
        put_task k (Speaking l agentId closure connection) w) w
  | Some (Speaking l agentId closure connection), TtsTimeout =>
      with_session l (fun session w =>
        let '(connection, (closure, w)) :=
          TTSService.on_timeout
            (ChatManager.onAudioComplete (sink session) agentId) connection
            (closure, w) in
        drop_task k w) w
  | Some (Speaking l agentId closure connection), TtsError =>
      snd (TTSService.on_error ChatManager.onAudioError (closure, w))
  | _, _ => w
  end.

Definition step (i : Input) : Proc :=
  match i with
  | CreateSession sessionId scenario userName userRole sink =>
      ChatManager.createSession sessionId scenario userName userRole sink
  | ProcessUserMessage sessionId message =>
      ChatManager.processUserMessage sessionId message
  | AudioPlaybackComplete sessionId aiId =>
      ChatManager.onAudioPlaybackComplete sessionId aiId
  | DeleteSession sessionId => ChatManager.deleteSession sessionId
  | Resume k r => resume k r
  end.

Definition run (inputs : list Input) (w : World) : World :=
  fold_left (fun w i => step i w) inputs w.

(** The worlds the program can be in. *)
Definition reachable (w : World) : Prop :=
  exists deepgram inputs, w = run inputs (init deepgram).

(* ===================================================================== *)
(** * AgentGenerator (agentGenerator.js) *)
(* ===================================================================== *)

Module AgentGenerator.

(** An element of the array that the provider's text was parsed into: an
    object whose properties, where it has them, hold strings.  [None] is a
    property that is absent or [null]. *)
Record RawAgent := mkRawAgent {
  raw_name : option string;
  raw_designation : option string;
  raw_personalities : option string;
  raw_personality : option string;
  raw_gender : option string;
}.

(** What [generateAgents] throws once the text is parsed:
    [Agent at index ... is missing required fields (name, designation)],
    and [No valid agents generated (all agents had the same name as
    user)]. *)
Inductive Error :=
| MissingFields (index : nat)
| NoValidAgents.

(** [s.replace(/\s+/g, '_')]: every maximal run of white space becomes one
    underscore.  [in_run] tells that the character before was white
    space. *)
Fixpoint underscore_spaces_from (in_run : bool) (s : string) : string :=
  match s with
  | EmptyString => EmptyString
  | String c t =>
      if Js.is_space c then
        if in_run then underscore_spaces_from true t
        else String "_" (underscore_spaces_from true t)
      else String c (underscore_spaces_from false t)
  end.

Definition underscore_spaces : string -> string :=
  underscore_spaces_from false.

(** [s.replace(/[^a-zA-Z0-9_]/g, '')] for [p] the class that is kept. *)
Fixpoint keep_chars (p : ascii -> bool) (s : string) : string :=
  match s with
  | EmptyString => EmptyString
  | String c t => if p c then String c (keep_chars p t) else keep_chars p t
  end.

Definition clean (s : string) : string :=
  keep_chars Js.is_word (underscore_spaces s).

(** The id made of a name and a role. *)
Definition agentId (name designation : string) : string :=
  let cleanName := clean name in
  let cleanRole := clean designation in
  cleanName +:+ "_" +:+ cleanRole.

(** [a || b] for a property [a] *)
Definition or_else (a : option string) (b : string) : string :=
  match a with
  | Some s => if Js.truthy s then s else b
  | None => b
  end.

(** The callback of the first [map]; [None] when it throws. *)
Definition format (agent : RawAgent) : option Agent :=
  match raw_name agent, raw_designation agent with
  | Some name, Some designation =>
      if negb (Js.truthy name) || negb (Js.truthy designation) then None
      else
        Some (mkAgent (agentId name designation) name designation
                (or_else (raw_personalities agent)
                   (or_else (raw_personality agent)
                      "Natural conversational style"))
                (or_else (raw_gender agent) "female"))
  | _, _ => None
  end.

(** [agents.map((agent, index) => ...)] from [index] on. *)
Fixpoint format_from (index : nat) (agents : list RawAgent)
    : Error + list Agent :=
  match agents with
  | [] => inr []
  | agent :: rest =>
      match format agent with
      | None => inl (MissingFields index)
      | Some formatted =>
          match format_from (S index) rest with
          | inl e => inl e
          | inr formattedAgents => inr (formatted :: formattedAgents)
          end
      end
  end.

(** The predicate of the [filter]. *)
Definition other_name (userName : string) (agent : Agent) : bool :=
  let userNameLower := Js.trim (Js.toLowerCase userName) in
  let agentNameLower := Js.trim (Js.toLowerCase (agent_name agent)) in
  negb (String.eqb agentNameLower userNameLower).

(** The callback of the second [map]. *)
Definition reassign (agent : Agent) : Agent :=
  mkAgent (agentId (agent_name agent) (agent_designation agent))
          (agent_name agent) (agent_designation agent)
          (agent_personalities agent) (agent_gender agent).

(** [generateAgents] from the parsed array on (lines 72-117). *)
Definition generateAgents_parsed (userName : string) (agents : list RawAgent)
    : Error + list Agent :=
  match format_from 0 agents with
  | inl e => inl e
  | inr formattedAgents =>
      let formattedAgents :=
        List.filter (other_name userName) formattedAgents in
      let formattedAgents := List.map reassign formattedAgents in
      match formattedAgents with
      | [] => inl NoValidAgents
      | _ :: _ => inr formattedAgents
      end
  end.

End AgentGenerator.

(* ===================================================================== *)
(** * Vocabulary of the properties *)
(* ===================================================================== *)

(** [undefined] (the property was never set) and [null] both say that no
    speaker is tracked. *)
Definition nullish (r : JsRef) : bool :=
  match r with
  | JStr _ => false
  | JUndefined | JNull => true
  end.

Definition coherent (s : Session) : Prop :=
  nullish (currentSpeakingAgentId s) = false <->
  waitingForAudioComplete s = true.

(** [P] holds of every session object of the world. *)
Definition Inv (P : Session -> Prop) (w : World) : Prop := Forall P (heap w).

Definition preserving (P : Session -> Prop) (p : Proc) : Prop :=
  forall w, Inv P w -> Inv P (p w).

(** What [onAudioPlaybackComplete] does when it takes the acknowledgement. *)
Definition release (l : nat) (sessionId : string) : Proc :=
  update_session l (fun s =>
    set_isProcessing false
      (set_currentSpeakingAgentId JNull
         (set_waitingForAudioComplete false s))) >>
  spawn (Timer sessionId).

(** The call of [continueConversation] suspended in [t] belongs to the
    session object at [l]: a turn evaluation in flight. *)
Definition evaluating (l : nat) (t : Task) : bool :=
  match t with
  | Deciding l' _ _ => Nat.eqb l l'
  | Streaming l' _ _ _ _ _ => Nat.eqb l l'
  | OpeningTts l' _ _ _ _ _ => Nat.eqb l l'
  | Timer _ | Generating _ _ _ _ _ | Speaking _ _ _ _ => false
  end.

Definition count (l : nat) (ts : list Task) : nat :=
  length (List.filter (evaluating l) ts).

Definition in_flight (l : nat) (w : World) : nat := count l (tasks w).

(** No evaluation is in flight for a session object, or one is and the
    object says so: [isProcessing] is on and the turn has not reached the
    wait for the playback acknowledgement. *)
Definition flags_ok (n : nat) (s : option Session) : Prop :=
  n = 0 \/
  (n = 1 /\ exists s', s = Some s' /\ isProcessing s' = true
                       /\ waitingForAudioComplete s' = false).

Definition one_at_a_time (w : World) : Prop :=
  forall l, flags_ok (in_flight l w) (heap w !! l).

(** What a piece of [continueConversation] that runs on the session object
    at [l] (which was [s]) leaves behind, from the heap [h0] and the tasks
    [t0]: other objects untouched; the tasks it adds either hold no
    evaluation at all, or hold one for [l], in which case the flags that
    marked the turn as running still do. *)
Definition outcome (l : nat) (s : Session) (h0 : list Session)
    (t0 : list Task) (w' : World) : Prop :=
  (forall l', l' <> l -> heap w' !! l' = h0 !! l')
  /\ exists s' extra,
       heap w' !! l = Some s'
       /\ tasks w' = t0 ++ extra
       /\ (forall l', l' <> l -> count l' extra = 0)
       /\ (count l extra = 0
           \/ (count l extra = 1
               /\ (isProcessing s = true ->
                   waitingForAudioComplete s = false ->
                   isProcessing s' = true
                   /\ waitingForAudioComplete s' = false))).

(** The suspended evaluation [t] belongs to the session object at [l]. *)
Definition evaluation_of (l : nat) (t : Task) : Prop :=
  forall l', evaluating l' t = Nat.eqb l' l.

(** Unfold the primitive effects down to the fields of the world. *)
Ltac unfold_procs :=
  unfold outcome, seq, skip, emit, update_session, update_memory, spawn,
    set_tasks;
  simpl.

(** An input other than the failure of a text stream. *)
Definition calm (i : Input) : bool :=
  match i with
  | Resume _ (StreamError _) => false
  | _ => true
  end.

(** The log entry [m] is an utterance of the agent [x]. *)
Definition agent_utterance (m : Message) (x : string) : Prop :=
  role m = assistant /\ aiId m = Some x /\ x <> "".

(** A text that is [null], empty, or made of white space only. *)
Definition blank (text : option string) : Prop :=
  match text with
  | None => True
  | Some t => Js.all_chars Js.is_space t = true
  end.

(** Little-endian reading of a field of a byte buffer. *)
Definition le (bs : list byte) : N :=
  fold_right (fun b acc => (Byte.to_N b + 256 * acc)%N) 0%N bs.

Definition field (offset len : nat) (bs : list byte) : N :=
  le (take len (drop offset bs)).

Definition tag (offset : nat) (bs : list byte) : string :=
  string_of_list_byte (take 4 (drop offset bs)).

(** The audio events [chunks] arriving, in order, for the task at [k]. *)
Definition audio_inputs (k : nat) (chunks : list (list byte)) : list Input :=
  List.map (fun data => Resume k (TtsAudio data)) chunks.

Definition audio_emissions (to : nat) (agentId : string)
    (chunks : list (list byte)) : list Emission :=
  List.map (fun data => mkEmission to onStreamChunk (ai_audio_chunk agentId data))
           chunks.

(** ** A concrete session *)

Definition alice : Agent :=
  mkAgent "Alice_Coach" "Alice" "Coach" "Warm and direct" "female".

Definition bob : Agent :=
  mkAgent "Bob_Manager" "Bob" "Manager" "Blunt" "male".

(** The raw decision text of the scenario with a leaked speaker label. *)
Definition leaked_label_text : string :=
  "AGENT:Alice_Coach" +:+ String nl "[Alice - Alice_Coach]: Good job".

(** A session is created for a socket, the first timer fires, the provider
    answers the orchestrator. *)
Definition opening (upstream : option string) : list Input :=
  [ CreateSession "s1" "standup" "Mahesh" "dev" 7;
    Resume 0 (Generated (inr [alice; bob]));
    Resume 0 Fired;
    Resume 0 (Answered upstream) ].

(** The answer cannot be parsed, the fallback picks Alice without text, and
    the text stream has delivered one chunk. *)
Definition streaming : list Input :=
  opening (Some "garbage") ++ [ Resume 0 (Chunk "Hel") ].

(** The session is deleted while the text stream of its turn is running. *)
Definition deleted_mid_stream : list Input :=
  streaming ++ [ DeleteSession "s1" ].


(** The text stream breaks after its first chunk. *)
Definition broken_stream : list Input :=
  streaming ++ [ Resume 0 (StreamError "socket hang up") ].

(** The orchestrator brought Alice's text; the speech service is not
    configured, so the turn goes straight to waiting for the playback
    acknowledgement. *)
Definition awaiting_ack : World :=
  run (opening (Some ("AGENT:Alice_Coach" +:+ String nl "Hello Mahesh")))
      (init false).

(** The same turn with the speech service configured, once its connection
    has opened: the turn is announced and audio may arrive. *)
Definition speaking : World :=
  run (opening (Some ("AGENT:Alice_Coach" +:+ String nl "Hello Mahesh"))
       ++ [ Resume 0 TtsOpen ])
      (init true).

(** ** The log store *)

(** Every entry of the table points to an array that exists, and no two
    session ids share an array. *)
Definition store_wf (m : ConversationMemory.Store) : Prop :=
  (forall sid a,
     ConversationMemory.memories m !! sid = Some a ->
     a < length (ConversationMemory.arrays m))
  /\ (forall sid1 sid2 a,
        ConversationMemory.memories m !! sid1 = Some a ->
        ConversationMemory.memories m !! sid2 = Some a ->
        sid1 = sid2).

(** The input creates or deletes the session [sid]. *)
Definition resets (sid : string) (i : Input) : bool :=
  match i with
  | CreateSession sid' _ _ _ _ => String.eqb sid' sid
  | DeleteSession sid' => String.eqb sid' sid
  | _ => false
  end.

(** Whatever the procedure does, the store it leaves is related by [R] to
    the store it found. *)
Definition moving (R : relation ConversationMemory.Store) (p : Proc) : Prop :=
  forall w, R (memory w) (memory (p w)).

(** The log of [sid] is kept and may have grown at its end. *)
Definition grows (sid : string) (m m' : ConversationMemory.Store) : Prop :=
  store_wf m ->
  store_wf m'
  /\ ConversationMemory.getMessages sid m
     `prefix_of` ConversationMemory.getMessages sid m'.

Definition keeps_wf (m m' : ConversationMemory.Store) : Prop :=
  store_wf m -> store_wf m'.

(** ** Text and audio of a turn *)

(** The text of the chunks [cs] put together. *)
Definition joined (cs : list string) : string :=
  fold_right String.append EmptyString cs.

(** The items [cs] of the text stream arriving, in order, for the task at
    [k]. *)
Definition chunk_inputs (k : nat) (cs : list string) : list Input :=
  List.map (fun content => Resume k (Chunk content)) cs.

(** What the socket is sent for them: one event for each item that
    carries text. *)
Definition chunk_emissions (to : nat) (agentId : string) (cs : list string)
    : list Emission :=
  List.map (fun content =>
              mkEmission to onStreamChunk (ai_response_chunk agentId content))
           (List.filter Js.truthy cs).





(** The names of the properties that every object inherits: as a gender
    they would select none of the two voice arrays. *)
Definition inherited_property (name : string) : bool :=
  existsb (String.eqb name)
    [ "constructor"; "hasOwnProperty"; "isPrototypeOf";
      "propertyIsEnumerable"; "toLocaleString"; "toString"; "valueOf";
      "__proto__"; "__defineGetter__"; "__defineSetter__";
      "__lookupGetter__"; "__lookupSetter__" ].

(** The session object once its turn was acknowledged, or has ended the
    conversation. *)
Definition released (s : Session) : Session :=
  set_isProcessing false
    (set_currentSpeakingAgentId JNull (set_waitingForAudioComplete false s)).

(** ** Generated rosters *)

(** The element has a name and a role. *)
Definition complete (agent : AgentGenerator.RawAgent) : bool :=
  match AgentGenerator.raw_name agent, AgentGenerator.raw_designation agent with
  | Some name, Some designation => Js.truthy name && Js.truthy designation
  | _, _ => false
  end.

(** The element bears the name of the user, but for case and the white
    space around it. *)
Definition named_as (userName : string) (agent : AgentGenerator.RawAgent)
    : bool :=
  match AgentGenerator.raw_name agent with
  | Some name =>
      String.eqb (Js.trim (Js.toLowerCase name))
                 (Js.trim (Js.toLowerCase userName))
  | None => false
  end.

(** ** Answers of the provider *)

Definition not_colon (c : ascii) : bool := negb (Ascii.eqb c ":").

(** ** More of the concrete session *)

(** The session object of the concrete session while a turn is being
    evaluated. *)
Definition busy_session : Session :=
  mkSession [alice; bob] "standup" "Mahesh" "dev" 7 true false JUndefined.

(** The same once Alice's turn was announced. *)
Definition waiting_session : Session :=
  mkSession [alice; bob] "standup" "Mahesh" "dev" 7 true true
            (JStr "Alice_Coach").

(** The first timer has fired and the orchestrator was asked. *)
Definition deciding (deepgram : bool) : World :=
  run [ CreateSession "s1" "standup" "Mahesh" "dev" 7;
        Resume 0 (Generated (inr [alice; bob]));
        Resume 0 Fired ]
      (init deepgram).

(** What the provider may answer to the generator for the concrete
    session: Alice, someone with the name of the user, Bob. *)
Definition raw_roster : list AgentGenerator.RawAgent :=
  [ AgentGenerator.mkRawAgent (Some "Alice") (Some "Coach")
      (Some "Warm and direct") None (Some "female");
    AgentGenerator.mkRawAgent (Some " mahesh") (Some "Developer")
      None None None;
    AgentGenerator.mkRawAgent (Some "Bob") (Some "Manager")
      None (Some "Blunt") (Some "male") ].

(** ** What belongs to a session *)

(** What a session object is created with: its roster, the scenario, the
    user, the socket. *)
Definition same_identity (s s' : Session) : Prop :=
  agents s' = agents s /\ scenario s' = scenario s
  /\ userName s' = userName s /\ userRole s' = userRole s
  /\ sink s' = sink s.

(** Every session object of [h] is still there in [h'], with what it was
    created with. *)
Definition keeps_sessions (h h' : list Session) : Prop :=
  forall l s, h !! l = Some s -> exists s', h' !! l = Some s' /\ same_identity s s'.

Definition steady (p : Proc) : Prop :=
  forall w, keeps_sessions (heap w) (heap (p w)).

(** The socket of the session object at [l], if there is one, is [t]. *)
Definition owns (l t : nat) (w : World) : Prop :=
  forall s, heap w !! l = Some s -> sink s = t.

(** The procedure, run for the session object [l] whose socket is [t],
    sends what it sends to [t]. *)
Definition sends (l t : nat) (p : Proc) : Prop :=
  forall w,
    owns l t w ->
    owns l t (p w)
    /\ exists new,
         emitted (p w) = emitted w ++ new
         /\ Forall (fun e => to e = t) new.

(** The socket a turn of the event loop works for: that of the session a
    user message is for, that of the session object a suspended call
    holds, that of the request for a session being created. *)
Definition addressee (i : Input) (w : World) : option nat :=
  match i with
  | ProcessUserMessage sessionId _ =>
      match sessions w !! sessionId with
      | Some l => sink <$> heap w !! l
      | None => None
      end
  | Resume k _ =>
      match tasks w !! k with
      | Some (Generating _ _ _ _ sink) => Some sink
      | Some (Deciding l _ _)
      | Some (Streaming l _ _ _ _ _)
      | Some (OpeningTts l _ _ _ _ _)
      | Some (Speaking l _ _ _) => sink <$> heap w !! l
      | Some (Timer _) | None => None
      end
  | CreateSession _ _ _ _ _ | AudioPlaybackComplete _ _ | DeleteSession _ =>
      None
  end.

(** No closing bracket and no letter R, of either case, is followed by a
    colon: the text holds no speaker label and no user marker. *)
Definition marker_free (s : string) : bool :=
  negb (Js.includes s "]:") && negb (Js.includes s "R:")
  && negb (Js.includes s "r:").

(* ===================================================================== *)
(** * Properties *)
(* ===================================================================== *)

(** ** The tracked speaker and the waiting flag *)

Section Preservation.

(** A property of session objects kept by every assignment the
    controller makes, taken one group of assignments at a time. *)
Variable P : Session -> Prop.


Lemma preserving_skip : preserving P skip.
Proof. intros w Hw. exact Hw. Qed.

Lemma preserving_seq a b : preserving P a -> preserving P b -> preserving P (a >> b).
Proof. intros Ha Hb w Hw. apply Hb, Ha, Hw. Qed.

Lemma preserving_emit t v e : preserving P (emit t v e).
Proof. intros w Hw. exact Hw. Qed.

Lemma preserving_update_memory f : preserving P (update_memory f).
Proof. intros w Hw. exact Hw. Qed.

Lemma preserving_set_tasks ts : preserving P (set_tasks ts).
Proof. intros w Hw. exact Hw. Qed.

Lemma preserving_spawn t : preserving P (spawn t).
Proof. intros w Hw. exact Hw. Qed.

Lemma preserving_drop_task k : preserving P (drop_task k).
Proof. intros w Hw. exact Hw. Qed.

Lemma preserving_put_task k t : preserving P (put_task k t).
Proof. intros w Hw. exact Hw. Qed.

Lemma preserving_store_session sid s : P s -> preserving P (store_session sid s).
Proof.
  intros Hs w Hw. unfold Inv, store_session; simpl.
  apply Forall_app; split; [exact Hw | repeat constructor; exact Hs].
Qed.

Lemma preserving_update_session l f :
  (forall s, P s -> P (f s)) -> preserving P (update_session l f).
Proof.
  intros Hf w Hw. unfold Inv, update_session; simpl.
  apply Forall_alter; [exact Hw | intros x _; apply Hf].
Qed.

Lemma preserving_with_session l k :
  (forall s, preserving P (k s)) -> preserving P (with_session l k).
Proof.
  intros Hk w Hw. unfold with_session.
  destruct (heap w !! l); [apply Hk, Hw | exact Hw].
Qed.

(** The three groups of assignments of the source. *)
Hypothesis P_isProcessing : forall b s, P s -> P (set_isProcessing b s).
Hypothesis P_speaking : forall a s,
  P s -> P (set_currentSpeakingAgentId (JStr a)
              (set_waitingForAudioComplete true s)).
Hypothesis P_released : forall s,
  P s -> P (set_isProcessing false
              (set_currentSpeakingAgentId JNull
                 (set_waitingForAudioComplete false s))).
Hypothesis P_created : forall ags sc un ur sk,
  P (mkSession ags sc un ur sk false false JUndefined).

Create HintDb pres.

Local Hint Resolve preserving_skip preserving_seq preserving_emit
  preserving_update_memory preserving_set_tasks preserving_spawn
  preserving_drop_task preserving_put_task preserving_store_session
  preserving_update_session preserving_with_session
  P_isProcessing P_speaking P_released P_created : pres.

Lemma preserving_finish l agent d full :
  preserving P (ChatManager.finish l agent d full).
Proof.
  unfold ChatManager.finish. apply preserving_with_session; intros s.
  destruct (String.eqb (speaker d) "end" || shouldEnd d); auto 10 with pres.
Qed.

Lemma preserving_after_text l sid agent d full :
  preserving P (ChatManager.after_text l sid agent d full).
Proof.
  unfold ChatManager.after_text. apply preserving_with_session; intros s.
  apply preserving_seq; [auto with pres|].
  intros w Hw. unfold TTSService.streamTextToSpeech.
  destruct (negb (Js.truthy full) || negb (Js.truthy (Js.trim full)));
    [|destruct (deepgram w)]; simpl.
  - apply preserving_finish, Hw.
  - exact Hw.
  - apply preserving_finish, Hw.
Qed.

Lemma preserving_after_decision l sid d :
  preserving P (ChatManager.after_decision l sid d).
Proof.
  unfold ChatManager.after_decision. apply preserving_with_session; intros s.
  destruct (String.eqb (speaker d) "user"); [auto with pres|].
  destruct (List.find _ (agents s)); [|auto with pres].
  pose proof (preserving_after_text l sid a d) as Hat.
  destruct (response d) as [r|]; [|auto 10 with pres].
  destruct (Js.truthy r && negb (String.eqb (Js.trim r) ""));
    auto 10 with pres.
Qed.

Lemma preserving_caught l m : preserving P (ChatManager.caught l m).
Proof. unfold ChatManager.caught. auto 10 with pres. Qed.

Lemma preserving_continueConversation sid :
  preserving P (ChatManager.continueConversation sid).
Proof.
  intros w Hw. unfold ChatManager.continueConversation.
  destruct (sessions w !! sid) as [l|]; [|exact Hw].
  unfold with_session. destruct (heap w !! l) as [s|] eqn:Hl; [|exact Hw].
  destruct (isProcessing s); [exact Hw|].
  destruct (waitingForAudioComplete s); [exact Hw|].
  apply preserving_seq; [auto with pres | apply preserving_spawn | exact Hw].
Qed.

Lemma preserving_onAudioPlaybackComplete sid a :
  preserving P (ChatManager.onAudioPlaybackComplete sid a).
Proof.
  intros w Hw. unfold ChatManager.onAudioPlaybackComplete.
  destruct (sessions w !! sid) as [l|]; [|exact Hw].
  revert w Hw. apply preserving_with_session; intros s.
  destruct (waitingForAudioComplete s && strict_eq _ a); auto 10 with pres.
Qed.

Lemma preserving_processUserMessage sid m :
  preserving P (ChatManager.processUserMessage sid m).
Proof.
  intros w Hw. unfold ChatManager.processUserMessage.
  destruct (sessions w !! sid) as [l|]; [|exact Hw].
  revert w Hw. apply preserving_with_session; intros s.
  pose proof (preserving_continueConversation sid).
  auto 10 with pres.
Qed.

Lemma preserving_deleteSession sid : preserving P (ChatManager.deleteSession sid).
Proof. intros w Hw. exact Hw. Qed.

Lemma preserving_createSession sid sc un ur sk :
  preserving P (ChatManager.createSession sid sc un ur sk).
Proof.
  unfold ChatManager.createSession.
  destruct (negb (Js.truthy sc) || negb (Js.truthy un) || negb (Js.truthy ur));
    auto 10 with pres.
Qed.

Lemma preserving_createSession_generated sid sc un ur sk res :
  preserving P (ChatManager.createSession_generated sid sc un ur sk res).
Proof.
  unfold ChatManager.createSession_generated.
  destruct res as [m|[|a ags]]; auto 10 with pres.
Qed.

Lemma preserving_resume k r : preserving P (resume k r).
Proof.
  intros w Hw. unfold resume.
  destruct (tasks w !! k) as [t|]; [|destruct r; exact Hw].
  destruct t, r; try exact Hw.
  - (* Timer, Fired *)
    apply preserving_seq;
      [apply preserving_drop_task | apply preserving_continueConversation | exact Hw].
  - (* Generating, Generated *)
    apply preserving_seq;
      [apply preserving_drop_task | apply preserving_createSession_generated | exact Hw].
  - (* Deciding, Answered *)
    apply preserving_seq; [apply preserving_drop_task | | exact Hw].
    apply preserving_with_session; intros s. apply preserving_after_decision.
  - (* Deciding, Rejected *)
    apply preserving_seq;
      [apply preserving_drop_task | apply preserving_caught | exact Hw].
  - (* Streaming, Rejected *)
    apply preserving_seq;
      [apply preserving_drop_task | apply preserving_caught | exact Hw].
  - (* Streaming, Chunk *)
    revert w Hw. apply preserving_with_session; intros s w Hw.
    unfold OpenAIService.on_chunk.
    destruct (Js.truthy content0); simpl; exact Hw.
  - (* Streaming, StreamEnd *)
    simpl. apply preserving_seq;
      [apply preserving_drop_task | apply preserving_after_text | exact Hw].
  - (* Streaming, StreamError *)
    revert w Hw. apply preserving_with_session; intros s w Hw. simpl.
    apply preserving_seq;
      [apply preserving_drop_task | apply preserving_after_text |].
    apply preserving_seq; [apply preserving_emit | | exact Hw].
    apply preserving_update_session. intros; apply P_isProcessing; assumption.
  - (* OpeningTts, TtsOpen *)
    apply preserving_seq; [|apply preserving_finish | exact Hw].
    apply preserving_seq; [apply preserving_drop_task | apply preserving_spawn].
  - (* OpeningTts, TtsOpenError *)
    simpl. apply preserving_seq;
      [apply preserving_drop_task | apply preserving_finish | exact Hw].
  - (* OpeningTts, TtsOpenTimeout *)
    simpl. apply preserving_seq;
      [apply preserving_drop_task | apply preserving_finish | exact Hw].
  - (* Speaking, TtsAudio *)
    revert w Hw. apply preserving_with_session; intros s w Hw.
    unfold TTSService.on_audio, ChatManager.onAudioChunk.
    destruct (firstAudioChunk closure); simpl; [|exact Hw].
    destruct (ttsFirstAudioSent closure); simpl; exact Hw.
  - (* Speaking, TtsFlushed *)
    revert w Hw. apply preserving_with_session; intros s w Hw.
    unfold TTSService.on_flushed.
    destruct (TTSService.flushed connection); simpl; exact Hw.
  - (* Speaking, TtsTimeout *)
    revert w Hw. apply preserving_with_session; intros s w Hw.
    unfold TTSService.on_timeout.
    destruct (TTSService.flushed connection); simpl; exact Hw.
Qed.

Lemma preserving_step i : preserving P (step i).
Proof.
  destruct i; simpl.
  - apply preserving_createSession.
  - apply preserving_processUserMessage.
  - apply preserving_onAudioPlaybackComplete.
  - apply preserving_deleteSession.
  - apply preserving_resume.
Qed.

Lemma preserving_run inputs : preserving P (run inputs).
Proof.
  induction inputs as [|i inputs IH]; intros w Hw; simpl.
  - exact Hw.
  - apply IH, preserving_step, Hw.
Qed.

Lemma Inv_init dg : Inv P (init dg).
Proof. constructor. Qed.

Lemma Inv_reachable w : reachable w -> Inv P w.
Proof. intros (dg & inputs & ->). apply preserving_run, Inv_init. Qed.

End Preservation.

(** *** C2 *)

Lemma coherent_isProcessing b s : coherent s -> coherent (set_isProcessing b s).
Proof. intros H. exact H. Qed.

Lemma coherent_speaking a s :
  coherent s ->
  coherent (set_currentSpeakingAgentId (JStr a)
              (set_waitingForAudioComplete true s)).
Proof. intros _. split; reflexivity. Qed.

Lemma coherent_released s :
  coherent s ->
  coherent (set_isProcessing false
              (set_currentSpeakingAgentId JNull
                 (set_waitingForAudioComplete false s))).
Proof. intros _. split; discriminate. Qed.

Lemma coherent_created ags sc un ur sk :
  coherent (mkSession ags sc un ur sk false false JUndefined).
Proof. split; discriminate. Qed.

(** C2.  In every state the program can reach, and for every session
    object, a speaker is tracked ([currentSpeakingAgentId] holds an agent
    id, neither [null] nor [undefined]) if and only if
    [waitingForAudioComplete] is true.  The equivalence holds when the
    program starts and every turn of the event loop keeps it: session
    creation, [continueConversation] with its early returns, its stream
    error callback and its [catch] block, [onAudioPlaybackComplete], the
    end of the conversation, user messages and deletion. *)
Theorem C2_speaker_tracked_iff_waiting :
  (forall deepgram inputs,
     Forall (fun s => nullish (currentSpeakingAgentId s) = false <->
                      waitingForAudioComplete s = true)
            (heap (run inputs (init deepgram))))
  /\
  (forall i w,
     Forall coherent (heap w) -> Forall coherent (heap (step i w))).
Proof.
  split.
  - intros dg inputs.
    apply (preserving_run coherent coherent_isProcessing coherent_speaking
             coherent_released coherent_created inputs (init dg)).
    apply Inv_init.
  - intros i w.
    apply (preserving_step coherent coherent_isProcessing coherent_speaking
             coherent_released coherent_created i w).
Qed.

(** ** Playback acknowledgements *)

Lemma strict_eq_true a b : strict_eq a b = true <-> a = b.
Proof.
  destruct a, b; simpl; split; try congruence; try discriminate.
  - intros H. apply String.eqb_eq in H. congruence.
  - intros [= ->]. apply String.eqb_refl.
Qed.

Lemma ack_taken w sid a l s :
  sessions w !! sid = Some l ->
  heap w !! l = Some s ->
  waitingForAudioComplete s = true ->
  currentSpeakingAgentId s = a ->
  ChatManager.onAudioPlaybackComplete sid a w = release l sid w.
Proof.
  intros Hsid Hl Hwait Heq.
  unfold ChatManager.onAudioPlaybackComplete, with_session.
  rewrite Hsid, Hl, Hwait. apply strict_eq_true in Heq. rewrite Heq.
  reflexivity.
Qed.

Lemma ack_ignored w sid a l s :
  sessions w !! sid = Some l ->
  heap w !! l = Some s ->
  waitingForAudioComplete s = false \/ currentSpeakingAgentId s <> a ->
  ChatManager.onAudioPlaybackComplete sid a w = w.
Proof.
  intros Hsid Hl Hc.
  unfold ChatManager.onAudioPlaybackComplete, with_session.
  rewrite Hsid, Hl.
  destruct Hc as [-> | Hne]; [reflexivity|].
  destruct (strict_eq (currentSpeakingAgentId s) a) eqn:He.
  - apply strict_eq_true in He. contradiction.
  - rewrite andb_false_r. reflexivity.
Qed.

Lemma ack_unknown w sid a :
  sessions w !! sid = None \/
  (exists l, sessions w !! sid = Some l /\ heap w !! l = None) ->
  ChatManager.onAudioPlaybackComplete sid a w = w.
Proof.
  unfold ChatManager.onAudioPlaybackComplete, with_session.
  intros [-> | (l & -> & ->)]; reflexivity.
Qed.

(** C6.  Processing a playback acknowledgement twice is the same as
    processing it once: after an acknowledgement for the tracked speaker
    has been taken (flags reset, one turn trigger scheduled), a second one
    for the same speaker changes nothing and schedules nothing.  And an
    acknowledgement that names anything but the tracked speaker changes
    nothing and schedules nothing. *)
Theorem C6_playback_ack_idempotent :
  forall (w : World) (sessionId : string) (aiId : JsRef),
    ChatManager.onAudioPlaybackComplete sessionId aiId
      (ChatManager.onAudioPlaybackComplete sessionId aiId w)
    = ChatManager.onAudioPlaybackComplete sessionId aiId w
    /\
    (forall l session,
       sessions w !! sessionId = Some l ->
       heap w !! l = Some session ->
       waitingForAudioComplete session = true ->
       currentSpeakingAgentId session = aiId ->
       tasks (ChatManager.onAudioPlaybackComplete sessionId aiId w)
       = tasks w ++ [Timer sessionId])
    /\
    (forall l session,
       sessions w !! sessionId = Some l ->
       heap w !! l = Some session ->
       currentSpeakingAgentId session <> aiId ->
       ChatManager.onAudioPlaybackComplete sessionId aiId w = w).
Proof.
  intros w sid a.
  destruct (sessions w !! sid) as [l|] eqn:Hsid.
  2: { rewrite !(ack_unknown w sid a) by (left; exact Hsid).
       repeat split; discriminate. }
  destruct (heap w !! l) as [s|] eqn:Hl.
  2: { rewrite !(ack_unknown w sid a) by (right; exists l; split; assumption).
       repeat split; intros l' s' [= <-]; congruence. }
  split; [|split].
  - destruct (waitingForAudioComplete s) eqn:Hwait.
    + destruct (strict_eq (currentSpeakingAgentId s) a) eqn:He.
      * apply strict_eq_true in He.
        rewrite (ack_taken w sid a l s Hsid Hl Hwait He).
        apply (ack_ignored _ sid a l
                 (set_isProcessing false
                    (set_currentSpeakingAgentId JNull
                       (set_waitingForAudioComplete false s))));
          [exact Hsid | | left; reflexivity].
        unfold release, seq, update_session, spawn, set_tasks; simpl.
        rewrite list_lookup_alter_eq, Hl. reflexivity.
      * assert (currentSpeakingAgentId s <> a) as Hne.
        { intros H. apply strict_eq_true in H. congruence. }
        rewrite !(ack_ignored w sid a l s Hsid Hl (or_intror Hne)).
        reflexivity.
    + rewrite !(ack_ignored w sid a l s Hsid Hl (or_introl Hwait)).
      reflexivity.
  - intros l' s' [= <-] Hl'. rewrite Hl in Hl'. injection Hl' as <-.
    intros Hwait He.
    rewrite (ack_taken w sid a l s Hsid Hl Hwait He). reflexivity.
  - intros l' s' [= <-] Hl'. rewrite Hl in Hl'. injection Hl' as <-.
    intros Hne. apply (ack_ignored w sid a l s Hsid Hl). right. exact Hne.
Qed.

(** ** The fallback decision *)

Section Fallback.

Import Orchestrator.

Lemma is_agent_entry_spec m :
  is_agent_entry m = true <-> exists x, agent_utterance m x.
Proof.
  unfold is_agent_entry, agent_utterance. split.
  - destruct (role m); try discriminate.
    destruct (aiId m) as [x|]; try discriminate.
    intros Hx. exists x. repeat split. intros ->. discriminate.
  - intros (x & -> & -> & Hx). destruct x; [contradiction | reflexivity].
Qed.

Lemma find_skip {A} (p : A -> bool) l1 l2 :
  Forall (fun x => p x = false) l1 ->
  List.find p (l1 ++ l2) = List.find p l2.
Proof.
  induction 1 as [|x l1 Hx _ IH]; simpl; [reflexivity|].
  rewrite Hx. exact IH.
Qed.

(** The most recent agent entry of the log is what the search from the
    end finds. *)
Lemma lastAgentId_most_recent before m after x :
  agent_utterance m x ->
  Forall (fun m' => forall y, ~ agent_utterance m' y) after ->
  lastAgentId (before ++ m :: after) = Some x.
Proof.
  intros Hm Hafter. unfold lastAgentId.
  rewrite rev_app_distr. simpl List.rev. rewrite <- app_assoc.
  rewrite find_skip.
  - simpl. rewrite (proj2 (is_agent_entry_spec m)) by (exists x; exact Hm).
    apply Hm.
  - apply List.Forall_forall. intros m' Hin. apply in_rev in Hin.
    rewrite List.Forall_forall in Hafter. specialize (Hafter m' Hin).
    destruct (is_agent_entry m') eqn:E; [|reflexivity].
    apply is_agent_entry_spec in E as [y Hy]. destruct (Hafter y Hy).
Qed.

Lemma lastAgentId_silent history :
  Forall (fun m => forall y, ~ agent_utterance m y) history ->
  lastAgentId history = None.
Proof.
  intros Hall. unfold lastAgentId.
  destruct (List.find is_agent_entry (List.rev history)) as [m|] eqn:E;
    [|reflexivity].
  apply find_some in E as [Hin Hm]. apply in_rev in Hin.
  rewrite List.Forall_forall in Hall.
  apply is_agent_entry_spec in Hm as [y Hy]. destruct (Hall m Hin y Hy).
Qed.

Lemma findIndex_from_first {A} (p : A -> bool) (l : list A) :
  forall (i : nat) (z : Z) (a : A),
    l !! i = Some a -> p a = true ->
    (forall j b, j < i -> l !! j = Some b -> p b = false) ->
    findIndex_from p z l = (z + Z.of_nat i)%Z.
Proof.
  induction l as [|x l IH]; intros i z a Hi Ha Hfirst; [discriminate|].
  destruct i as [|i]; simpl in *.
  - injection Hi as ->. rewrite Ha. lia.
  - rewrite (Hfirst 0 x) by (lia || reflexivity).
    rewrite (IH i (z + 1)%Z a Hi Ha); [lia|].
    intros j b Hj Hb. apply (Hfirst (S j) b); [lia | exact Hb].
Qed.

(** C7.  The fallback decision is round-robin and brings no text.  When the
    log has an agent utterance, take the most recent one ([m], with nothing
    but other entries [after] it), let [i] be the place of its speaker in
    the roster and [next] the roster entry at place [i + 1], wrapping to
    the start at the end of the roster: the decision names [next].  When no
    agent has spoken in the log, the decision names the first roster
    entry. *)
Theorem C7_fallback_round_robin :
  forall (agents : list Agent) (history : list Message),
    (forall before m after x i a next,
       history = before ++ m :: after ->
       agent_utterance m x ->
       Forall (fun m' => forall y, ~ agent_utterance m' y) after ->
       agents !! i = Some a ->
       agent_id a = x ->
       (forall j b, j < i -> agents !! j = Some b -> agent_id b <> x) ->
       agents !! ((i + 1) mod length agents) = Some next ->
       fallbackDecision agents history = mkDecision (agent_id next) None false)
    /\
    (forall first rest,
       agents = first :: rest ->
       Forall (fun m => forall y, ~ agent_utterance m y) history ->
       fallbackDecision agents history = mkDecision (agent_id first) None false).
Proof.
  intros agents history. split.
  - intros before m after x i a next -> Hm Hafter Hi Ha Hfirst Hnext.
    unfold fallbackDecision.
    destruct agents as [|first rest] eqn:Hagents; [discriminate|].
    rewrite <- Hagents in *.
    rewrite (lastAgentId_most_recent before m after x Hm Hafter).
    destruct Hm as (_ & _ & Hx).
    destruct x as [|c x]; [contradiction|]. simpl Js.truthy. cbv iota.
    unfold findIndex.
    rewrite (findIndex_from_first _ agents i 0%Z a Hi).
    + assert (length agents <> 0) as Hlen by (rewrite Hagents; discriminate).
      rewrite Z.add_0_l.
      rewrite Z.rem_mod_nonneg by lia.
      replace (Z.of_nat i + 1)%Z with (Z.of_nat (i + 1)) by lia.
      rewrite <- Nat2Z.inj_mod, Nat2Z.id.
      rewrite (nth_lookup_Some _ _ first next Hnext). reflexivity.
    + rewrite Ha. apply String.eqb_refl.
    + intros j b Hj Hb. apply String.eqb_neq. apply (Hfirst j b Hj Hb).
  - intros first rest -> Hsilent.
    unfold fallbackDecision. rewrite (lastAgentId_silent history Hsilent).
    reflexivity.
Qed.

End Fallback.

(** ** Parsing the decision text *)

(** C8.  The text [AGENT:Alice_Coach], a line feed, then
    [[Alice - Alice_Coach]: Good job], parsed against any roster that has
    an agent with id [Alice_Coach] (and any log), gives the decision
    speaker [Alice_Coach] with the text [Good job]: the label in square
    brackets is gone from the body. *)
Theorem C8_leaked_label_stripped :
  forall (agents : list Agent) (history : list Message),
    (exists a, In a agents /\ agent_id a = "Alice_Coach") ->
    Orchestrator.parseResponse agents history leaked_label_text
    = mkDecision "Alice_Coach" (Some "Good job") false
    /\
    Orchestrator.decideAndGenerateResponse agents history history
      (Some leaked_label_text)
    = mkDecision "Alice_Coach" (Some "Good job") false.
Proof.
  intros agents history (a & Hin & Ha).
  assert (existsb (fun a => String.eqb (agent_id a) "Alice_Coach") agents = true)
    as Hvalid.
  { apply existsb_exists. exists a. split; [exact Hin|].
    rewrite Ha. reflexivity. }
  assert (Orchestrator.parseResponse agents history leaked_label_text
          = mkDecision "Alice_Coach" (Some "Good job") false) as Hparse.
  { unfold Orchestrator.parseResponse.
    change (Js.trim leaked_label_text) with leaked_label_text.
    change (Js.startsWith leaked_label_text "END:"
            || String.eqb leaked_label_text "END") with false.
    change (Orchestrator.userTurnPattern leaked_label_text) with false.
    change (Orchestrator.is_user_token leaked_label_text) with false.
    change (Orchestrator.agentMatch leaked_label_text)
      with (Some ("Alice_Coach", "[Alice - Alice_Coach]: Good job")).
    cbv iota beta zeta.
    change (Orchestrator.clean_body "[Alice - Alice_Coach]: Good job")
      with "Good job".
    change (Js.trim "Alice_Coach") with "Alice_Coach".
    change (negb (Js.truthy "Good job")
            || Orchestrator.is_only_user_token "Good job") with false.
    change (Js.includes "Good job" "END:"
            || Js.includes leaked_label_text (String nl "END:")) with false.
    cbv iota. rewrite Hvalid. reflexivity. }
  split; [exact Hparse | exact Hparse].
Qed.

(** ** Audio framing *)

Lemma resume_audio w k l session agentId closure connection data :
  tasks w !! k = Some (Speaking l agentId closure connection) ->
  heap w !! l = Some session ->
  resume k (TtsAudio data) w
  = let '(closure', w') :=
      ChatManager.onAudioChunk (sink session) agentId data (closure, w) in
    put_task k (Speaking l agentId closure' connection) w'.
Proof.
  intros Htask Hl. unfold resume, with_session. rewrite Htask, Hl.
  reflexivity.
Qed.

(** Once the first chunk has gone out, chunks go out as they come. *)
Lemma later_chunks_raw bs :
  forall w k l session agentId sent connection,
    tasks w !! k
    = Some (Speaking l agentId (mkAudioClosure false sent) connection) ->
    heap w !! l = Some session ->
    emitted (run (audio_inputs k bs) w)
    = emitted w ++ audio_emissions (sink session) agentId bs.
Proof.
  induction bs as [|b bs IH]; intros w k l session agentId sent connection
    Htask Hl; simpl.
  - rewrite app_nil_r. reflexivity.
  - rewrite (resume_audio w k l session agentId _ connection b Htask Hl).
    simpl.
    erewrite IH; simpl.
    + rewrite <- app_assoc. reflexivity.
    + apply list_lookup_insert_eq. apply (lookup_lt_Some _ _ _ Htask).
    + exact Hl.
Qed.

(** The framing of C9.  For every turn whose connection delivers at least
    one audio chunk, what goes to the sink is: [tts_first_audio], the first
    chunk behind the 44 bytes of the header, then every later chunk as it
    came. *)
Lemma header_on_first_chunk_only :
  forall w k l session agentId connection first rest,
    tasks w !! k
    = Some (Speaking l agentId (mkAudioClosure true false) connection) ->
    heap w !! l = Some session ->
    emitted (run (audio_inputs k (first :: rest)) w)
    = emitted w
      ++ [ mkEmission (sink session) onStreamChunk (tts_first_audio agentId);
           mkEmission (sink session) onStreamChunk
                      (ai_audio_chunk agentId
                         (TTSService.createWavHeader ++ first)) ]
      ++ audio_emissions (sink session) agentId rest.
Proof.
  intros w k l session agentId connection first rest Htask Hl. simpl.
  rewrite (resume_audio w k l session agentId _ connection first Htask Hl).
  simpl.
  erewrite later_chunks_raw; simpl.
  - rewrite <- !app_assoc. reflexivity.
  - apply list_lookup_insert_eq. apply (lookup_lt_Some _ _ _ Htask).
  - exact Hl.
Qed.

(** C9.  The header is 44 bytes: the tags RIFF, WAVE, fmt and data, a
    format chunk of 16 bytes declaring linear PCM (format 1), 1 channel,
    48000 samples per second, 16 bits per sample and a block alignment of
    1 * 16 / 8, and the two length fields left at zero.  The byte rate it
    declares is 192000: not the 48000 * 1 * 16 / 8 = 96000 of
    single-channel 16-bit audio at 48 kHz, and not what the comment beside
    those bytes says. *)
Theorem C9_wav_header_declares_wrong_byte_rate :
  let header := TTSService.createWavHeader in
  length header = 44
  /\ tag 0 header = "RIFF" /\ tag 8 header = "WAVE"
  /\ tag 12 header = "fmt " /\ tag 36 header = "data"
  /\ field 16 4 header = 16%N
  /\ field 20 2 header = 1%N
  /\ field 22 2 header = 1%N
  /\ field 24 4 header = 48000%N
  /\ field 34 2 header = 16%N
  /\ field 32 2 header = (field 22 2 header * field 34 2 header / 8)%N
  /\ field 4 4 header = 0%N /\ field 40 4 header = 0%N
  /\ field 28 4 header = 192000%N
  /\ (field 24 4 header * field 22 2 header * field 34 2 header / 8 = 96000)%N
  /\ field 28 4 header
     <> (field 24 4 header * field 22 2 header * field 34 2 header / 8)%N.
Proof. cbv zeta. repeat (split; [reflexivity|]). discriminate. Qed.

(** ** Blank text *)

Lemma span_all p t : Js.all_chars p t = true -> Js.span p t = (t, EmptyString).
Proof.
  induction t as [|c t IH]; simpl; [reflexivity|].
  intros H. apply andb_true_iff in H as [Hc Ht].
  rewrite Hc, (IH Ht). reflexivity.
Qed.

Lemma trim_blank t : Js.all_chars Js.is_space t = true -> Js.trim t = EmptyString.
Proof.
  intros H. unfold Js.trim, Js.drop_while. rewrite (span_all _ _ H).
  reflexivity.
Qed.

(** C10.  A call of the speech renderer with a text that is null, empty or
    white space only returns at once, having called the completion
    callback once and nothing else, and asks for no connection.  In the
    controller, a turn whose text is blank therefore sends [ai_audio_end]
    at once, followed by the end of the turn; it leaves no task behind
    that could send [tts_first_audio] or an audio chunk. *)
Theorem C10_blank_text_completes_at_once :
  (forall (S : Type) (onAudioChunk : list byte -> S -> S)
          (onComplete onError : S -> S) deepgram text gender voiceIndex (s : S),
     blank text ->
     TTSService.streamTextToSpeech deepgram text gender voiceIndex
                                   onAudioChunk onComplete onError s
     = (TTSService.Returned, onComplete s))
  /\
  (forall w l sessionId agent decision fullResponse session,
     heap w !! l = Some session ->
     blank (Some fullResponse) ->
     let w' := ChatManager.after_text l sessionId agent decision fullResponse w in
     emitted w'
     = emitted w
       ++ [ mkEmission (sink session) onStreamChunk
                       (ai_audio_end (speaker decision));
            mkEmission (sink session) onStreamComplete
                       (ai_response_end (speaker decision) fullResponse
                                        (ChatManager.personality agent)) ]
       ++ (if String.eqb (speaker decision) "end" || shouldEnd decision
           then [ mkEmission (sink session) onStreamComplete
                             (conversation_ended "Conversation ended gracefully") ]
           else [])
     /\ tasks w' = tasks w).
Proof.
  assert (forall (S : Type) (onAudioChunk : list byte -> S -> S)
            (onComplete onError : S -> S) deepgram text gender voiceIndex
            (s : S),
            blank text ->
            TTSService.streamTextToSpeech deepgram text gender voiceIndex
                                          onAudioChunk onComplete onError s
            = (TTSService.Returned, onComplete s)) as Htts.
  { intros S onAudioChunk onComplete onError dg text gender vi s Hblank.
    unfold TTSService.streamTextToSpeech.
    destruct text as [t|]; [|reflexivity].
    simpl in Hblank. rewrite (trim_blank t Hblank). simpl.
    rewrite orb_true_r. reflexivity. }
  split; [exact Htts|].
  intros w l sid agent d full session Hl Hblank. cbv zeta.
  assert (ChatManager.after_text l sid agent d full w
          = ChatManager.finish l agent d full
              (emit (sink session) onStreamChunk (ai_audio_end (speaker d))
                 (update_memory
                    (ConversationMemory.addAssistantMessage sid full (speaker d))
                    w))) as ->.
  { unfold ChatManager.after_text, with_session. rewrite Hl.
    unfold seq. rewrite Htts by exact Hblank. reflexivity. }
  unfold ChatManager.finish, with_session. simpl. rewrite Hl.
  destruct (String.eqb (speaker d) "end" || shouldEnd d); simpl;
    rewrite <- !app_assoc; split; reflexivity.
Qed.

(** ** A stream that fails *)

(** The error callback of the stream does not end the turn: whatever text
    had accumulated is appended to the log. *)
Lemma failed_stream_appends w k l sid agent d full recv session message :
  tasks w !! k = Some (Streaming l sid agent d full recv) ->
  heap w !! l = Some session ->
  memory (resume k (StreamError message) w)
  = ConversationMemory.addAssistantMessage sid full (speaker d) (memory w).
Proof.
  intros Htask Hl. unfold resume, with_session. rewrite Htask, Hl.
  unfold OpenAIService.on_throw, ChatManager.onTextError. simpl.
  unfold seq, ChatManager.after_text, with_session. simpl.
  rewrite list_lookup_alter_eq, Hl. simpl.
  unfold seq, TTSService.streamTextToSpeech. simpl.
  destruct (negb (Js.truthy full) || negb (Js.truthy (Js.trim full)));
    [|destruct (deepgram w)]; simpl;
    unfold ChatManager.finish, with_session; simpl;
    rewrite ?list_lookup_alter_eq, ?Hl; simpl;
    try reflexivity;
    destruct (String.eqb (speaker d) "end" || shouldEnd d); reflexivity.
Qed.

(** C4.  A text stream that delivers the chunk [Hel] and then fails: the
    error callback runs (an [error] event, no completion), and the turn
    goes on all the same.  The partial text [Hel] is appended to the log as
    Alice's utterance, the speech connection is asked for, and once it
    opens the partial text is announced as the full message of the
    turn. *)
Theorem C4_partial_text_of_failed_stream_is_recorded :
  let before := run streaming (init true) in
  let failed := step (Resume 0 (StreamError "socket hang up")) before in
  let opened := step (Resume 0 TtsOpen) failed in
  tasks before
  = [ Streaming 0 "s1" alice (mkDecision "Alice_Coach" None false) "Hel" "Hel" ]
  /\ ConversationMemory.getMessages "s1" (memory failed)
     = ConversationMemory.getMessages "s1" (memory before)
       ++ [ mkMessage assistant "Hel" (Some "Alice_Coach") ]
  /\ emitted failed
     = emitted before
       ++ [ mkEmission 7 onError (error (Some "Alice_Coach") "socket hang up") ]
  /\ tasks failed
     = [ OpeningTts 0 "s1" alice (mkDecision "Alice_Coach" None false) "Hel"
                    "aura-2-thalia-en" ]
  /\ emitted opened
     = emitted failed
       ++ [ mkEmission 7 onStreamComplete
                       (ai_response_end "Alice_Coach" "Hel" "Alice (Coach)") ].
Proof. vm_compute. repeat split; reflexivity. Qed.

(** ** One evaluation at a time *)

(** The guard of [continueConversation]: a trigger that finds one of the
    two flags set returns without touching anything. *)
Lemma trigger_dropped_while_flagged w sid l s :
  sessions w !! sid = Some l ->
  heap w !! l = Some s ->
  isProcessing s = true \/ waitingForAudioComplete s = true ->
  ChatManager.continueConversation sid w = w.
Proof.
  intros Hsid Hl Hbusy.
  unfold ChatManager.continueConversation, with_session. rewrite Hsid, Hl.
  destruct Hbusy as [-> | ->]; [reflexivity|].
  destruct (isProcessing s); reflexivity.
Qed.

(** C1.  After the text stream of a turn has failed, the turn is still
    running (it waits for the speech connection, and will announce its text
    and set the waiting flag when resumed), but both flags of the session
    are off.  A user message that arrives then is not dropped: it starts a
    second evaluation, and two calls of [continueConversation] are in
    flight for the same session. *)
Theorem C1_trigger_during_failed_turn_not_dropped :
  let busy := run broken_stream (init true) in
  let after := step (ProcessUserMessage "s1" "hello?") busy in
  in_flight 0 busy = 1
  /\ (isProcessing <$> heap busy !! 0) = Some false
  /\ (waitingForAudioComplete <$> heap busy !! 0) = Some false
  /\ in_flight 0 after = 2
  /\ tasks after
     = [ OpeningTts 0 "s1" alice (mkDecision "Alice_Coach" None false) "Hel"
                    "aura-2-thalia-en";
         Deciding 0 "s1" (Some 0) ].
Proof. vm_compute. repeat split; reflexivity. Qed.

(** ** The end of the conversation *)

(** A decision whose speaker is [end] names no agent of the roster: the
    controller takes the branch of the unknown agent and returns. *)
Lemma end_decision_takes_unknown_agent_branch w l sid session d :
  heap w !! l = Some session ->
  speaker d = "end" ->
  Forall (fun a => agent_id a <> "end") (agents session) ->
  ChatManager.after_decision l sid d w
  = update_session l (set_isProcessing false) w.
Proof.
  intros Hl Hd Hroster. unfold ChatManager.after_decision, with_session.
  rewrite Hl, Hd. simpl.
  replace (List.find _ (agents session)) with (@None Agent); [reflexivity|].
  symmetry. induction Hroster as [|a ags Ha _ IH]; simpl; [reflexivity|].
  apply String.eqb_neq in Ha. rewrite Ha. exact IH.
Qed.

(** C3.  The provider answers [END:] to the first decision of a session.
    The orchestrator returns the decision speaker [end]; the controller
    emits nothing at all (no [conversation_ended] reaches the sink), turns
    [isProcessing] off and returns: the session is idle as before. *)
Theorem C3_end_decision_not_announced :
  let w := run (opening (Some "END:")) (init true) in
  Orchestrator.decideAndGenerateResponse [alice; bob]
    (ConversationMemory.getMessages "s1" (memory w))
    (ConversationMemory.getMessages "s1" (memory w)) (Some "END:")
  = mkDecision "end" None false
  /\ emitted w = []
  /\ tasks w = []
  /\ heap w = [ mkSession [alice; bob] "standup" "Mahesh" "dev" 7
                          false false JUndefined ].
Proof. vm_compute. repeat split; reflexivity. Qed.

(** The sibling path: when the end marker comes behind an agent's text, the
    same function does send [conversation_ended] and releases the
    session. *)
Lemma end_marker_after_text_is_announced :
  let w :=
    run (opening (Some ("AGENT:Alice_Coach" +:+ String nl "Thanks everyone"
                        +:+ String nl "END:")))
        (init false) in
  emitted w
  = [ mkEmission 7 onStreamChunk (ai_thinking "AI is thinking...");
      mkEmission 7 onStreamChunk
                 (ai_response_start "Alice_Coach" "Alice (Coach)" "female");
      mkEmission 7 onStreamChunk
                 (ai_response_chunk "Alice_Coach" "Thanks everyone");
      mkEmission 7 onStreamComplete
                 (ai_response_end "Alice_Coach" "Thanks everyone" "Alice (Coach)");
      mkEmission 7 onStreamComplete
                 (conversation_ended "Conversation ended gracefully") ]
  /\ heap w = [ mkSession [alice; bob] "standup" "Mahesh" "dev" 7
                          false false JNull ].
Proof. vm_compute. split; reflexivity. Qed.

(** ** Deleting a session *)





(** ** One evaluation at a time, while no text stream fails *)


Lemma count_app l a b : count l (a ++ b) = count l a + count l b.
Proof. unfold count. rewrite List.filter_app, length_app. reflexivity. Qed.

Lemma count_delete l ts :
  forall k t,
    ts !! k = Some t ->
    count l ts = count l (delete k ts) + (if evaluating l t then 1 else 0).
Proof.
  induction ts as [|x ts IH]; intros k t Hk; [discriminate|].
  destruct k as [|k]; simpl in Hk.
  - injection Hk as ->. unfold count; simpl.
    destruct (evaluating l t); simpl; lia.
  - specialize (IH k t Hk). unfold count in *; simpl.
    destruct (evaluating l x); simpl; lia.
Qed.

Lemma count_insert l ts :
  forall k t t',
    ts !! k = Some t ->
    evaluating l t' = evaluating l t ->
    count l (<[k := t']> ts) = count l ts.
Proof.
  induction ts as [|x ts IH]; intros k t t' Hk He; [discriminate|].
  destruct k as [|k]; simpl in Hk.
  - injection Hk as ->. unfold count; simpl. rewrite He.
    destruct (evaluating l t); reflexivity.
  - specialize (IH k t t' Hk He). unfold count in *; simpl.
    destruct (evaluating l x); simpl; lia.
Qed.

Lemma flags_ok_in_flight n s :
  flags_ok n s -> 1 <= n ->
  n = 1 /\ exists s', s = Some s' /\ isProcessing s' = true
                      /\ waitingForAudioComplete s' = false.
Proof. intros [-> | H] Hn; [lia | exact H]. Qed.

Lemma settle w w' k t l s :
  one_at_a_time w ->
  tasks w !! k = Some t ->
  evaluation_of l t ->
  heap w !! l = Some s ->
  outcome l s (heap w) (delete k (tasks w)) w' ->
  one_at_a_time w'.
Proof.
  intros HJ Hk Ht Hl (Hother & s' & extra & Hl' & Htasks & Hextra & Hmine) l'.
  unfold in_flight. rewrite Htasks, count_app.
  pose proof (count_delete l' (tasks w) k t Hk) as Hc. rewrite Ht in Hc.
  specialize (HJ l'). unfold in_flight in HJ.
  destruct (Nat.eqb_spec l' l) as [-> | Hne].
  - apply flags_ok_in_flight in HJ as (H1 & s0 & Hs0 & Hp & Hw); [|lia].
    rewrite Hl in Hs0. injection Hs0 as <-.
    destruct Hmine as [H0 | (H1' & Hflags)].
    + left. lia.
    + right. split; [lia|]. exists s'. destruct (Hflags Hp Hw). auto.
  - rewrite (Hother l' Hne), (Hextra l' Hne).
    replace (count l' (delete k (tasks w)) + 0) with (count l' (tasks w)) by lia.
    exact HJ.
Qed.

(** A world that differs from [w] in neither session objects nor
    evaluations. *)
Lemma same_flights w w' :
  one_at_a_time w ->
  heap w' = heap w ->
  (forall l, in_flight l w' = in_flight l w) ->
  one_at_a_time w'.
Proof. intros HJ Hh Hc l. rewrite Hh, Hc. apply HJ. Qed.

Lemma outcome_finish w l s agent d full h0 t0 :
  heap w !! l = Some s -> heap w = h0 -> tasks w = t0 ->
  outcome l s h0 t0 (ChatManager.finish l agent d full w).
Proof.
  intros Hl <- <-. unfold ChatManager.finish, with_session. rewrite Hl.
  destruct (String.eqb (speaker d) "end" || shouldEnd d); unfold_procs.
  - split.
    + intros l' Hne. rewrite !list_lookup_alter_ne by congruence. reflexivity.
    + eexists _, []. rewrite !list_lookup_alter_eq, Hl, app_nil_r. simpl.
      repeat split; auto.
  - split.
    + intros l' Hne. rewrite !list_lookup_alter_ne by congruence. reflexivity.
    + eexists _, []. rewrite !list_lookup_alter_eq, Hl, app_nil_r. simpl.
      repeat split; auto.
Qed.

Lemma outcome_spawn w l s t h0 t0 :
  heap w !! l = Some s -> heap w = h0 -> tasks w = t0 ->
  evaluation_of l t ->
  outcome l s h0 t0 (spawn t w).
Proof.
  intros Hl <- <- Ht. unfold_procs. split; [reflexivity|].
  exists s, [t]. repeat split; auto.
  - intros l' Hne. unfold count; simpl. rewrite Ht.
    destruct (Nat.eqb_spec l' l); [contradiction | reflexivity].
  - right. unfold count; simpl. rewrite Ht, Nat.eqb_refl. auto.
Qed.

Lemma outcome_after_text w l s sid agent d full h0 t0 :
  heap w !! l = Some s -> heap w = h0 -> tasks w = t0 ->
  outcome l s h0 t0 (ChatManager.after_text l sid agent d full w).
Proof.
  intros Hl Hh Ht. unfold ChatManager.after_text, with_session. rewrite Hl.
  unfold seq, TTSService.streamTextToSpeech.
  destruct (negb (Js.truthy full) || negb (Js.truthy (Js.trim full)));
    [|destruct (deepgram _)]; simpl.
  - apply outcome_finish; assumption.
  - apply outcome_spawn; try assumption. intros l'. reflexivity.
  - apply outcome_finish; assumption.
Qed.

Lemma outcome_update w l s f h0 t0 :
  heap w !! l = Some s -> heap w = h0 -> tasks w = t0 ->
  outcome l s h0 t0 (update_session l f w).
Proof.
  intros Hl <- <-. unfold_procs. split.
  - intros l' Hne. rewrite list_lookup_alter_ne by congruence. reflexivity.
  - exists (f s), []. rewrite list_lookup_alter_eq, Hl, app_nil_r.
    repeat split; auto.
Qed.

Lemma outcome_after_decision w l s sid d h0 t0 :
  heap w !! l = Some s -> heap w = h0 -> tasks w = t0 ->
  outcome l s h0 t0 (ChatManager.after_decision l sid d w).
Proof.
  intros Hl Hh Ht. unfold ChatManager.after_decision, with_session. rewrite Hl.
  destruct (String.eqb (speaker d) "user").
  { unfold seq. apply (outcome_update w l s _ h0 t0 Hl Hh Ht). }
  destruct (List.find _ (agents s)) as [agent|].
  2: { apply outcome_update; assumption. }
  assert (forall w1, heap w1 = heap w -> tasks w1 = tasks w ->
            outcome l s h0 t0
              (spawn (Streaming l sid agent d "" "") w1)) as Hstream.
  { intros w1 H1 H2. apply outcome_spawn; try congruence.
    intros l'. reflexivity. }
  destruct (response d) as [r|]; [|apply Hstream; reflexivity].
  destruct (Js.truthy r && negb (String.eqb (Js.trim r) ""));
    [|apply Hstream; reflexivity].
  unfold seq. apply outcome_after_text; assumption.
Qed.

Lemma outcome_caught w l s m h0 t0 :
  heap w !! l = Some s -> heap w = h0 -> tasks w = t0 ->
  outcome l s h0 t0 (ChatManager.caught l m w).
Proof.
  intros Hl Hh Ht. unfold ChatManager.caught, with_session. rewrite Hl.
  unfold seq. apply (outcome_update w l s _ h0 t0 Hl Hh Ht).
Qed.

Lemma outcome_more w' l s h0 t0 t :
  (forall l', evaluating l' t = false) ->
  outcome l s h0 (t0 ++ [t]) w' ->
  outcome l s h0 t0 w'.
Proof.
  intros Ht (Hother & s' & extra & Hl' & Htasks & Hextra & Hmine).
  split; [exact Hother|]. exists s', (t :: extra).
  assert (forall l', count l' (t :: extra) = count l' extra) as Hc.
  { intros l'. unfold count; simpl. rewrite Ht. reflexivity. }
  split; [exact Hl'|]. split; [rewrite Htasks, <- app_assoc; reflexivity|].
  split; [intros l' Hne; rewrite Hc; auto|]. rewrite Hc. exact Hmine.
Qed.

Lemma in_flight_of_task w k t l :
  tasks w !! k = Some t -> evaluation_of l t -> 1 <= in_flight l w.
Proof.
  intros Hk Ht. unfold in_flight.
  rewrite (count_delete l (tasks w) k t Hk), Ht, Nat.eqb_refl. lia.
Qed.

Lemma session_of_task w k t l :
  one_at_a_time w -> tasks w !! k = Some t -> evaluation_of l t ->
  exists s, heap w !! l = Some s.
Proof.
  intros HJ Hk Ht. pose proof (in_flight_of_task w k t l Hk Ht) as H1.
  destruct (flags_ok_in_flight _ _ (HJ l) H1) as (_ & s & Hs & _).
  exists s. exact Hs.
Qed.

(** Dropping or replacing a task that is no evaluation changes nothing. *)
Lemma oaat_drop_other w k t :
  one_at_a_time w -> tasks w !! k = Some t ->
  (forall l, evaluating l t = false) ->
  one_at_a_time (drop_task k w).
Proof.
  intros HJ Hk Ht. apply (same_flights w); [exact HJ | reflexivity|].
  intros l. unfold in_flight; simpl.
  rewrite (count_delete l (tasks w) k t Hk), Ht. lia.
Qed.

Lemma oaat_put_same w w1 k t t' :
  one_at_a_time w -> tasks w !! k = Some t ->
  (forall l, evaluating l t' = evaluating l t) ->
  heap w1 = heap w -> tasks w1 = tasks w ->
  one_at_a_time (put_task k t' w1).
Proof.
  intros HJ Hk Ht Hh Hts. apply (same_flights w); [exact HJ | exact Hh|].
  intros l. unfold in_flight; simpl. rewrite Hts.
  apply (count_insert l (tasks w) k t t' Hk (Ht l)).
Qed.

Lemma oaat_continueConversation w sid :
  one_at_a_time w -> one_at_a_time (ChatManager.continueConversation sid w).
Proof.
  intros HJ. unfold ChatManager.continueConversation.
  destruct (sessions w !! sid) as [l|]; [|exact HJ].
  unfold with_session. destruct (heap w !! l) as [s|] eqn:Hl; [|exact HJ].
  destruct (isProcessing s) eqn:Hp; [exact HJ|].
  destruct (waitingForAudioComplete s) eqn:Hw; [exact HJ|].
  assert (in_flight l w = 0) as H0.
  { destruct (HJ l) as [H | (_ & s' & Hs' & Hp' & _)]; [exact H|].
    rewrite Hl in Hs'. injection Hs' as <-. congruence. }
  intros l'. unfold in_flight. unfold_procs. rewrite count_app.
  destruct (Nat.eqb_spec l' l) as [-> | Hne].
  - right. unfold in_flight in H0. rewrite H0.
    unfold count at 1; simpl. rewrite Nat.eqb_refl. split; [reflexivity|].
    rewrite list_lookup_alter_eq, Hl. simpl. eexists. repeat split. exact Hw.
  - rewrite list_lookup_alter_ne by congruence.
    unfold count at 2; simpl.
    destruct (Nat.eqb_spec l' l); [contradiction|]. simpl.
    rewrite Nat.add_0_r. apply HJ.
Qed.

Lemma oaat_onAudioPlaybackComplete w sid a :
  one_at_a_time w ->
  one_at_a_time (ChatManager.onAudioPlaybackComplete sid a w).
Proof.
  intros HJ. unfold ChatManager.onAudioPlaybackComplete.
  destruct (sessions w !! sid) as [l|]; [|exact HJ].
  unfold with_session. destruct (heap w !! l) as [s|] eqn:Hl; [|exact HJ].
  destruct (waitingForAudioComplete s) eqn:Hw; [|exact HJ].
  destruct (strict_eq (currentSpeakingAgentId s) a); [|exact HJ]. simpl.
  assert (in_flight l w = 0) as H0.
  { destruct (HJ l) as [H | (_ & s' & Hs' & _ & Hw')]; [exact H|].
    rewrite Hl in Hs'. injection Hs' as <-. congruence. }
  intros l'. unfold in_flight. unfold_procs. rewrite count_app.
  unfold count at 2; simpl. rewrite Nat.add_0_r.
  destruct (Nat.eqb_spec l' l) as [-> | Hne].
  - left. exact H0.
  - rewrite list_lookup_alter_ne by congruence. apply HJ.
Qed.

Lemma oaat_processUserMessage w sid m :
  one_at_a_time w -> one_at_a_time (ChatManager.processUserMessage sid m w).
Proof.
  intros HJ. unfold ChatManager.processUserMessage.
  destruct (sessions w !! sid) as [l|]; [|exact HJ].
  unfold with_session. destruct (heap w !! l) as [s|]; [|exact HJ].
  unfold seq. apply oaat_continueConversation.
  apply (same_flights w); [exact HJ | reflexivity | reflexivity].
Qed.

Lemma oaat_createSession w sid sc un ur sk :
  one_at_a_time w -> one_at_a_time (ChatManager.createSession sid sc un ur sk w).
Proof.
  intros HJ. unfold ChatManager.createSession.
  destruct (negb (Js.truthy sc) || negb (Js.truthy un) || negb (Js.truthy ur));
    [exact HJ|].
  apply (same_flights w); [exact HJ | reflexivity|].
  intros l. unfold in_flight. unfold_procs. rewrite count_app.
  unfold count at 2; simpl. lia.
Qed.

Lemma oaat_createSession_generated w sid sc un ur sk res :
  one_at_a_time w ->
  one_at_a_time (ChatManager.createSession_generated sid sc un ur sk res w).
Proof.
  intros HJ. unfold ChatManager.createSession_generated.
  destruct res as [m | [|a ags]]; try exact HJ.
  intros l. unfold in_flight, store_session. unfold_procs. rewrite count_app.
  unfold count at 2; simpl. rewrite Nat.add_0_r.
  destruct (HJ l) as [H0 | (H1 & s' & Hs' & Hflags)].
  - left. exact H0.
  - right. split; [exact H1|]. exists s'. split; [|exact Hflags].
    rewrite lookup_app_l; [exact Hs'|]. apply (lookup_lt_Some _ _ _ Hs').
Qed.

Lemma oaat_resume w k r :
  calm (Resume k r) = true ->
  one_at_a_time w -> one_at_a_time (resume k r w).
Proof.
  intros Hcalm HJ. unfold resume.
  destruct (tasks w !! k) as [t|] eqn:Hk; [|destruct r; exact HJ].
  destruct t, r; try exact HJ; try discriminate Hcalm.
  - (* Timer, Fired *)
    unfold seq. apply oaat_continueConversation.
    apply (oaat_drop_other w k _ HJ Hk). reflexivity.
  - (* Generating, Generated *)
    unfold seq. apply oaat_createSession_generated.
    apply (oaat_drop_other w k _ HJ Hk). reflexivity.
  - (* Deciding, Answered *)
    destruct (session_of_task w k _ session HJ Hk) as [s Hl];
      [intros l'; reflexivity|].
    apply (settle w _ k _ session s HJ Hk); [intros l'; reflexivity | exact Hl|].
    unfold seq, with_session. simpl. rewrite Hl.
    apply outcome_after_decision; [exact Hl | reflexivity | reflexivity].
  - (* Deciding, Rejected *)
    destruct (session_of_task w k _ session HJ Hk) as [s Hl];
      [intros l'; reflexivity|].
    apply (settle w _ k _ session s HJ Hk); [intros l'; reflexivity | exact Hl|].
    unfold seq. apply outcome_caught; [exact Hl | reflexivity | reflexivity].
  - (* Streaming, Rejected *)
    destruct (session_of_task w k _ session HJ Hk) as [s Hl];
      [intros l'; reflexivity|].
    apply (settle w _ k _ session s HJ Hk); [intros l'; reflexivity | exact Hl|].
    unfold seq. apply outcome_caught; [exact Hl | reflexivity | reflexivity].
  - (* Streaming, Chunk *)
    unfold with_session. destruct (heap w !! session) as [s|]; [|exact HJ].
    unfold OpenAIService.on_chunk. destruct (Js.truthy content0); simpl.
    + apply (oaat_put_same w _ k _ _ HJ Hk); reflexivity.
    + apply (oaat_put_same w _ k _ _ HJ Hk); reflexivity.
  - (* Streaming, StreamEnd *)
    destruct (session_of_task w k _ session HJ Hk) as [s Hl];
      [intros l'; reflexivity|].
    apply (settle w _ k _ session s HJ Hk); [intros l'; reflexivity | exact Hl|].
    simpl. unfold seq.
    apply outcome_after_text; [exact Hl | reflexivity | reflexivity].
  - (* OpeningTts, TtsOpen *)
    destruct (session_of_task w k _ session HJ Hk) as [s Hl];
      [intros l'; reflexivity|].
    apply (settle w _ k _ session s HJ Hk); [intros l'; reflexivity | exact Hl|].
    unfold seq.
    eapply outcome_more; [|apply outcome_finish; [exact Hl | reflexivity | reflexivity]].
    reflexivity.
  - (* OpeningTts, TtsOpenError *)
    destruct (session_of_task w k _ session HJ Hk) as [s Hl];
      [intros l'; reflexivity|].
    apply (settle w _ k _ session s HJ Hk); [intros l'; reflexivity | exact Hl|].
    simpl. unfold seq.
    apply outcome_finish; [exact Hl | reflexivity | reflexivity].
  - (* OpeningTts, TtsOpenTimeout *)
    destruct (session_of_task w k _ session HJ Hk) as [s Hl];
      [intros l'; reflexivity|].
    apply (settle w _ k _ session s HJ Hk); [intros l'; reflexivity | exact Hl|].
    simpl. unfold seq.
    apply outcome_finish; [exact Hl | reflexivity | reflexivity].
  - (* Speaking, TtsAudio *)
    unfold with_session. destruct (heap w !! session) as [s|]; [|exact HJ].
    unfold TTSService.on_audio, ChatManager.onAudioChunk.
    destruct (firstAudioChunk closure); [destruct (ttsFirstAudioSent closure)|];
      simpl; apply (oaat_put_same w _ k _ _ HJ Hk); reflexivity.
  - (* Speaking, TtsFlushed *)
    unfold with_session. destruct (heap w !! session) as [s|]; [|exact HJ].
    unfold TTSService.on_flushed.
    destruct (TTSService.flushed connection); simpl;
      apply (oaat_put_same w _ k _ _ HJ Hk); reflexivity.
  - (* Speaking, TtsTimeout *)
    unfold with_session. destruct (heap w !! session) as [s|]; [|exact HJ].
    unfold TTSService.on_timeout.
    destruct (TTSService.flushed connection); simpl.
    + apply (oaat_drop_other w k _ HJ Hk). reflexivity.
    + apply (same_flights (drop_task k w));
        [apply (oaat_drop_other w k _ HJ Hk); reflexivity | reflexivity | reflexivity].
Qed.

Lemma oaat_step w i :
  calm i = true -> one_at_a_time w -> one_at_a_time (step i w).
Proof.
  intros Hcalm HJ. destruct i; simpl.
  - apply oaat_createSession, HJ.
  - apply oaat_processUserMessage, HJ.
  - apply oaat_onAudioPlaybackComplete, HJ.
  - apply (same_flights w); [exact HJ | reflexivity | reflexivity].
  - apply oaat_resume; assumption.
Qed.

Lemma oaat_run inputs :
  forall w,
    forallb calm inputs = true -> one_at_a_time w ->
    one_at_a_time (run inputs w).
Proof.
  induction inputs as [|i inputs IH]; intros w Hcalm HJ; simpl; [exact HJ|].
  simpl in Hcalm. apply andb_true_iff in Hcalm as [Hi Hrest].
  apply IH; [exact Hrest|]. apply oaat_step; assumption.
Qed.

(** In every run in which no text stream fails, at most one call of
    [continueConversation] is in flight for a session object at any time,
    and while one is, the object has [isProcessing] on and
    [waitingForAudioComplete] off. *)
Theorem one_evaluation_while_no_stream_fails :
  forall deepgram inputs l,
    forallb calm inputs = true ->
    let w := run inputs (init deepgram) in
    in_flight l w <= 1
    /\ (in_flight l w = 1 ->
        exists s, heap w !! l = Some s /\ isProcessing s = true
                  /\ waitingForAudioComplete s = false).
Proof.
  intros dg inputs l Hcalm w.
  assert (one_at_a_time w) as HJ.
  { apply oaat_run; [exact Hcalm|]. intros l'. left. reflexivity. }
  destruct (HJ l) as [H0 | (H1 & Hs)].
  - split; [lia|]. intros H. lia.
  - split; [lia|]. intros _. exact Hs.
Qed.

(** ** More on the fallback decision *)

Lemma findIndex_from_none {A} (p : A -> bool) (l : list A) :
  forall z, (forall a, In a l -> p a = false) ->
            Orchestrator.findIndex_from p z l = (-1)%Z.
Proof.
  induction l as [|x l IH]; intros z Hall; simpl; [reflexivity|].
  rewrite (Hall x (or_introl eq_refl)). apply IH.
  intros a Ha. apply Hall. right. exact Ha.
Qed.

(** Either nothing in the list satisfies [p], or there is a first place
    that does. *)
Lemma first_place {A} (p : A -> bool) (l : list A) :
  (forall a, In a l -> p a = false)
  \/ exists i a, l !! i = Some a /\ p a = true
                 /\ forall j b, j < i -> l !! j = Some b -> p b = false.
Proof.
  induction l as [|x l IH]; [left; intros a []|].
  destruct (p x) eqn:Hx.
  - right. exists 0, x. repeat split; [exact Hx|]. intros j b Hj. lia.
  - destruct IH as [Hnone | (i & a & Hi & Ha & Hfirst)].
    + left. intros a [<- | Ha]; [exact Hx | apply Hnone, Ha].
    + right. exists (S i), a. repeat split; [exact Hi | exact Ha|].
      intros [|j] b Hj Hb; simpl in Hb.
      * injection Hb as <-. exact Hx.
      * apply (Hfirst j b); [lia | exact Hb].
Qed.

Lemma fallback_silent first rest history :
  Orchestrator.lastAgentId history = None ->
  Orchestrator.fallbackDecision (first :: rest) history
  = mkDecision (agent_id first) None false.
Proof. intros H. unfold Orchestrator.fallbackDecision. rewrite H. reflexivity. Qed.

Lemma lastAgentId_truthy history x :
  Orchestrator.lastAgentId history = Some x -> Js.truthy x = true.
Proof.
  unfold Orchestrator.lastAgentId.
  destruct (List.find _ _) as [m|] eqn:E; [|discriminate].
  apply find_some in E as [_ Hm]. unfold Orchestrator.is_agent_entry in Hm.
  destruct (role m); try discriminate.
  destruct (aiId m) as [y|]; [|discriminate]. intros [= ->]. exact Hm.
Qed.

Lemma fallback_unknown first rest history x :
  Orchestrator.lastAgentId history = Some x ->
  (forall a, In a (first :: rest) -> agent_id a <> x) ->
  Orchestrator.fallbackDecision (first :: rest) history
  = mkDecision (agent_id first) None false.
Proof.
  intros Hlast Hnone. unfold Orchestrator.fallbackDecision.
  rewrite Hlast, (lastAgentId_truthy history x Hlast).
  unfold Orchestrator.findIndex. rewrite findIndex_from_none.
  - change (-1 + 1)%Z with 0%Z.
    rewrite Z.rem_0_l by (simpl length; lia). reflexivity.
  - intros a Ha. apply String.eqb_neq. apply Hnone, Ha.
Qed.

Lemma fallback_known agents first history x i a :
  Orchestrator.lastAgentId history = Some x ->
  agents !! i = Some a -> agent_id a = x ->
  (forall j b, j < i -> agents !! j = Some b -> agent_id b <> x) ->
  Orchestrator.fallbackDecision agents history
  = mkDecision (agent_id (nth ((i + 1) mod length agents) agents first))
               None false.
Proof.
  intros Hlast Hi Ha Hfirst. unfold Orchestrator.fallbackDecision.
  destruct agents as [|first' rest] eqn:Hagents; [discriminate|].
  rewrite <- Hagents in *.
  rewrite Hlast, (lastAgentId_truthy history x Hlast).
  unfold Orchestrator.findIndex.
  rewrite (findIndex_from_first _ agents i 0%Z a Hi).
  - assert (length agents <> 0) as Hlen by (rewrite Hagents; discriminate).
    rewrite Z.add_0_l, Z.rem_mod_nonneg by lia.
    replace (Z.of_nat i + 1)%Z with (Z.of_nat (i + 1)) by lia.
    rewrite <- Nat2Z.inj_mod, Nat2Z.id.
    assert ((i + 1) mod length agents < length agents) as Hlt
      by (apply Nat.mod_upper_bound; exact Hlen).
    destruct (lookup_lt_is_Some_2 agents _ Hlt) as [b Hb].
    rewrite (nth_lookup_Some _ _ first' b Hb), (nth_lookup_Some _ _ first b Hb).
    reflexivity.
  - rewrite Ha. apply String.eqb_refl.
  - intros j b Hj Hb. apply String.eqb_neq. apply (Hfirst j b Hj Hb).
Qed.

(** The fallback always has an answer: the user's turn for an empty roster,
    and for any other roster a member of it, without text, whatever the
    log holds (no agent utterance, an utterance of an agent of the roster,
    or of one the roster does not know). *)
Theorem fallback_names_a_roster_member :
  forall (agents : list Agent) (history : list Message),
    (agents = [] ->
     Orchestrator.fallbackDecision agents history = mkDecision "user" None false)
    /\
    (agents <> [] ->
     exists a, In a agents
               /\ Orchestrator.fallbackDecision agents history
                  = mkDecision (agent_id a) None false).
Proof.
  intros agents history. split; [intros ->; reflexivity|].
  intros Hne. destruct agents as [|first rest]; [contradiction|].
  destruct (Orchestrator.lastAgentId history) as [x|] eqn:Hlast.
  - destruct (first_place (fun a => String.eqb (agent_id a) x) (first :: rest))
      as [Hnone | (i & a & Hi & Ha & Hfirst)].
    + exists first. split; [left; reflexivity|].
      apply (fallback_unknown first rest history x Hlast).
      intros a Ha. apply String.eqb_neq. apply Hnone, Ha.
    + apply String.eqb_eq in Ha.
      exists (nth ((i + 1) mod length (first :: rest)) (first :: rest) first).
      split.
      * apply nth_In. apply Nat.mod_upper_bound. discriminate.
      * apply (fallback_known (first :: rest) first history x i a Hlast Hi Ha).
        intros j b Hj Hb. apply String.eqb_neq. apply (Hfirst j b Hj Hb).
  - exists first. split; [left; reflexivity|].
    apply fallback_silent, Hlast.
Qed.

(** When the most recent agent utterance of the log is by an agent the
    roster does not hold, the fallback starts over from the first roster
    entry. *)
Theorem fallback_restarts_after_unknown_speaker :
  forall first rest before m after x,
    agent_utterance m x ->
    Forall (fun m' => forall y, ~ agent_utterance m' y) after ->
    (forall a, In a (first :: rest) -> agent_id a <> x) ->
    Orchestrator.fallbackDecision (first :: rest) (before ++ m :: after)
    = mkDecision (agent_id first) None false.
Proof.
  intros first rest before m after x Hm Hafter Hnone.
  apply (fallback_unknown first rest _ x); [|exact Hnone].
  apply lastAgentId_most_recent; assumption.
Qed.

(** With at least two agents, all of different ids, the fallback never
    gives the floor back to the agent who spoke last. *)
Theorem fallback_never_repeats_last_speaker :
  forall agents before m after x,
    agent_utterance m x ->
    Forall (fun m' => forall y, ~ agent_utterance m' y) after ->
    NoDup (List.map agent_id agents) ->
    2 <= length agents ->
    speaker (Orchestrator.fallbackDecision agents (before ++ m :: after)) <> x.
Proof.
  intros agents before m after x Hm Hafter Hdistinct Hlen.
  pose proof (lastAgentId_most_recent before m after x Hm Hafter) as Hlast.
  destruct agents as [|first rest]; [simpl in Hlen; lia|].
  destruct (first_place (fun a => String.eqb (agent_id a) x) (first :: rest))
    as [Hnone | (i & a & Hi & Ha & Hfirst)].
  - rewrite (fallback_unknown first rest _ x Hlast).
    + simpl. apply String.eqb_neq. apply Hnone. left. reflexivity.
    + intros a Ha. apply String.eqb_neq. apply Hnone, Ha.
  - apply String.eqb_eq in Ha.
    rewrite (fallback_known (first :: rest) first _ x i a Hlast Hi Ha).
    2: { intros j b Hj Hb. apply String.eqb_neq. apply (Hfirst j b Hj Hb). }
    cbn [speaker].
    set (n := length (first :: rest)) in *.
    assert ((i + 1) mod n < n) as Hlt by (apply Nat.mod_upper_bound; lia).
    destruct (lookup_lt_is_Some_2 (first :: rest) _ Hlt) as [b Hb].
    rewrite (nth_lookup_Some _ _ first b Hb).
    intros Hsame.
    assert ((i + 1) mod n = i) as Heq.
    { apply (NoDup_lookup (List.map agent_id (first :: rest)) _ _ x Hdistinct).
      - rewrite list_lookup_fmap_Some. exists b. split; [|exact Hb]. auto.
      - rewrite list_lookup_fmap_Some. exists a. split; [|exact Hi]. auto. }
    assert (i < n) as Hi' by apply (lookup_lt_Some _ _ _ Hi).
    destruct (Nat.eq_dec (i + 1) n) as [E | E].
    + rewrite E, Nat.Div0.mod_same in Heq. lia.
    + rewrite Nat.mod_small in Heq by lia. lia.
Qed.

(** ** What a decision can name *)

Lemma fallback_member agents history :
  speaker (Orchestrator.fallbackDecision agents history) = "user"
  \/ exists a, In a agents
               /\ agent_id a
                  = speaker (Orchestrator.fallbackDecision agents history).
Proof.
  destruct agents as [|first rest]; [left; reflexivity|]. right.
  destruct (Orchestrator.lastAgentId history) as [x|] eqn:Hlast.
  - destruct (first_place (fun a => String.eqb (agent_id a) x) (first :: rest))
      as [Hnone | (i & a & Hi & Ha & Hfirst)].
    + exists first. split; [left; reflexivity|].
      rewrite (fallback_unknown first rest history x Hlast); [reflexivity|].
      intros a Ha. apply String.eqb_neq. apply Hnone, Ha.
    + apply String.eqb_eq in Ha.
      exists (nth ((i + 1) mod length (first :: rest)) (first :: rest) first).
      split.
      * apply nth_In. apply Nat.mod_upper_bound. discriminate.
      * rewrite (fallback_known (first :: rest) first history x i a Hlast Hi Ha);
          [reflexivity|].
        intros j b Hj Hb. apply String.eqb_neq. apply (Hfirst j b Hj Hb).
  - exists first. split; [left; reflexivity|].
    rewrite (fallback_silent first rest history Hlast). reflexivity.
Qed.

Lemma scan_agents_member agents t d :
  Orchestrator.scan_agents agents t = Some d ->
  exists a, In a agents /\ agent_id a = speaker d.
Proof.
  induction agents as [|x agents IH]; simpl; [discriminate|].
  destruct (_ || _).
  - intros [= <-]. exists x. split; [left; reflexivity | reflexivity].
  - intros H. destruct (IH H) as (a & Ha & Hd). exists a. split; [right|]; auto.
Qed.

(** Unless it ends the conversation behind an agent's text ([shouldEnd]),
    a decision of the orchestrator names the end, the user, or an agent of
    the roster: an id the provider made up never gets through. *)
Theorem decision_names_end_user_or_roster_member :
  forall agents fullHistory reread upstream,
    shouldEnd (Orchestrator.decideAndGenerateResponse
                 agents fullHistory reread upstream) = false ->
    let d := Orchestrator.decideAndGenerateResponse
               agents fullHistory reread upstream in
    speaker d = "end" \/ speaker d = "user"
    \/ exists a, In a agents /\ agent_id a = speaker d.
Proof.
  intros agents fullHistory reread upstream Hend d. subst d.
  assert (forall h,
            speaker (Orchestrator.fallbackDecision agents h) = "end"
            \/ speaker (Orchestrator.fallbackDecision agents h) = "user"
            \/ exists a, In a agents
                 /\ agent_id a = speaker (Orchestrator.fallbackDecision agents h))
    as Hfb.
  { intros h. destruct (fallback_member agents h); auto. }
  destruct upstream as [r|]; [|apply Hfb].
  unfold Orchestrator.decideAndGenerateResponse, Orchestrator.parseResponse in *.
  destruct (Js.startsWith _ "END:" || String.eqb _ "END"); [left; reflexivity|].
  destruct (Orchestrator.userTurnPattern _); [right; left; reflexivity|].
  destruct (Orchestrator.is_user_token _); [right; left; reflexivity|].
  destruct (Orchestrator.agentMatch _) as [[g1 g2]|].
  - destruct (negb _ || Orchestrator.is_only_user_token _); [apply Hfb|].
    destruct (Js.includes _ "END:" || Js.includes _ _); [discriminate Hend|].
    destruct (existsb _ agents) eqn:Hvalid; [|apply Hfb].
    apply existsb_exists in Hvalid as (a & Ha & Heq).
    apply String.eqb_eq in Heq. right. right. exists a. auto.
  - destruct (Orchestrator.scan_agents agents _) as [d|] eqn:Hscan; [|apply Hfb].
    right. right. apply (scan_agents_member agents _ d Hscan).
Qed.

(** ** The user marker *)

Lemma user_marker_any_case t :
  Js.toUpperCase t = "USER" \/ Js.toUpperCase t = "USER:" ->
  Js.startsWith t "END:" || String.eqb t "END" = false
  /\ Orchestrator.userTurnPattern t = true.
Proof.
  unfold Js.toUpperCase.
  assert (forall c, Js.upper c = "U"%char -> Ascii.eqb "E" c = false) as HE.
  { intros c Hc. destruct (Ascii.eqb_spec "E" c) as [<- | _]; [|reflexivity].
    vm_compute in Hc. discriminate. }
  intros [H | H];
    destruct t as [|c1 [|c2 [|c3 [|c4 t]]]]; try discriminate H;
    cbn [Js.map_chars] in H; injection H as H1 H2 H3 H4 H5.
  - destruct t; [|discriminate H5]. split.
    + unfold Js.startsWith. cbn [Js.strip_prefix]. rewrite (HE c1 H1).
      cbn [String.eqb]. rewrite Ascii.eqb_sym, (HE c1 H1). reflexivity.
    + unfold Orchestrator.userTurnPattern. cbn [Js.strip_prefix_ci].
      rewrite H1, H2, H3, H4. reflexivity.
  - destruct t as [|c5 [|c6 t]]; try discriminate H5.
    cbn [Js.map_chars] in H5. injection H5 as H5.
    assert (c5 = ":"%char) as ->.
    { destruct c5 as [[] [] [] [] [] [] [] []]; vm_compute in H5;
        try discriminate H5; reflexivity. }
    split.
    + unfold Js.startsWith. cbn [Js.strip_prefix]. rewrite (HE c1 H1).
      cbn [String.eqb]. rewrite Ascii.eqb_sym, (HE c1 H1). reflexivity.
    + unfold Orchestrator.userTurnPattern. cbn [Js.strip_prefix_ci].
      rewrite H1, H2, H3, H4. reflexivity.
Qed.

(** A response that, once trimmed, reads USER or USER: in any mix of upper
    and lower case is the user's turn, for every roster and log. *)
Theorem user_marker_in_any_case_is_user_turn :
  forall agents fullHistory reread r,
    Js.toUpperCase (Js.trim r) = "USER"
    \/ Js.toUpperCase (Js.trim r) = "USER:" ->
    Orchestrator.decideAndGenerateResponse agents fullHistory reread (Some r)
    = mkDecision "user" None false.
Proof.
  intros agents fullHistory reread r H.
  destruct (user_marker_any_case (Js.trim r) H) as [Hend Huser].
  unfold Orchestrator.decideAndGenerateResponse, Orchestrator.parseResponse.
  rewrite Hend, Huser. reflexivity.
Qed.

(** ** The log store *)

Section Store.

Import ConversationMemory.

Lemma store_wf_empty : store_wf empty.
Proof. split; intros *; simpl; rewrite lookup_empty; discriminate. Qed.

Lemma getMessages_add_same m sid msg :
  store_wf m ->
  getMessages sid (add sid msg m) = getMessages sid m ++ [msg].
Proof.
  intros [Hin _]. unfold getMessages, add, deref.
  destruct (memories m !! sid) as [a|] eqn:Hsid; simpl.
  - rewrite lookup_insert_eq, list_lookup_alter_eq.
    destruct (lookup_lt_is_Some_2 (arrays m) a (Hin sid a Hsid)) as [ms ->].
    reflexivity.
  - rewrite lookup_insert_eq, lookup_app_r, Nat.sub_diag by lia. reflexivity.
Qed.

Lemma getMessages_add_other m sid sid' msg :
  store_wf m -> sid' <> sid ->
  getMessages sid' (add sid msg m) = getMessages sid' m.
Proof.
  intros [Hin Hinj] Hne. unfold getMessages, add, deref.
  destruct (memories m !! sid) as [a|] eqn:Hsid; simpl;
    rewrite lookup_insert_ne by congruence;
    destruct (memories m !! sid') as [a'|] eqn:Hsid'; try reflexivity.
  - rewrite list_lookup_alter_ne; [reflexivity|].
    intros <-. apply Hne. apply (Hinj sid' sid a Hsid' Hsid).
  - rewrite lookup_app_l by apply (Hin sid' a' Hsid'). reflexivity.
Qed.

Lemma store_wf_add m sid msg : store_wf m -> store_wf (add sid msg m).
Proof.
  intros [Hin Hinj]. unfold add.
  destruct (memories m !! sid) as [a|] eqn:Hsid; simpl.
  - rewrite insert_id by exact Hsid. split; simpl.
    + intros sid0 a0 H. rewrite length_alter. apply (Hin sid0 a0 H).
    + exact Hinj.
  - split; simpl.
    + intros sid0 a0. rewrite lookup_insert. case_decide.
      * intros [= <-]. rewrite length_app. simpl. lia.
      * intros H0. rewrite length_app. pose proof (Hin sid0 a0 H0). lia.
    + intros sid1 sid2 a. rewrite !lookup_insert.
      repeat case_decide; subst; try congruence.
      * intros [= <-] H2. pose proof (Hin sid2 _ H2). lia.
      * intros H1 [= <-]. pose proof (Hin sid1 _ H1). lia.
      * apply Hinj.
Qed.

Lemma getMessages_initialize_same m sid sc un ur :
  getMessages sid (initializeSession sid sc un ur m)
  = [mkMessage system (systemContent sc un ur) None].
Proof.
  unfold getMessages, initializeSession, deref; simpl.
  rewrite lookup_insert_eq, lookup_app_r, Nat.sub_diag by lia. reflexivity.
Qed.

Lemma getMessages_initialize_other m sid sid' sc un ur :
  store_wf m -> sid' <> sid ->
  getMessages sid' (initializeSession sid sc un ur m) = getMessages sid' m.
Proof.
  intros [Hin _] Hne. unfold getMessages, initializeSession, deref; simpl.
  rewrite lookup_insert_ne by congruence.
  destruct (memories m !! sid') as [a'|] eqn:Hsid'; [|reflexivity].
  rewrite lookup_app_l by apply (Hin sid' a' Hsid'). reflexivity.
Qed.

Lemma store_wf_initialize m sid sc un ur :
  store_wf m -> store_wf (initializeSession sid sc un ur m).
Proof.
  intros [Hin Hinj]. unfold initializeSession. split; simpl.
  - intros sid0 a0. rewrite lookup_insert. case_decide.
    + intros [= <-]. rewrite length_app. simpl. lia.
    + intros H0. rewrite length_app. pose proof (Hin sid0 a0 H0). lia.
  - intros sid1 sid2 a. rewrite !lookup_insert.
    repeat case_decide; subst; try congruence.
    + intros [= <-] H2. pose proof (Hin sid2 _ H2). lia.
    + intros H1 [= <-]. pose proof (Hin sid1 _ H1). lia.
    + apply Hinj.
Qed.

Lemma getMessages_clear_same m sid : getMessages sid (clearSession sid m) = [].
Proof.
  unfold getMessages, clearSession, deref; simpl.
  rewrite lookup_delete_eq. reflexivity.
Qed.

Lemma getMessages_clear_other m sid sid' :
  sid' <> sid -> getMessages sid' (clearSession sid m) = getMessages sid' m.
Proof.
  intros Hne. unfold getMessages, clearSession, deref; simpl.
  rewrite lookup_delete_ne by congruence. reflexivity.
Qed.

Lemma store_wf_clear m sid : store_wf m -> store_wf (clearSession sid m).
Proof.
  intros [Hin Hinj]. unfold clearSession. split; simpl.
  - intros sid0 a0. rewrite lookup_delete. case_decide; [discriminate|].
    apply Hin.
  - intros sid1 sid2 a. rewrite !lookup_delete.
    repeat case_decide; try discriminate. apply Hinj.
Qed.

(** Adding a message to a session appends exactly that entry to the end of
    its log (for a session the store does not know, the log starts with
    it), leaves the log of every other session as it was, and keeps the
    store well formed. *)
Theorem memory_add_appends_to_one_log :
  forall m sessionId content aiId,
    store_wf m ->
    getMessages sessionId (addUserMessage sessionId content m)
    = getMessages sessionId m ++ [mkMessage user content None]
    /\ getMessages sessionId (addAssistantMessage sessionId content aiId m)
       = getMessages sessionId m ++ [mkMessage assistant content (Some aiId)]
    /\ (forall other,
          other <> sessionId ->
          getMessages other (addUserMessage sessionId content m)
          = getMessages other m
          /\ getMessages other (addAssistantMessage sessionId content aiId m)
             = getMessages other m)
    /\ store_wf (addUserMessage sessionId content m)
    /\ store_wf (addAssistantMessage sessionId content aiId m).
Proof.
  intros m sid c a Hwf. unfold addUserMessage, addAssistantMessage.
  split; [apply getMessages_add_same, Hwf|].
  split; [apply getMessages_add_same, Hwf|].
  split; [|split; apply store_wf_add, Hwf].
  intros other Hne. split; apply getMessages_add_other; assumption.
Qed.

(** Initialising a session gives it a log of one entry, the system
    message, whatever log it had before; clearing it leaves it without a
    log ([getMessages] answers the empty list, [hasSession] answers no),
    and a message added afterwards starts a new log.  None of the three
    touches the log of another session. *)
Theorem memory_initialize_and_clear :
  forall m sessionId scenario userName userRole,
    store_wf m ->
    let initialized :=
      initializeSession sessionId scenario userName userRole m in
    let cleared := clearSession sessionId initialized in
    getMessages sessionId initialized
    = [mkMessage system (systemContent scenario userName userRole) None]
    /\ hasSession sessionId initialized = true
    /\ getMessages sessionId cleared = []
    /\ hasSession sessionId cleared = false
    /\ (forall content,
          getMessages sessionId (addUserMessage sessionId content cleared)
          = [mkMessage user content None])
    /\ (forall other,
          other <> sessionId ->
          getMessages other initialized = getMessages other m
          /\ getMessages other cleared = getMessages other m).
Proof.
  intros m sid sc un ur Hwf initialized cleared.
  assert (store_wf cleared) as Hc
    by (apply store_wf_clear, store_wf_initialize, Hwf).
  split; [apply getMessages_initialize_same|].
  split.
  { unfold hasSession, initialized, initializeSession; simpl.
    rewrite lookup_insert_eq. apply bool_decide_eq_true. eauto. }
  split; [apply getMessages_clear_same|].
  split.
  { unfold hasSession, cleared, clearSession; simpl.
    rewrite lookup_delete_eq. apply bool_decide_eq_false. intros [x Hx].
    discriminate. }
  split.
  { intros c. unfold addUserMessage.
    rewrite (getMessages_add_same cleared sid _ Hc).
    unfold cleared. rewrite getMessages_clear_same. reflexivity. }
  intros other Hne. unfold cleared.
  rewrite (getMessages_clear_other _ sid other Hne).
  split; apply (getMessages_initialize_other m sid other sc un ur Hwf Hne).
Qed.

End Store.

(** ** What the controller does to the logs *)

Section Logs.

(** A relation between the store before and after, kept by what the
    turn-taking code does to the store: nothing, or adding a message. *)
Variable R : relation ConversationMemory.Store.
Hypothesis R_refl : forall m, R m m.
Hypothesis R_trans : forall m1 m2 m3, R m1 m2 -> R m2 m3 -> R m1 m3.
Hypothesis R_add : forall m sid msg, R m (ConversationMemory.add sid msg m).

Lemma moving_same p : (forall w, memory (p w) = memory w) -> moving R p.
Proof. intros H w. rewrite H. apply R_refl. Qed.

Lemma moving_seq a b : moving R a -> moving R b -> moving R (a >> b).
Proof. intros Ha Hb w. eapply R_trans; [apply Ha | apply Hb]. Qed.

Lemma moving_skip : moving R skip.
Proof. apply moving_same; reflexivity. Qed.

Lemma moving_emit t v e : moving R (emit t v e).
Proof. apply moving_same; reflexivity. Qed.

Lemma moving_update_session l f : moving R (update_session l f).
Proof. apply moving_same; reflexivity. Qed.

Lemma moving_spawn t : moving R (spawn t).
Proof. apply moving_same; reflexivity. Qed.

Lemma moving_drop_task k : moving R (drop_task k).
Proof. apply moving_same; reflexivity. Qed.

Lemma moving_put_task k t : moving R (put_task k t).
Proof. apply moving_same; reflexivity. Qed.

Lemma moving_store_session sid s : moving R (store_session sid s).
Proof. apply moving_same; reflexivity. Qed.

Lemma moving_add sid msg : moving R (update_memory (ConversationMemory.add sid msg)).
Proof. intros w. apply R_add. Qed.

Lemma moving_with_session l k :
  (forall s, moving R (k s)) -> moving R (with_session l k).
Proof.
  intros Hk w. unfold with_session.
  destruct (heap w !! l); [apply Hk | apply R_refl].
Qed.

Create HintDb logs.

Local Hint Resolve moving_seq moving_skip moving_emit moving_update_session
  moving_spawn moving_drop_task moving_put_task moving_store_session
  moving_add moving_with_session : logs.

Lemma moving_finish l agent d full :
  moving R (ChatManager.finish l agent d full).
Proof.
  unfold ChatManager.finish. apply moving_with_session; intros s.
  destruct (String.eqb (speaker d) "end" || shouldEnd d); auto 10 with logs.
Qed.

Lemma moving_after_text l sid agent d full :
  moving R (ChatManager.after_text l sid agent d full).
Proof.
  unfold ChatManager.after_text. apply moving_with_session; intros s.
  apply moving_seq; [apply moving_add|].
  intros w. unfold TTSService.streamTextToSpeech.
  destruct (negb (Js.truthy full) || negb (Js.truthy (Js.trim full)));
    [|destruct (deepgram w)]; simpl.
  - apply (moving_finish l agent d full (emit _ _ _ w)).
  - apply R_refl.
  - apply moving_finish.
Qed.

Lemma moving_after_decision l sid d :
  moving R (ChatManager.after_decision l sid d).
Proof.
  unfold ChatManager.after_decision. apply moving_with_session; intros s.
  destruct (String.eqb (speaker d) "user"); [auto with logs|].
  destruct (List.find _ (agents s)); [|auto with logs].
  pose proof (moving_after_text l sid a d) as Hat.
  destruct (response d) as [r|]; [|auto 10 with logs].
  destruct (Js.truthy r && negb (String.eqb (Js.trim r) ""));
    auto 10 with logs.
Qed.

Lemma moving_caught l m : moving R (ChatManager.caught l m).
Proof. unfold ChatManager.caught. auto 10 with logs. Qed.

Lemma moving_continueConversation sid :
  moving R (ChatManager.continueConversation sid).
Proof.
  intros w. unfold ChatManager.continueConversation.
  destruct (sessions w !! sid) as [l|]; [|apply R_refl].
  unfold with_session. destruct (heap w !! l) as [s|]; [|apply R_refl].
  destruct (isProcessing s); [apply R_refl|].
  destruct (waitingForAudioComplete s); apply R_refl.
Qed.

Lemma moving_onAudioPlaybackComplete sid a :
  moving R (ChatManager.onAudioPlaybackComplete sid a).
Proof.
  intros w. unfold ChatManager.onAudioPlaybackComplete.
  destruct (sessions w !! sid) as [l|]; [|apply R_refl].
  revert w. apply moving_with_session; intros s.
  destruct (waitingForAudioComplete s && strict_eq _ a); auto 10 with logs.
Qed.

Lemma moving_processUserMessage sid m :
  moving R (ChatManager.processUserMessage sid m).
Proof.
  intros w. unfold ChatManager.processUserMessage.
  destruct (sessions w !! sid) as [l|]; [|apply R_refl].
  revert w. apply moving_with_session; intros s.
  pose proof (moving_continueConversation sid).
  unfold ConversationMemory.addUserMessage. auto 10 with logs.
Qed.

Lemma moving_createSession_generated sid sc un ur sk res :
  moving R (ChatManager.createSession_generated sid sc un ur sk res).
Proof.
  unfold ChatManager.createSession_generated.
  destruct res as [m|[|a ags]]; auto 10 with logs.
Qed.

Lemma moving_resume k r : moving R (resume k r).
Proof.
  intros w. unfold resume.
  destruct (tasks w !! k) as [t|]; [|destruct r; apply R_refl].
  destruct t, r; try apply R_refl.
  - (* Timer, Fired *)
    apply (moving_seq _ _ (moving_drop_task k)
             (moving_continueConversation sessionId)).
  - (* Generating, Generated *)
    apply (moving_seq _ _ (moving_drop_task k)
             (moving_createSession_generated _ _ _ _ _ _)).
  - (* Deciding, Answered *)
    apply (moving_seq _ _ (moving_drop_task k)).
    apply moving_with_session; intros s. apply moving_after_decision.
  - (* Deciding, Rejected *)
    apply (moving_seq _ _ (moving_drop_task k) (moving_caught _ _)).
  - (* Streaming, Rejected *)
    apply (moving_seq _ _ (moving_drop_task k) (moving_caught _ _)).
  - (* Streaming, Chunk *)
    revert w. apply moving_with_session; intros s w.
    unfold OpenAIService.on_chunk.
    destruct (Js.truthy content0); simpl; apply R_refl.
  - (* Streaming, StreamEnd *)
    simpl. apply (moving_seq _ _ (moving_drop_task k) (moving_after_text _ _ _ _ _)).
  - (* Streaming, StreamError *)
    revert w. apply moving_with_session; intros s w. simpl.
    apply (moving_seq _ _ (moving_seq _ _ (moving_seq _ _ (moving_emit _ _ _)
                                             (moving_update_session _ _))
                             (moving_drop_task k))
             (moving_after_text session sessionId agent decision fullResponse)).
  - (* OpeningTts, TtsOpen *)
    apply (moving_seq _ _ (moving_seq _ _ (moving_drop_task k) (moving_spawn _))
             (moving_finish _ _ _ _)).
  - (* OpeningTts, TtsOpenError *)
    simpl. apply (moving_seq _ _ (moving_drop_task k) (moving_finish _ _ _ _)).
  - (* OpeningTts, TtsOpenTimeout *)
    simpl. apply (moving_seq _ _ (moving_drop_task k) (moving_finish _ _ _ _)).
  - (* Speaking, TtsAudio *)
    revert w. apply moving_with_session; intros s w.
    unfold TTSService.on_audio, ChatManager.onAudioChunk.
    destruct (firstAudioChunk closure); simpl; [|apply R_refl].
    destruct (ttsFirstAudioSent closure); simpl; apply R_refl.
  - (* Speaking, TtsFlushed *)
    revert w. apply moving_with_session; intros s w.
    unfold TTSService.on_flushed.
    destruct (TTSService.flushed connection); simpl; apply R_refl.
  - (* Speaking, TtsTimeout *)
    revert w. apply moving_with_session; intros s w.
    unfold TTSService.on_timeout.
    destruct (TTSService.flushed connection); simpl; apply R_refl.
Qed.

End Logs.

Lemma keeps_wf_moving_step i : moving keeps_wf (step i).
Proof.
  destruct i; simpl.
  - intros w. unfold ChatManager.createSession.
    destruct (negb (Js.truthy scenario0) || negb (Js.truthy userName0)
              || negb (Js.truthy userRole0)); simpl; intros Hwf;
      [exact Hwf | apply store_wf_initialize, Hwf].
  - apply moving_processUserMessage; unfold keeps_wf; auto using store_wf_add.
  - apply moving_onAudioPlaybackComplete; unfold keeps_wf; auto using store_wf_add.
  - intros w Hwf. apply store_wf_clear, Hwf.
  - apply moving_resume; unfold keeps_wf; auto using store_wf_add.
Qed.

Lemma grows_refl sid m : grows sid m m.
Proof. intros Hwf. split; [exact Hwf | reflexivity]. Qed.

Lemma grows_trans sid m1 m2 m3 :
  grows sid m1 m2 -> grows sid m2 m3 -> grows sid m1 m3.
Proof.
  intros H12 H23 Hwf. destruct (H12 Hwf) as [Hwf2 Hp12].
  destruct (H23 Hwf2) as [Hwf3 Hp23]. split; [exact Hwf3|].
  etransitivity; eassumption.
Qed.

Lemma grows_add sid m sid' msg :
  grows sid m (ConversationMemory.add sid' msg m).
Proof.
  intros Hwf. split; [apply store_wf_add, Hwf|].
  destruct (decide (sid = sid')) as [<-|Hne].
  - rewrite (getMessages_add_same m sid msg Hwf). apply prefix_app_r. reflexivity.
  - rewrite (getMessages_add_other m sid' sid msg Hwf Hne). reflexivity.
Qed.

Lemma grows_step sid i :
  resets sid i = false -> moving (grows sid) (step i).
Proof.
  intros Hi. destruct i; simpl in *.
  - apply String.eqb_neq in Hi.
    intros w. unfold ChatManager.createSession.
    destruct (negb (Js.truthy scenario0) || negb (Js.truthy userName0)
              || negb (Js.truthy userRole0)); simpl; [apply grows_refl|].
    intros Hwf. split; [apply store_wf_initialize, Hwf|].
    rewrite getMessages_initialize_other by (exact Hwf || congruence).
    reflexivity.
  - apply moving_processUserMessage;
      first [apply grows_refl | apply grows_trans | apply grows_add].
  - apply moving_onAudioPlaybackComplete;
      first [apply grows_refl | apply grows_trans | apply grows_add].
  - apply String.eqb_neq in Hi.
    intros w Hwf. simpl. split; [apply store_wf_clear, Hwf|].
    rewrite getMessages_clear_other by congruence. reflexivity.
  - apply moving_resume;
      first [apply grows_refl | apply grows_trans | apply grows_add].
Qed.

Lemma store_wf_run inputs :
  forall w, store_wf (memory w) -> store_wf (memory (run inputs w)).
Proof.
  induction inputs as [|i inputs IH]; intros w Hw; simpl; [exact Hw|].
  apply IH, (keeps_wf_moving_step i w), Hw.
Qed.

(** In every world the program can be in, the log store is well formed:
    each session id of the table has its own array of messages. *)
Theorem reachable_store_is_well_formed :
  forall w, reachable w -> store_wf (memory w).
Proof.
  intros w (dg & inputs & ->). apply store_wf_run. apply store_wf_empty.
Qed.

(** The log of a session only grows at its end: over any inputs none of
    which creates or deletes the session, every entry the log holds stays
    where it is, with its role, text and speaker. *)
Theorem log_is_append_only :
  forall (sid : string) (inputs : list Input) (w : World),
    store_wf (memory w) ->
    forallb (fun i => negb (resets sid i)) inputs = true ->
    ConversationMemory.getMessages sid (memory w)
    `prefix_of` ConversationMemory.getMessages sid (memory (run inputs w)).
Proof.
  intros sid inputs.
  induction inputs as [|i inputs IH]; intros w Hwf Hin; simpl in *.
  - reflexivity.
  - apply andb_true_iff in Hin as [Hi Hin]. apply negb_true_iff in Hi.
    destruct (grows_step sid i Hi w Hwf) as [Hwf' Hp].
    etransitivity; [exact Hp | apply IH; assumption].
Qed.

(** ** Creating a session *)

Lemma lookup_last_spawned {A} (l : list A) (x : A) :
  (l ++ [x]) !! length l = Some x.
Proof. rewrite lookup_app_r, Nat.sub_diag by lia. reflexivity. Qed.

Lemma delete_last_spawned {A} (l : list A) (x : A) :
  delete (length l) (l ++ [x]) = l.
Proof. rewrite delete_middle. apply app_nil_r. Qed.

(** A session is asked for with its three fields, and the generator
    answers.  The log of the session holds the system message whatever the
    answer.  When the generator returns agents, the session object is
    stored with both flags off and no speaker, nothing is sent, and the
    first turn is scheduled.  When it throws, or returns no agent, one
    error is sent to the socket, no session is stored and nothing is
    scheduled. *)
Theorem session_creation_outcome :
  forall w sid sc un ur sk result,
    Js.truthy sc = true -> Js.truthy un = true -> Js.truthy ur = true ->
    let w1 := step (CreateSession sid sc un ur sk) w in
    let w2 := step (Resume (length (tasks w)) (Generated result)) w1 in
    memory w2 = ConversationMemory.initializeSession sid sc un ur (memory w)
    /\ match result with
       | inr (a :: ags) =>
           sessions w2 = <[sid := length (heap w)]> (sessions w)
           /\ heap w2
              = heap w ++ [mkSession (a :: ags) sc un ur sk false false JUndefined]
           /\ tasks w2 = tasks w ++ [Timer sid]
           /\ emitted w2 = emitted w
       | inr [] =>
           sessions w2 = sessions w /\ heap w2 = heap w /\ tasks w2 = tasks w
           /\ emitted w2
              = emitted w
                ++ [mkEmission sk onError (error None "Failed to generate agents")]
       | inl message =>
           sessions w2 = sessions w /\ heap w2 = heap w /\ tasks w2 = tasks w
           /\ emitted w2
              = emitted w
                ++ [mkEmission sk onError
                      (error None
                         (if Js.truthy message then message
                          else "Failed to generate agents"))]
       end.
Proof.
  intros w sid sc un ur sk result Hsc Hun Hur w1 w2.
  assert (w1 = spawn (Generating sid sc un ur sk)
                 (update_memory
                    (ConversationMemory.initializeSession sid sc un ur) w))
    as Hw1.
  { unfold w1; simpl. unfold ChatManager.createSession.
    rewrite Hsc, Hun, Hur. reflexivity. }
  assert (w2 = ChatManager.createSession_generated sid sc un ur sk result
                 (update_memory
                    (ConversationMemory.initializeSession sid sc un ur) w))
    as Hw2.
  { unfold w2; simpl. unfold resume. rewrite Hw1. unfold_procs.
    rewrite lookup_last_spawned. unfold seq, drop_task, set_tasks; simpl.
    rewrite delete_last_spawned. reflexivity. }
  rewrite Hw2. unfold ChatManager.createSession_generated.
  destruct result as [message|[|a ags]]; simpl; repeat split; reflexivity.
Qed.

(** ** A message of the user *)

(** A message of the user for a session the table knows is always
    recorded, after the events sent so far comes [ai_thinking], and a turn
    is evaluated only when the session is idle: with one of the two flags
    set, no evaluation starts and no flag changes; with both off,
    [isProcessing] is set and one evaluation starts, which will read a
    history that ends with the message. *)
Theorem user_message_is_recorded_even_when_busy :
  forall w sid message l s,
    store_wf (memory w) ->
    sessions w !! sid = Some l ->
    heap w !! l = Some s ->
    let w' := step (ProcessUserMessage sid message) w in
    ConversationMemory.getMessages sid (memory w')
    = ConversationMemory.getMessages sid (memory w)
      ++ [mkMessage user message None]
    /\ emitted w'
       = emitted w
         ++ [mkEmission (sink s) onStreamChunk
               (ai_thinking "Processing your response...")]
    /\ if isProcessing s || waitingForAudioComplete s
       then tasks w' = tasks w /\ heap w' = heap w
       else exists ref,
              tasks w' = tasks w ++ [Deciding l sid ref]
              /\ ConversationMemory.deref ref (memory w')
                 = ConversationMemory.getMessages sid (memory w)
                   ++ [mkMessage user message None]
              /\ heap w' = alter (set_isProcessing true) l (heap w).
Proof.
  intros w sid message l s Hwf Hsid Hl w'.
  assert (memory w' = ConversationMemory.addUserMessage sid message (memory w)
          /\ emitted w'
             = emitted w
               ++ [mkEmission (sink s) onStreamChunk
                     (ai_thinking "Processing your response...")]
          /\ if isProcessing s || waitingForAudioComplete s
             then tasks w' = tasks w /\ heap w' = heap w
             else tasks w'
                  = tasks w
                    ++ [Deciding l sid
                          (ConversationMemory.memories (memory w') !! sid)]
                  /\ heap w' = alter (set_isProcessing true) l (heap w))
    as (Hm & He & Hrest).
  { unfold w'; simpl.
    unfold ChatManager.processUserMessage, with_session. rewrite Hsid, Hl.
    unfold seq, ChatManager.continueConversation, with_session; simpl.
    rewrite Hsid, Hl.
    destruct (isProcessing s); simpl; [repeat split; reflexivity|].
    destruct (waitingForAudioComplete s); simpl; repeat split; reflexivity. }
  assert (ConversationMemory.getMessages sid (memory w')
          = ConversationMemory.getMessages sid (memory w)
            ++ [mkMessage user message None]) as Hlog.
  { rewrite Hm. apply getMessages_add_same, Hwf. }
  split; [exact Hlog|]. split; [exact He|].
  destruct (isProcessing s || waitingForAudioComplete s); [exact Hrest|].
  destruct Hrest as [Ht Hh]. eexists. split; [exact Ht|].
  split; [exact Hlog | exact Hh].
Qed.

(** ** The turn of the user *)

(** When the decision names the user, the session goes idle and the
    socket is told that it is the user's turn; the controller does nothing
    else: nothing is recorded, nothing is scheduled.  The message the user
    then sends starts the next evaluation. *)
Theorem user_turn_waits_for_the_user :
  forall w k l sid ref s upstream message,
    tasks w !! k = Some (Deciding l sid ref) ->
    sessions w !! sid = Some l ->
    heap w !! l = Some s ->
    waitingForAudioComplete s = false ->
    speaker (Orchestrator.decideAndGenerateResponse (agents s)
               (ConversationMemory.deref ref (memory w))
               (ConversationMemory.getMessages sid (memory w)) upstream)
    = "user" ->
    let w1 := step (Resume k (Answered upstream)) w in
    let w2 := step (ProcessUserMessage sid message) w1 in
    memory w1 = memory w
    /\ tasks w1 = delete k (tasks w)
    /\ heap w1 = alter (set_isProcessing false) l (heap w)
    /\ emitted w1
       = emitted w
         ++ [mkEmission (sink s) onStreamChunk
               (user_turn "It's your turn to speak")]
    /\ tasks w2
       = delete k (tasks w)
         ++ [Deciding l sid
               (ConversationMemory.memories (memory w2) !! sid)]
    /\ (isProcessing <$> heap w2 !! l) = Some true.
Proof.
  intros w k l sid ref s upstream message Hk Hsid Hl Hwait Hd w1 w2.
  assert (w1 = emit (sink s) onStreamChunk (user_turn "It's your turn to speak")
                 (update_session l (set_isProcessing false) (drop_task k w)))
    as Hw1.
  { unfold w1; simpl. unfold resume. rewrite Hk.
    unfold seq, with_session; simpl. rewrite Hl.
    unfold ChatManager.after_decision, with_session; simpl. rewrite Hl, Hd.
    reflexivity. }
  assert (heap w1 !! l = Some (set_isProcessing false s)) as Hl1.
  { rewrite Hw1; simpl. rewrite list_lookup_alter_eq, Hl. reflexivity. }
  assert (sessions w1 !! sid = Some l) as Hsid1 by (rewrite Hw1; exact Hsid).
  split; [rewrite Hw1; reflexivity|].
  split; [rewrite Hw1; reflexivity|].
  split; [rewrite Hw1; reflexivity|].
  split; [rewrite Hw1; reflexivity|].
  unfold w2; simpl.
  unfold ChatManager.processUserMessage, with_session. rewrite Hsid1, Hl1.
  unfold seq, ChatManager.continueConversation, with_session; simpl.
  rewrite Hsid1, Hl1; simpl. rewrite Hwait. unfold_procs.
  rewrite Hw1; simpl. split; [reflexivity|].
  rewrite list_lookup_alter_eq, list_lookup_alter_eq, Hl. reflexivity.
Qed.

(** ** A decision that brings its text *)

Lemma trimmed_text_truthy text : Js.trim text <> "" -> Js.truthy text = true.
Proof.
  destruct text; [intros H; exfalso; apply H; reflexivity | reflexivity].
Qed.

Lemma not_blank_speech {S} dg text gender voiceIndex
    (onAudioChunk : list byte -> S -> S) (onComplete onError : S -> S) st :
  Js.trim text <> "" ->
  TTSService.streamTextToSpeech dg (Some text) gender voiceIndex
    onAudioChunk onComplete onError st
  = if dg then (TTSService.AwaitingOpen (TTSService.model_for gender voiceIndex), st)
    else (TTSService.Returned, onError st).
Proof.
  intros Htrim. unfold TTSService.streamTextToSpeech.
  rewrite (trimmed_text_truthy text Htrim).
  destruct (Js.trim text); [congruence|]. reflexivity.
Qed.

(** The decision names an agent of the roster and brings a text that is
    not blank.  The text is sent to the socket as one chunk, behind
    [ai_thinking] and [ai_response_start], and recorded as that agent's
    utterance.  With the speech service configured, the turn then waits for
    the speech connection; without it, the same text is announced in
    [ai_response_end] and the session waits for the acknowledgement of that
    speaker (or, when the decision ends the conversation, is released). *)
Theorem decision_text_is_sent_recorded_and_announced :
  forall w k l sid ref s upstream d agent text,
    store_wf (memory w) ->
    tasks w !! k = Some (Deciding l sid ref) ->
    heap w !! l = Some s ->
    Orchestrator.decideAndGenerateResponse (agents s)
      (ConversationMemory.deref ref (memory w))
      (ConversationMemory.getMessages sid (memory w)) upstream = d ->
    speaker d <> "user" ->
    List.find (fun a => String.eqb (agent_id a) (speaker d)) (agents s)
    = Some agent ->
    response d = Some text ->
    Js.trim text <> "" ->
    let w' := step (Resume k (Answered upstream)) w in
    let sent :=
      [ mkEmission (sink s) onStreamChunk (ai_thinking "AI is thinking...");
        mkEmission (sink s) onStreamChunk
          (ai_response_start (speaker d) (ChatManager.personality agent)
                             (agent_gender agent));
        mkEmission (sink s) onStreamChunk (ai_response_chunk (speaker d) text) ] in
    let announced :=
      mkEmission (sink s) onStreamComplete
        (ai_response_end (speaker d) text (ChatManager.personality agent)) in
    let ended :=
      mkEmission (sink s) onStreamComplete
        (conversation_ended "Conversation ended gracefully") in
    ConversationMemory.getMessages sid (memory w')
    = ConversationMemory.getMessages sid (memory w)
      ++ [mkMessage assistant text (Some (speaker d))]
    /\ if deepgram w then
         emitted w' = emitted w ++ sent
         /\ heap w' = heap w
         /\ exists model,
              tasks w'
              = delete k (tasks w) ++ [OpeningTts l sid agent d text model]
       else
         tasks w' = delete k (tasks w)
         /\ if String.eqb (speaker d) "end" || shouldEnd d then
              emitted w' = emitted w ++ sent ++ [announced; ended]
              /\ heap w' !! l = Some (released s)
            else
              emitted w' = emitted w ++ sent ++ [announced]
              /\ heap w' !! l
                 = Some (set_currentSpeakingAgentId (JStr (speaker d))
                           (set_waitingForAudioComplete true s)).
Proof.
  intros w k l sid ref s upstream d agent text Hwf Hk Hl Hd Huser Hfind Hresp
         Htrim w' sent announced ended.
  pose proof (trimmed_text_truthy text Htrim) as Ht.
  apply String.eqb_neq in Huser.
  assert (String.eqb (Js.trim text) "" = false) as Htrim'
    by (apply String.eqb_neq; exact Htrim).
  set (w0 := emit (sink s) onStreamChunk (ai_response_chunk (speaker d) text)
               (emit (sink s) onStreamChunk
                  (ai_response_start (speaker d) (ChatManager.personality agent)
                                     (agent_gender agent))
                  (emit (sink s) onStreamChunk (ai_thinking "AI is thinking...")
                     (drop_task k w)))).
  assert (w' = ChatManager.after_text l sid agent d text w0) as Hw'.
  { unfold w'; simpl. unfold resume. rewrite Hk.
    unfold seq, with_session; simpl. rewrite Hl, Hd.
    unfold ChatManager.after_decision, with_session; simpl.
    rewrite Hl, Huser, Hfind, Hresp, Ht, Htrim'. reflexivity. }
  assert (heap w0 !! l = Some s) as Hl0 by exact Hl.
  rewrite Hw'. unfold ChatManager.after_text, with_session. rewrite Hl0.
  unfold seq. rewrite not_blank_speech by assumption.
  change (deepgram (update_memory _ w0)) with (deepgram w).
  assert (ConversationMemory.getMessages sid
            (ConversationMemory.addAssistantMessage sid text (speaker d)
               (memory w))
          = ConversationMemory.getMessages sid (memory w)
            ++ [mkMessage assistant text (Some (speaker d))]) as Hlog
    by (apply getMessages_add_same, Hwf).
  destruct (deepgram w).
  - split; [exact Hlog|]. split; [|split; [reflexivity|]].
    + unfold_procs. rewrite <- !app_assoc. reflexivity.
    + eexists. reflexivity.
  - unfold ChatManager.onAudioError, ChatManager.finish, with_session; simpl.
    rewrite Hl. unfold seq.
    destruct (String.eqb (speaker d) "end" || shouldEnd d); simpl.
    + split; [exact Hlog|]. split; [reflexivity|]. split.
      * rewrite <- !app_assoc. reflexivity.
      * rewrite !list_lookup_alter_eq, Hl. reflexivity.
    + split; [exact Hlog|]. split; [reflexivity|]. split.
      * rewrite <- !app_assoc. reflexivity.
      * rewrite !list_lookup_alter_eq, Hl. reflexivity.
Qed.

(** ** The text of a stream *)

Lemma append_assoc (a b c : string) : (a +:+ b) +:+ c = a +:+ (b +:+ c).
Proof.
  induction a as [|x a IH]; [reflexivity|].
  change (String x ((a +:+ b) +:+ c) = String x (a +:+ (b +:+ c))).
  f_equal. exact IH.
Qed.

Lemma append_nil_r (a : string) : a +:+ "" = a.
Proof.
  induction a as [|x a IH]; [reflexivity|].
  change (String x (a +:+ "") = String x a). f_equal. exact IH.
Qed.

Lemma falsy_empty s : Js.truthy s = false -> s = "".
Proof. destruct s; [reflexivity | discriminate]. Qed.

(** The items of a stream change nothing but the two accumulators of the
    suspended call and the events sent. *)
Lemma run_chunks cs :
  forall w k l sid agent d full recv s,
    tasks w !! k = Some (Streaming l sid agent d full recv) ->
    heap w !! l = Some s ->
    run (chunk_inputs k cs) w
    = mkWorld (sessions w) (heap w) (memory w) (deepgram w)
        (<[k := Streaming l sid agent d (full +:+ joined cs)
                          (recv +:+ joined cs)]> (tasks w))
        (emitted w ++ chunk_emissions (sink s) (speaker d) cs).
Proof.
  induction cs as [|c cs IH]; intros w k l sid agent d full recv s Hk Hl.
  - simpl. unfold chunk_emissions; simpl.
    rewrite !append_nil_r, app_nil_r, (list_insert_id _ _ _ Hk).
    destruct w; reflexivity.
  - simpl.
    assert (resume k (Chunk c) w
            = mkWorld (sessions w) (heap w) (memory w) (deepgram w)
                (<[k := Streaming l sid agent d (full +:+ c) (recv +:+ c)]>
                   (tasks w))
                (emitted w ++ chunk_emissions (sink s) (speaker d) [c]))
      as ->.
    { unfold resume, with_session. rewrite Hk, Hl.
      unfold OpenAIService.on_chunk, chunk_emissions; simpl.
      destruct (Js.truthy c) eqn:Hc; simpl; [reflexivity|].
      apply falsy_empty in Hc. subst c.
      rewrite !append_nil_r, app_nil_r. reflexivity. }
    rewrite (IH _ k l sid agent d (full +:+ c) (recv +:+ c) s); simpl.
    + change (joined (c :: cs)) with (c +:+ joined cs).
      rewrite list_insert_insert_eq, !append_assoc, <- app_assoc.
      unfold chunk_emissions; simpl.
      destruct (Js.truthy c); reflexivity.
    + apply list_lookup_insert_eq. eapply lookup_lt_Some, Hk.
    + exact Hl.
Qed.

(** The utterance recorded for a streamed turn is the text of its chunks
    put together, in the order they came, and the socket was sent exactly
    the chunks that carry text, in that order, before anything else of the
    turn. *)
Theorem streamed_text_is_recorded_whole :
  forall w k l sid agent d cs s,
    store_wf (memory w) ->
    tasks w !! k = Some (Streaming l sid agent d "" "") ->
    heap w !! l = Some s ->
    let w' := run (chunk_inputs k cs ++ [Resume k StreamEnd]) w in
    ConversationMemory.getMessages sid (memory w')
    = ConversationMemory.getMessages sid (memory w)
      ++ [mkMessage assistant (joined cs) (Some (speaker d))]
    /\ (emitted w ++ chunk_emissions (sink s) (speaker d) cs)
       `prefix_of` emitted w'.
Proof.
  intros w k l sid agent d cs s Hwf Hk Hl w'.
  assert (ConversationMemory.getMessages sid
            (ConversationMemory.addAssistantMessage sid (joined cs) (speaker d)
               (memory w))
          = ConversationMemory.getMessages sid (memory w)
            ++ [mkMessage assistant (joined cs) (Some (speaker d))]) as Hlog
    by (apply getMessages_add_same, Hwf).
  unfold w', run. rewrite fold_left_app. fold (run (chunk_inputs k cs) w).
  rewrite (run_chunks cs w k l sid agent d "" "" s Hk Hl).
  change ("" +:+ joined cs) with (joined cs). simpl.
  unfold resume; simpl.
  rewrite list_lookup_insert_eq by (eapply lookup_lt_Some, Hk).
  unfold OpenAIService.on_end, ChatManager.onTextComplete; simpl.
  unfold seq, drop_task, ChatManager.after_text, with_session; simpl.
  rewrite Hl. unfold seq, TTSService.streamTextToSpeech.
  destruct (negb (Js.truthy (joined cs))
            || negb (Js.truthy (Js.trim (joined cs))));
    [|destruct (deepgram w)]; simpl;
    unfold ChatManager.finish, with_session; simpl; rewrite ?Hl;
    unfold seq; try destruct (String.eqb (speaker d) "end" || shouldEnd d);
    simpl; (split; [exact Hlog|]);
    rewrite <- ?app_assoc; try apply prefix_app; try apply prefix_app_r;
    try reflexivity.
Qed.

(** ** From the acknowledgement to the next turn *)

(** The acknowledgement of the speaker the session waits for releases the
    session and schedules one timer; when that timer fires, one evaluation
    starts on the history as it is, and [isProcessing] is set again.
    Nothing is sent or recorded on the way. *)
Theorem acknowledged_turn_leads_to_next_evaluation :
  forall w sid a l s,
    sessions w !! sid = Some l ->
    heap w !! l = Some s ->
    waitingForAudioComplete s = true ->
    currentSpeakingAgentId s = a ->
    let w1 := step (AudioPlaybackComplete sid a) w in
    let w2 := step (Resume (length (tasks w)) Fired) w1 in
    tasks w1 = tasks w ++ [Timer sid]
    /\ heap w1 !! l = Some (released s)
    /\ tasks w2
       = tasks w
         ++ [Deciding l sid (ConversationMemory.memories (memory w) !! sid)]
    /\ heap w2 !! l = Some (set_isProcessing true (released s))
    /\ emitted w2 = emitted w
    /\ memory w2 = memory w.
Proof.
  intros w sid a l s Hsid Hl Hwait Ha w1 w2.
  assert (w1 = release l sid w) as Hw1.
  { unfold w1; simpl.
    unfold ChatManager.onAudioPlaybackComplete, with_session.
    rewrite Hsid, Hl, Hwait, Ha.
    rewrite (proj2 (strict_eq_true a a) eq_refl). reflexivity. }
  assert (heap w1 !! l = Some (released s)) as Hl1.
  { rewrite Hw1. unfold release; unfold_procs.
    rewrite list_lookup_alter_eq, Hl. reflexivity. }
  split; [rewrite Hw1; reflexivity|]. split; [exact Hl1|].
  assert (w2 = spawn (Deciding l sid
                        (ConversationMemory.memories (memory w) !! sid))
                 (update_session l (set_isProcessing true)
                    (update_session l released w))) as ->.
  { unfold w2; simpl. unfold resume.
    replace (tasks w1 !! length (tasks w)) with (Some (Timer sid))
      by (rewrite Hw1; symmetry; apply lookup_last_spawned).
    unfold seq, ChatManager.continueConversation, with_session.
    replace (sessions (drop_task (length (tasks w)) w1) !! sid) with (Some l)
      by (rewrite Hw1; symmetry; exact Hsid).
    replace (heap (drop_task (length (tasks w)) w1) !! l)
      with (Some (released s)) by (symmetry; exact Hl1).
    simpl. rewrite Hw1. unfold release; unfold_procs.
    unfold drop_task, set_tasks; simpl.
    rewrite delete_last_spawned. reflexivity. }
  unfold_procs. split; [reflexivity|]. split; [|split; reflexivity].
  rewrite !list_lookup_alter_eq, Hl. reflexivity.
Qed.

(** ** The end of the audio *)






(** ** The end of the conversation *)


(** ** The voice of an agent *)

(** The voice of a turn is taken from the three voices of the agent's
    gender (the female ones for any gender other than [male] that is not
    the name of an inherited property) by the agent's place in the roster,
    counted modulo 3: agents of one gender at three places in a row speak
    with three different voices. *)
Theorem voice_follows_place_in_roster :
  forall w l sid agent d text s i,
    heap w !! l = Some s ->
    deepgram w = true ->
    Js.trim text <> "" ->
    inherited_property (agent_gender agent) = false ->
    agents s !! i = Some agent ->
    agent_id agent = speaker d ->
    (forall j b, j < i -> agents s !! j = Some b -> agent_id b <> speaker d) ->
    let voices :=
      if String.eqb (agent_gender agent) "male"
      then TTSService.male else TTSService.female in
    NoDup voices
    /\ exists model,
         voices !! (i mod 3) = Some model
         /\ tasks (ChatManager.after_text l sid agent d text w)
            = tasks w ++ [OpeningTts l sid agent d text model].
Proof.
  intros w l sid agent d text s i Hl Hdg Htrim _ Hi Hid Hfirst voices.
  split.
  { unfold voices.
    destruct (String.eqb (agent_gender agent) "male");
      apply (bool_decide_unpack _); vm_compute; exact I. }
  assert (Orchestrator.findIndex
            (fun a => String.eqb (agent_id a) (speaker d)) (agents s)
          = Z.of_nat i) as Hidx.
  { unfold Orchestrator.findIndex.
    rewrite (findIndex_from_first _ _ i 0%Z agent Hi).
    - lia.
    - apply String.eqb_eq, Hid.
    - intros j b Hj Hb. apply String.eqb_neq, (Hfirst j b Hj Hb). }
  unfold ChatManager.after_text, with_session. rewrite Hl. unfold seq.
  rewrite not_blank_speech by assumption.
  change (deepgram (update_memory _ w)) with (deepgram w). rewrite Hdg.
  eexists. split; [|reflexivity].
  rewrite Hidx.
  replace (0 <=? Z.of_nat i)%Z with true by (symmetry; apply Z.leb_le; lia).
  rewrite Z.rem_mod_nonneg by lia.
  change 3%Z with (Z.of_nat 3). rewrite <- Nat2Z.inj_mod, Nat2Z.id.
  assert (i mod 3 < 3) as Hlt by (apply Nat.mod_upper_bound; lia).
  generalize dependent (i mod 3). intros n Hlt.
  assert (String.eqb (ChatManager.or_default (agent_gender agent) "female")
                     "male"
          = String.eqb (agent_gender agent) "male") as Hgender
    by (destruct (agent_gender agent); reflexivity).
  unfold TTSService.model_for, TTSService.voiceArray, voices.
  rewrite Hgender.
  destruct (String.eqb (agent_gender agent) "male");
    destruct n as [|[|[|n]]]; try lia; reflexivity.
Qed.

(** ** Generated rosters *)

Section Generated.

Import AgentGenerator.

Lemma all_chars_app p a b :
  Js.all_chars p (a +:+ b) = Js.all_chars p a && Js.all_chars p b.
Proof.
  induction a as [|c a IH]; [reflexivity|].
  change (p c && Js.all_chars p (a +:+ b)
          = p c && Js.all_chars p a && Js.all_chars p b).
  rewrite IH. apply andb_assoc.
Qed.

Lemma keep_chars_all p s : Js.all_chars p (keep_chars p s) = true.
Proof.
  induction s as [|c s IH]; [reflexivity|]. simpl.
  destruct (p c) eqn:Hc; [simpl; rewrite Hc|]; exact IH.
Qed.

Lemma agentId_word name designation :
  Js.all_chars Js.is_word (agentId name designation) = true.
Proof.
  unfold agentId, clean. rewrite !all_chars_app, !keep_chars_all. reflexivity.
Qed.

(** An id has an underscore in it, which no reserved speaker has. *)
Lemma agentId_not_reserved name designation reserved :
  Js.all_chars (fun c => negb (Ascii.eqb c "_")) reserved = true ->
  agentId name designation <> reserved.
Proof.
  intros Hres Heq. rewrite <- Heq in Hres. unfold agentId in Hres.
  rewrite !all_chars_app in Hres. simpl in Hres.
  rewrite andb_false_r in Hres. discriminate.
Qed.

Lemma format_id raw a :
  format raw = Some a ->
  agent_id a = agentId (agent_name a) (agent_designation a)
  /\ complete raw = true
  /\ raw_name raw = Some (agent_name a).
Proof.
  unfold format, complete.
  destruct (raw_name raw) as [n|]; [|discriminate].
  destruct (raw_designation raw) as [r|]; [|discriminate].
  destruct (Js.truthy n), (Js.truthy r); try discriminate.
  intros [= <-]. repeat split.
Qed.

Lemma format_none raw : format raw = None -> complete raw = false.
Proof.
  unfold format, complete.
  destruct (raw_name raw) as [n|]; [|reflexivity].
  destruct (raw_designation raw) as [r|]; [|reflexivity].
  destruct (Js.truthy n), (Js.truthy r); try discriminate; reflexivity.
Qed.

Lemma format_from_ok raws :
  forall index formatted,
    format_from index raws = inr formatted ->
    Forall2 (fun raw a => format raw = Some a) raws formatted.
Proof.
  induction raws as [|raw raws IH]; intros index formatted; simpl.
  - intros [= <-]. constructor.
  - destruct (format raw) as [a|] eqn:Ha; [|discriminate].
    destruct (format_from (S index) raws) as [e|l] eqn:Hl; [discriminate|].
    intros [= <-]. constructor; [exact Ha | apply (IH (S index)), Hl].
Qed.

Lemma format_from_error raws :
  forall index e,
    format_from index raws = inl e ->
    exists i raw,
      e = MissingFields (index + i)
      /\ raws !! i = Some raw /\ complete raw = false
      /\ forall j r, j < i -> raws !! j = Some r -> complete r = true.
Proof.
  induction raws as [|raw raws IH]; intros index e; simpl; [discriminate|].
  destruct (format raw) as [a|] eqn:Ha.
  - destruct (format_from (S index) raws) as [e'|l] eqn:Hl; [|discriminate].
    intros [= <-]. destruct (IH (S index) e' Hl) as (i & r & -> & Hi & Hr & Hjs).
    exists (S i), r. repeat split; [f_equal; lia | exact Hi | exact Hr|].
    intros [|j] r' Hj Hr'; simpl in Hr'.
    + injection Hr' as <-. apply (format_id _ _ Ha).
    + apply (Hjs j r'); [lia | exact Hr'].
  - intros [= <-]. exists 0, raw.
    repeat split; [f_equal; lia | apply format_none, Ha|].
    intros j r Hj. lia.
Qed.

Lemma reassign_formatted formatted raws :
  Forall2 (fun raw a => format raw = Some a) raws formatted ->
  forall keep, List.map reassign (List.filter keep formatted)
               = List.filter keep formatted.
Proof.
  intros Hall keep. induction Hall as [|raw a raws formatted Ha _ IH];
    [reflexivity|]. simpl.
  destruct (keep a); [|exact IH]. simpl. rewrite IH. f_equal.
  destruct (format_id raw a Ha) as (Hid & _). unfold reassign.
  rewrite <- Hid. destruct a; reflexivity.
Qed.

Lemma generated_from userName raws ags :
  generateAgents_parsed userName raws = inr ags ->
  exists formatted,
    Forall2 (fun raw a => format raw = Some a) raws formatted
    /\ ags = List.filter (other_name userName) formatted
    /\ ags <> [].
Proof.
  unfold generateAgents_parsed.
  destruct (format_from 0 raws) as [e|formatted] eqn:Hf; [discriminate|].
  pose proof (format_from_ok raws 0 formatted Hf) as Hall.
  rewrite (reassign_formatted formatted raws Hall).
  destruct (List.filter (other_name userName) formatted) as [|a l] eqn:Hl;
    [discriminate|].
  intros [= <-]. exists formatted. repeat split; [exact Hall | congruence |].
  discriminate.
Qed.

Lemma generated_ids userName raws ags a :
  generateAgents_parsed userName raws = inr ags ->
  In a ags ->
  agent_id a = agentId (agent_name a) (agent_designation a).
Proof.
  intros Hgen Ha. destruct (generated_from _ _ _ Hgen) as (formatted & Hall & -> & _).
  apply List.filter_In in Ha as [Ha _].
  clear Hgen. induction Hall as [|raw b raws formatted Hb _ IH]; [destruct Ha|].
  destruct Ha as [<- | Ha]; [apply (format_id raw b Hb) | apply IH, Ha].
Qed.

(** The id of a generated agent is the cleaned name, an underscore and the
    cleaned role: it is made of letters, digits and underscores only, and
    it is never one of the two speakers the orchestrator reserves, [user]
    and [end]. *)
Theorem generated_ids_are_words_and_not_reserved :
  forall userName raws ags a,
    generateAgents_parsed userName raws = inr ags ->
    In a ags ->
    agent_id a
    = clean (agent_name a) +:+ "_" +:+ clean (agent_designation a)
    /\ Js.all_chars Js.is_word (agent_id a) = true
    /\ agent_id a <> "user"
    /\ agent_id a <> "end".
Proof.
  intros userName raws ags a Hgen Ha.
  rewrite (generated_ids userName raws ags a Hgen Ha).
  split; [reflexivity|]. split; [apply agentId_word|].
  split; apply agentId_not_reserved; reflexivity.
Qed.

(** The roster that is returned is the formatted array, in its order,
    without the agents that bear the user's name (compared without case
    and without the white space around): assigning the ids again after the
    filter changes nothing.  It has at least one agent. *)
Theorem generated_roster_leaves_out_the_users_name :
  forall userName raws ags,
    generateAgents_parsed userName raws = inr ags ->
    ags <> []
    /\ (forall a, In a ags ->
          Js.trim (Js.toLowerCase (agent_name a))
          <> Js.trim (Js.toLowerCase userName))
    /\ exists formatted,
         Forall2 (fun raw a => format raw = Some a) raws formatted
         /\ ags = List.filter (other_name userName) formatted.
Proof.
  intros userName raws ags Hgen.
  destruct (generated_from _ _ _ Hgen) as (formatted & Hall & Hags & Hne).
  split; [exact Hne|]. split; [|exists formatted; split; assumption].
  intros a Ha. rewrite Hags in Ha. apply List.filter_In in Ha as [_ Ha].
  unfold other_name in Ha. apply negb_true_iff, String.eqb_neq in Ha.
  exact Ha.
Qed.

(** When the call throws: for a missing name or role, the index in the
    message is the place of the first element that lacks one; for want of
    agents, every element was complete and bore the user's name (or the
    array was empty). *)
Theorem generation_errors :
  forall userName raws e,
    generateAgents_parsed userName raws = inl e ->
    match e with
    | MissingFields i =>
        (exists raw, raws !! i = Some raw /\ complete raw = false)
        /\ forall j r, j < i -> raws !! j = Some r -> complete r = true
    | NoValidAgents =>
        Forall (fun raw => complete raw = true /\ named_as userName raw = true)
               raws
    end.
Proof.
  intros userName raws e. unfold generateAgents_parsed.
  destruct (format_from 0 raws) as [e'|formatted] eqn:Hf.
  - intros [= <-].
    destruct (format_from_error raws 0 e' Hf) as (i & raw & -> & Hi & Hraw & Hjs).
    simpl. split; [exists raw; split; assumption | exact Hjs].
  - pose proof (format_from_ok raws 0 formatted Hf) as Hall.
    rewrite (reassign_formatted formatted raws Hall).
    destruct (List.filter (other_name userName) formatted) as [|a l] eqn:Hl;
      [|discriminate].
    intros [= <-]. clear Hf.
    induction Hall as [|raw b raws formatted Hb _ IH]; [constructor|].
    simpl in Hl. destruct (other_name userName b) eqn:Hob; [discriminate|].
    constructor; [|apply IH, Hl].
    destruct (format_id raw b Hb) as (_ & Hc & Hn). split; [exact Hc|].
    unfold named_as. rewrite Hn. unfold other_name in Hob.
    apply negb_false_iff in Hob. exact Hob.
Qed.

End Generated.

(** For every roster the generator can return, a decision whose speaker is
    [end] names no agent: the controller sets [isProcessing] off and
    returns, sending nothing. *)
Theorem end_decision_is_dropped_for_generated_rosters :
  forall userName raws w l sid s d,
    AgentGenerator.generateAgents_parsed userName raws = inr (agents s) ->
    heap w !! l = Some s ->
    speaker d = "end" ->
    ChatManager.after_decision l sid d w
    = update_session l (set_isProcessing false) w.
Proof.
  intros userName raws w l sid s d Hgen Hl Hd.
  apply (end_decision_takes_unknown_agent_branch w l sid s d Hl Hd).
  apply List.Forall_forall. intros a Ha.
  rewrite (generated_ids userName raws (agents s) a Hgen Ha).
  apply agentId_not_reserved. reflexivity.
Qed.

(** ** A well-formed answer *)

Lemma append_cons c a b : String c a +:+ b = String c (a +:+ b).
Proof. reflexivity. Qed.

Lemma drop_while_cons p c t :
  Js.drop_while p (String c t)
  = if p c then Js.drop_while p t else String c t.
Proof.
  unfold Js.drop_while. simpl.
  destruct (p c); [destruct (Js.span p t)|]; reflexivity.
Qed.

Lemma length_drop_while p s :
  String.length (Js.drop_while p s) <= String.length s.
Proof.
  induction s as [|c t IH]; [simpl; lia|].
  rewrite drop_while_cons. destruct (p c); simpl; lia.
Qed.

Lemma drop_while_fix p s :
  String.length (Js.drop_while p s) = String.length s ->
  Js.drop_while p s = s.
Proof.
  destruct s as [|c t]; [reflexivity|]. rewrite drop_while_cons.
  destruct (p c); [|reflexivity].
  intros H. pose proof (length_drop_while p t). simpl in H. lia.
Qed.

Lemma drop_while_head p s :
  Js.drop_while p s = s ->
  match s with
  | EmptyString => True
  | String c _ => p c = false
  end.
Proof.
  destruct s as [|c t]; [constructor|]. rewrite drop_while_cons.
  destruct (p c); [|reflexivity].
  intros H. pose proof (length_drop_while p t) as Hlen.
  rewrite H in Hlen. simpl in Hlen. lia.
Qed.

Lemma drop_while_stop p s :
  match s with
  | EmptyString => True
  | String c _ => p c = false
  end ->
  Js.drop_while p s = s.
Proof.
  destruct s as [|c t]; [reflexivity|]. rewrite drop_while_cons.
  intros ->. reflexivity.
Qed.

Lemma rev_onto_rev_onto s :
  forall a b, Js.rev_onto (Js.rev_onto s a) b = Js.rev_onto a (s +:+ b).
Proof.
  induction s as [|c t IH]; intros a b; [reflexivity|].
  simpl. rewrite IH. reflexivity.
Qed.

Lemma rev_rev s : Js.rev (Js.rev s) = s.
Proof.
  unfold Js.rev. rewrite rev_onto_rev_onto. simpl. apply append_nil_r.
Qed.

Lemma length_rev_onto s :
  forall acc,
    String.length (Js.rev_onto s acc) = String.length s + String.length acc.
Proof.
  induction s as [|c t IH]; intros acc; simpl; [reflexivity|].
  rewrite IH. simpl. lia.
Qed.

Lemma length_rev s : String.length (Js.rev s) = String.length s.
Proof. unfold Js.rev. rewrite length_rev_onto. simpl. lia. Qed.

Lemma rev_onto_acc s : forall acc, Js.rev_onto s acc = Js.rev s +:+ acc.
Proof.
  induction s as [|c t IH]; intros acc; [reflexivity|].
  unfold Js.rev. simpl. rewrite (IH (String c acc)), (IH (String c "")).
  rewrite append_assoc. reflexivity.
Qed.

Lemma rev_onto_app a :
  forall b acc, Js.rev_onto (a +:+ b) acc = Js.rev_onto b (Js.rev_onto a acc).
Proof.
  induction a as [|c a IH]; intros b acc; [reflexivity|].
  rewrite append_cons. simpl. apply IH.
Qed.

Lemma rev_app a b : Js.rev (a +:+ b) = Js.rev b +:+ Js.rev a.
Proof.
  unfold Js.rev at 1. rewrite rev_onto_app, rev_onto_acc. reflexivity.
Qed.

Lemma all_chars_rev_onto q s :
  forall acc,
    Js.all_chars q (Js.rev_onto s acc)
    = Js.all_chars q s && Js.all_chars q acc.
Proof.
  induction s as [|c t IH]; intros acc; [reflexivity|].
  simpl. rewrite IH. simpl.
  destruct (q c), (Js.all_chars q t); reflexivity.
Qed.

Lemma all_chars_rev q s : Js.all_chars q (Js.rev s) = Js.all_chars q s.
Proof. unfold Js.rev. rewrite all_chars_rev_onto. simpl. apply andb_true_r. Qed.

Lemma all_chars_impl (q p : ascii -> bool) s :
  (forall c, q c = true -> p c = true) ->
  Js.all_chars q s = true -> Js.all_chars p s = true.
Proof.
  intros Hqp. induction s as [|c t IH]; [reflexivity|]. simpl.
  intros H. apply andb_true_iff in H as [Hc Ht].
  rewrite (Hqp c Hc), (IH Ht). reflexivity.
Qed.

Lemma all_chars_map q f s :
  (forall c, q c = true -> q (f c) = true) ->
  Js.all_chars q s = true -> Js.all_chars q (Js.map_chars f s) = true.
Proof.
  intros Hf. induction s as [|c t IH]; [reflexivity|]. simpl.
  intros H. apply andb_true_iff in H as [Hc Ht].
  rewrite (Hf c Hc), (IH Ht). reflexivity.
Qed.

Lemma all_chars_drop_while q p s :
  Js.all_chars q s = true -> Js.all_chars q (Js.drop_while p s) = true.
Proof.
  induction s as [|c t IH]; [reflexivity|]. rewrite drop_while_cons.
  intros H. destruct (p c); [|exact H].
  simpl in H. apply andb_true_iff in H as [_ Ht]. apply IH, Ht.
Qed.

(** A string that [trim] leaves alone has no white space at either end. *)
Lemma trim_fixed s :
  Js.trim s = s ->
  Js.drop_while Js.is_space s = s
  /\ Js.drop_while Js.is_space (Js.rev s) = Js.rev s.
Proof.
  intros H.
  assert (Js.drop_while Js.is_space s = s) as H1.
  { apply drop_while_fix.
    pose proof (length_drop_while Js.is_space s).
    pose proof (length_drop_while Js.is_space
                  (Js.rev (Js.drop_while Js.is_space s))) as H2.
    rewrite length_rev in H2.
    assert (String.length (Js.trim s) = String.length s) as H3
      by (rewrite H; reflexivity).
    unfold Js.trim in H3. rewrite length_rev in H3. lia. }
  split; [exact H1|].
  unfold Js.trim in H. rewrite H1 in H.
  rewrite <- H at 2. rewrite rev_rev. reflexivity.
Qed.

Lemma trim_of_ends s :
  Js.drop_while Js.is_space s = s ->
  Js.drop_while Js.is_space (Js.rev s) = Js.rev s ->
  Js.trim s = s.
Proof. intros H1 H2. unfold Js.trim. rewrite H1, H2. apply rev_rev. Qed.

Ltac by_char c :=
  destruct c as [[] [] [] [] [] [] [] []]; vm_compute; intros; congruence.

Lemma space_not_word c : Js.is_space c = true -> Js.is_word c = false.
Proof. by_char c. Qed.

Lemma word_not_space c : Js.is_word c = true -> Js.is_space c = false.
Proof. by_char c. Qed.

Lemma word_not_colon c : Js.is_word c = true -> not_colon c = true.
Proof. by_char c. Qed.

Lemma space_not_colon c : Js.is_space c = true -> not_colon c = true.
Proof. by_char c. Qed.

Lemma upper_space c : Js.is_space (Js.upper c) = Js.is_space c.
Proof. by_char c. Qed.

Lemma upper_not_colon c : not_colon c = true -> not_colon (Js.upper c) = true.
Proof. by_char c. Qed.

Lemma upper_of_colon c : Ascii.eqb (Js.upper ":") (Js.upper c) = true -> not_colon c = false.
Proof. by_char c. Qed.

Lemma word_trimmed s : Js.all_chars Js.is_word s = true -> Js.trim s = s.
Proof.
  intros H. apply trim_of_ends; apply drop_while_stop.
  - destruct s as [|c t]; [constructor|]. simpl in H.
    apply andb_true_iff in H as [Hc _]. apply word_not_space, Hc.
  - rewrite <- all_chars_rev in H. destruct (Js.rev s) as [|c t]; [constructor|].
    simpl in H. apply andb_true_iff in H as [Hc _]. apply word_not_space, Hc.
Qed.

Lemma span_app_stop p a b :
  Js.all_chars p a = true ->
  match b with
  | EmptyString => True
  | String c _ => p c = false
  end ->
  Js.span p (a +:+ b) = (a, b).
Proof.
  intros Ha Hb. induction a as [|c a IH].
  - destruct b as [|c b]; [reflexivity|]. simpl. change ("" +:+ String c b) with (String c b).
    simpl. rewrite Hb. reflexivity.
  - simpl in Ha. apply andb_true_iff in Ha as [Hc Ha].
    rewrite append_cons. simpl. rewrite Hc, (IH Ha). reflexivity.
Qed.

Lemma drop_while_app_all p a b :
  Js.all_chars p a = true ->
  Js.drop_while p (a +:+ b) = Js.drop_while p b.
Proof.
  intros Ha. induction a as [|c a IH]; [reflexivity|].
  simpl in Ha. apply andb_true_iff in Ha as [Hc Ha].
  rewrite append_cons, drop_while_cons, Hc. apply IH, Ha.
Qed.

Lemma strip_prefix_app p :
  forall s r, Js.strip_prefix p s = Some r -> s = p +:+ r.
Proof.
  induction p as [|a p IH]; intros s r; simpl.
  - intros [= ->]. reflexivity.
  - destruct s as [|b s]; [discriminate|].
    destruct (Ascii.eqb_spec a b) as [<- | _]; [|discriminate].
    intros H. rewrite append_cons, <- (IH s r H). reflexivity.
Qed.

(** A text without a colon holds no marker. *)
Lemma no_marker_inside s p :
  Js.all_chars not_colon s = true ->
  Js.all_chars not_colon p = false ->
  Js.includes s p = false.
Proof.
  intros Hs Hp.
  assert (forall t, Js.all_chars not_colon t = true ->
                    Js.startsWith t p = false) as Hstart.
  { intros t Ht. unfold Js.startsWith.
    destruct (Js.strip_prefix p t) as [r|] eqn:Hr; [|reflexivity].
    apply strip_prefix_app in Hr. rewrite Hr, all_chars_app, Hp in Ht.
    discriminate. }
  induction s as [|c t IH]; simpl.
  - rewrite (Hstart "" eq_refl). reflexivity.
  - rewrite (Hstart _ Hs). simpl in Hs.
    apply andb_true_iff in Hs as [_ Ht]. apply IH, Ht.
Qed.

Lemma includes_skip c t a p :
  Ascii.eqb a c = false ->
  Js.includes (String c t) (String a p) = Js.includes t (String a p).
Proof.
  intros H. simpl. unfold Js.startsWith. simpl. rewrite H. reflexivity.
Qed.

Lemma no_user_marker s :
  Js.all_chars not_colon s = true ->
  Js.strip_prefix_ci "USER:" s = None.
Proof.
  intros Hs.
  destruct s as [|c1 [|c2 [|c3 [|c4 [|c5 t]]]]]; cbn [Js.strip_prefix_ci];
    repeat match goal with
           | |- (if ?b then _ else _) = None =>
               destruct b eqn:?; [|reflexivity]
           end; try reflexivity.
  exfalso.
  match goal with
  | H : Ascii.eqb (Js.upper ":") (Js.upper c5) = true |- _ =>
      apply upper_of_colon in H; simpl in Hs; rewrite H in Hs
  end.
  rewrite !andb_false_r in Hs. discriminate.
Qed.

Lemma remove_all_nothing m s :
  (forall prev t, Js.all_chars not_colon t = true -> m prev t = None) ->
  Js.all_chars not_colon s = true ->
  forall prev, Js.remove_all_from m prev 0 s = s.
Proof.
  intros Hm. induction s as [|c t IH]; intros Hs prev; [reflexivity|].
  simpl. rewrite (Hm prev (String c t) Hs).
  simpl in Hs. apply andb_true_iff in Hs as [_ Ht].
  rewrite (IH Ht). reflexivity.
Qed.

Lemma span_parts p s :
  forall a b, Js.span p s = (a, b) -> s = a +:+ b.
Proof.
  induction s as [|c t IH]; intros a b; simpl.
  - intros [= <- <-]. reflexivity.
  - destruct (p c).
    + destruct (Js.span p t) as [a' b'] eqn:Ht. intros [= <- <-].
      rewrite append_cons, <- (IH a' b' eq_refl). reflexivity.
    + intros [= <- <-]. reflexivity.
Qed.

Lemma no_label t prev :
  Js.all_chars not_colon t = true -> Orchestrator.label_at prev t = None.
Proof.
  intros Ht. unfold Orchestrator.label_at.
  destruct t as [|c t]; [reflexivity|].
  destruct (Ascii.eqb_spec c "[") as [-> | Hc].
  - destruct (Js.span (fun c => negb (Ascii.eqb c "]")) t) as [body r] eqn:Hspan.
    apply span_parts in Hspan. simpl in Ht. rewrite Hspan, all_chars_app in Ht.
    destruct body as [|b body]; [reflexivity|].
    destruct r as [|r1 [|r2 r]]; try reflexivity;
      try (destruct (Ascii.eqb_spec r1 "]") as [-> | H1];
           [|destruct r1 as [[] [] [] [] [] [] [] []]; try reflexivity;
             exfalso; apply H1; reflexivity]); try reflexivity.
    destruct (Ascii.eqb_spec r2 ":") as [-> | H2].
    + simpl in Ht. rewrite !andb_false_r in Ht. discriminate.
    + destruct r2 as [[] [] [] [] [] [] [] []]; try reflexivity.
      exfalso; apply H2; reflexivity.
  - destruct c as [[] [] [] [] [] [] [] []]; try reflexivity.
    exfalso; apply Hc; reflexivity.
Qed.

Lemma no_user_marker_at t prev :
  Js.all_chars not_colon t = true -> Orchestrator.user_marker_at prev t = None.
Proof.
  intros Ht. unfold Orchestrator.user_marker_at.
  rewrite (no_user_marker t Ht). destruct prev as [c|]; [destruct (Js.is_word c)|];
    reflexivity.
Qed.

Lemma strip_trailing_user_nothing s :
  Js.all_chars not_colon s = true -> Orchestrator.strip_trailing_user s = s.
Proof.
  induction s as [|c t IH]; intros Hs.
  - reflexivity.
  - assert (Js.strip_prefix_ci "USER:" (Js.drop_while Js.is_space (String c t))
            = None) as Hnone
      by (apply no_user_marker, all_chars_drop_while, Hs).
    simpl in Hs. apply andb_true_iff in Hs as [_ Ht].
    cbn [Orchestrator.strip_trailing_user]. rewrite Hnone, (IH Ht).
    reflexivity.
Qed.

Lemma trim_upper s : Js.trim (Js.toUpperCase s) = Js.toUpperCase (Js.trim s).
Proof.
  assert (forall t, Js.drop_while Js.is_space (Js.map_chars Js.upper t)
                    = Js.map_chars Js.upper (Js.drop_while Js.is_space t))
    as Hdw.
  { induction t as [|c t IH]; [reflexivity|].
    cbn [Js.map_chars]. rewrite !drop_while_cons, upper_space, IH.
    destruct (Js.is_space c); reflexivity. }
  assert (forall t acc, Js.rev_onto (Js.map_chars Js.upper t)
                          (Js.map_chars Js.upper acc)
                        = Js.map_chars Js.upper (Js.rev_onto t acc)) as Hrev.
  { induction t as [|c t IH]; intros acc; [reflexivity|].
    simpl. rewrite <- IH. reflexivity. }
  unfold Js.trim, Js.toUpperCase, Js.rev.
  rewrite Hdw, (Hrev _ ""), Hdw, (Hrev _ ""). reflexivity.
Qed.

(** The cleaning of a text that is trimmed and has no colon changes
    nothing. *)
Lemma clean_body_nothing body :
  Js.trim body = body ->
  Js.all_chars not_colon body = true ->
  Orchestrator.clean_body body = body.
Proof.
  intros Htrim Hnc.
  destruct (trim_fixed body Htrim) as [Hhead _].
  assert (Orchestrator.drop_leading_newlines body = body) as H1.
  { unfold Orchestrator.drop_leading_newlines.
    apply drop_while_head in Hhead.
    destruct body as [|c t]; [reflexivity|]. simpl. rewrite Hhead.
    reflexivity. }
  assert (Orchestrator.strip_labels body = body) as H2.
  { apply remove_all_nothing; [|exact Hnc].
    intros prev t Ht. apply no_label, Ht. }
  assert (Orchestrator.strip_leading_user body = body) as H3.
  { unfold Orchestrator.strip_leading_user.
    rewrite (no_user_marker body Hnc). reflexivity. }
  assert (Orchestrator.strip_user_markers body = body) as H4.
  { apply remove_all_nothing; [|exact Hnc].
    intros prev t Ht. apply no_user_marker_at, Ht. }
  unfold Orchestrator.clean_body. cbv zeta.
  rewrite Htrim, H1, Htrim, H2, Htrim, H3, Htrim,
    (strip_trailing_user_nothing body Hnc), Htrim, H4.
  exact Htrim.
Qed.

(** The provider answers with the marker, the id of an agent of the
    roster, white space and a text; the text is trimmed, has no colon in
    it and is not the word USER.  The decision names that agent and brings
    the text as it is, and does not end the conversation. *)
Theorem well_formed_answer_is_taken_as_it_is :
  forall agents fullHistory reread response id sep body,
    Js.trim response = "AGENT:" +:+ id +:+ sep +:+ body ->
    id <> "" ->
    Js.all_chars Js.is_word id = true ->
    sep <> "" ->
    Js.all_chars Js.is_space sep = true ->
    body <> "" ->
    Js.trim body = body ->
    Js.all_chars not_colon body = true ->
    Js.toUpperCase body <> "USER" ->
    (exists a, In a agents /\ agent_id a = id) ->
    Orchestrator.decideAndGenerateResponse agents fullHistory reread
      (Some response)
    = mkDecision id (Some body) false.
Proof.
  intros agents fullHistory reread response id sep body HT Hid Hword Hsep
         Hspace Hbody Htrim Hnc Huser (a & Ha & Haid).
  set (rest := id +:+ sep +:+ body) in *.
  set (T := String "A" (String "G" (String "E" (String "N" (String "T"
              (String ":" rest)))))).
  change (Js.trim response = T) in HT.
  destruct (trim_fixed body Htrim) as [Hhead Hlast].
  assert (Js.all_chars not_colon rest = true) as Hrest.
  { unfold rest. rewrite !all_chars_app.
    rewrite (all_chars_impl _ _ id word_not_colon Hword),
            (all_chars_impl _ _ sep space_not_colon Hspace), Hnc.
    reflexivity. }
  assert (Js.trim T = T) as HtrimT.
  { apply trim_of_ends; [reflexivity|].
    assert (T = ("AGENT:" +:+ id +:+ sep) +:+ body) as ->
      by (rewrite !append_assoc; reflexivity).
    rewrite rev_app.
    apply drop_while_stop.
    apply drop_while_head in Hlast.
    assert (Js.rev body <> "") as Hne.
    { intros H. apply Hbody. rewrite <- (rev_rev body), H. reflexivity. }
    destruct (Js.rev body) as [|c t]; [congruence|].
    rewrite append_cons. exact Hlast. }
  assert (Orchestrator.agentMatch T = Some (id, body)) as Hmatch.
  { unfold Orchestrator.agentMatch.
    change (Js.strip_prefix "AGENT:" T) with (Some rest). unfold rest.
    rewrite (span_app_stop Js.is_word id (sep +:+ body) Hword).
    - destruct id; [congruence|]. simpl.
      rewrite (drop_while_app_all _ _ _ Hspace), Hhead. reflexivity.
    - destruct sep as [|c sep']; [congruence|]. rewrite append_cons.
      simpl in Hspace. apply andb_true_iff in Hspace as [Hc _].
      apply space_not_word, Hc. }
  assert (Orchestrator.is_only_user_token body = false) as Honly.
  { unfold Orchestrator.is_only_user_token.
    rewrite trim_upper, Htrim. apply orb_false_iff. split.
    - apply String.eqb_neq, Huser.
    - apply String.eqb_neq. intros H.
      assert (Js.all_chars not_colon (Js.toUpperCase body) = true) as Hu
        by (apply all_chars_map; [apply upper_not_colon | exact Hnc]).
      rewrite H in Hu. discriminate. }
  assert (Js.includes body "END:" = false) as Hend1
    by (apply no_marker_inside; [exact Hnc | reflexivity]).
  assert (Js.includes T (String nl "END:") = false) as Hend2.
  { unfold T. rewrite !includes_skip by reflexivity.
    apply no_marker_inside; [exact Hrest | reflexivity]. }
  assert (existsb (fun a => String.eqb (agent_id a) id) agents = true) as Hex.
  { apply existsb_exists. exists a. split; [exact Ha|].
    apply String.eqb_eq, Haid. }
  unfold Orchestrator.decideAndGenerateResponse, Orchestrator.parseResponse.
  cbv zeta. rewrite HT.
  change (Js.startsWith T "END:" || String.eqb T "END") with false.
  change (Orchestrator.userTurnPattern T) with false.
  assert (Orchestrator.is_user_token T = false) as ->.
  { unfold Orchestrator.is_user_token. rewrite HtrimT. reflexivity. }
  cbv iota. rewrite Hmatch. cbv iota beta.
  rewrite (word_trimmed id Hword), (clean_body_nothing body Htrim Hnc).
  destruct body as [|c body']; [congruence|].
  rewrite Honly, Hend1, Hend2, Hex. reflexivity.
Qed.

(** ** What belongs to a session *)

Lemma same_identity_refl s : same_identity s s.
Proof. repeat split. Qed.

Lemma keeps_sessions_refl h : keeps_sessions h h.
Proof. intros l s Hl. exists s. split; [exact Hl | apply same_identity_refl]. Qed.

Lemma keeps_sessions_trans h1 h2 h3 :
  keeps_sessions h1 h2 -> keeps_sessions h2 h3 -> keeps_sessions h1 h3.
Proof.
  intros H12 H23 l s Hl.
  destruct (H12 l s Hl) as (s2 & Hl2 & (Ha & Hb & Hc & Hd & He)).
  destruct (H23 l s2 Hl2) as (s3 & Hl3 & (Ha' & Hb' & Hc' & Hd' & He')).
  exists s3. split; [exact Hl3|]. repeat split; congruence.
Qed.

Section Steady.

Lemma steady_same p : (forall w, heap (p w) = heap w) -> steady p.
Proof. intros H w. rewrite H. apply keeps_sessions_refl. Qed.

Lemma steady_seq a b : steady a -> steady b -> steady (a >> b).
Proof. intros Ha Hb w. eapply keeps_sessions_trans; [apply Ha | apply Hb]. Qed.

Lemma steady_skip : steady skip.
Proof. apply steady_same; reflexivity. Qed.

Lemma steady_emit t v e : steady (emit t v e).
Proof. apply steady_same; reflexivity. Qed.

Lemma steady_update_memory f : steady (update_memory f).
Proof. apply steady_same; reflexivity. Qed.

Lemma steady_spawn t : steady (spawn t).
Proof. apply steady_same; reflexivity. Qed.

Lemma steady_drop_task k : steady (drop_task k).
Proof. apply steady_same; reflexivity. Qed.

Lemma steady_put_task k t : steady (put_task k t).
Proof. apply steady_same; reflexivity. Qed.

Lemma steady_store_session sid s : steady (store_session sid s).
Proof.
  intros w l s0 Hl. exists s0. split; [|apply same_identity_refl].
  simpl. apply lookup_app_l_Some, Hl.
Qed.

Lemma steady_update_session l f :
  (forall s, same_identity s (f s)) -> steady (update_session l f).
Proof.
  intros Hf w l' s Hl. simpl.
  destruct (decide (l' = l)) as [->|Hne].
  - exists (f s). rewrite list_lookup_alter_eq, Hl. split; [reflexivity | apply Hf].
  - exists s. rewrite list_lookup_alter_ne by congruence.
    split; [exact Hl | apply same_identity_refl].
Qed.

Lemma steady_with_session l k :
  (forall s, steady (k s)) -> steady (with_session l k).
Proof.
  intros Hk w. unfold with_session.
  destruct (heap w !! l); [apply Hk | apply keeps_sessions_refl].
Qed.

Lemma identity_isProcessing b s : same_identity s (set_isProcessing b s).
Proof. repeat split. Qed.

Lemma identity_speaking a s :
  same_identity s (set_currentSpeakingAgentId (JStr a)
                     (set_waitingForAudioComplete true s)).
Proof. repeat split. Qed.

Lemma identity_released s :
  same_identity s (set_isProcessing false
                     (set_currentSpeakingAgentId JNull
                        (set_waitingForAudioComplete false s))).
Proof. repeat split. Qed.

Create HintDb steady.

Local Hint Resolve steady_seq steady_skip steady_emit steady_update_memory
  steady_spawn steady_drop_task steady_put_task steady_store_session
  steady_update_session steady_with_session identity_isProcessing
  identity_speaking identity_released : steady.

Lemma steady_finish l agent d full : steady (ChatManager.finish l agent d full).
Proof.
  unfold ChatManager.finish. apply steady_with_session; intros s.
  destruct (String.eqb (speaker d) "end" || shouldEnd d); auto 10 with steady.
Qed.

Lemma steady_after_text l sid agent d full :
  steady (ChatManager.after_text l sid agent d full).
Proof.
  unfold ChatManager.after_text. apply steady_with_session; intros s.
  apply steady_seq; [apply steady_update_memory|].
  intros w. unfold TTSService.streamTextToSpeech.
  destruct (negb (Js.truthy full) || negb (Js.truthy (Js.trim full)));
    [|destruct (deepgram w)]; simpl.
  - apply (steady_finish l agent d full (emit _ _ _ w)).
  - apply keeps_sessions_refl.
  - apply steady_finish.
Qed.

Lemma steady_after_decision l sid d :
  steady (ChatManager.after_decision l sid d).
Proof.
  unfold ChatManager.after_decision. apply steady_with_session; intros s.
  destruct (String.eqb (speaker d) "user"); [auto with steady|].
  destruct (List.find _ (agents s)); [|auto with steady].
  pose proof (steady_after_text l sid a d) as Hat.
  destruct (response d) as [r|]; [|auto 10 with steady].
  destruct (Js.truthy r && negb (String.eqb (Js.trim r) ""));
    auto 10 with steady.
Qed.

Lemma steady_caught l m : steady (ChatManager.caught l m).
Proof. unfold ChatManager.caught. auto 10 with steady. Qed.

Lemma steady_continueConversation sid :
  steady (ChatManager.continueConversation sid).
Proof.
  intros w. unfold ChatManager.continueConversation.
  destruct (sessions w !! sid) as [l|]; [|apply keeps_sessions_refl].
  unfold with_session. destruct (heap w !! l) as [s|]; [|apply keeps_sessions_refl].
  destruct (isProcessing s); [apply keeps_sessions_refl|].
  destruct (waitingForAudioComplete s); [apply keeps_sessions_refl|].
  apply (steady_seq _ _ (steady_update_session l _ (identity_isProcessing true))
           (steady_spawn _)).
Qed.

Lemma steady_onAudioPlaybackComplete sid a :
  steady (ChatManager.onAudioPlaybackComplete sid a).
Proof.
  intros w. unfold ChatManager.onAudioPlaybackComplete.
  destruct (sessions w !! sid) as [l|]; [|apply keeps_sessions_refl].
  revert w. apply steady_with_session; intros s.
  destruct (waitingForAudioComplete s && strict_eq _ a); auto 10 with steady.
Qed.

Lemma steady_processUserMessage sid m :
  steady (ChatManager.processUserMessage sid m).
Proof.
  intros w. unfold ChatManager.processUserMessage.
  destruct (sessions w !! sid) as [l|]; [|apply keeps_sessions_refl].
  revert w. apply steady_with_session; intros s.
  pose proof (steady_continueConversation sid).
  auto 10 with steady.
Qed.

Lemma steady_createSession sid sc un ur sk :
  steady (ChatManager.createSession sid sc un ur sk).
Proof.
  unfold ChatManager.createSession.
  destruct (negb (Js.truthy sc) || negb (Js.truthy un) || negb (Js.truthy ur));
    auto 10 with steady.
Qed.

Lemma steady_createSession_generated sid sc un ur sk res :
  steady (ChatManager.createSession_generated sid sc un ur sk res).
Proof.
  unfold ChatManager.createSession_generated.
  destruct res as [m|[|a ags]]; auto 10 with steady.
Qed.

Lemma steady_resume k r : steady (resume k r).
Proof.
  intros w. unfold resume.
  destruct (tasks w !! k) as [t|]; [|destruct r; apply keeps_sessions_refl].
  destruct t, r; try apply keeps_sessions_refl.
  - apply (steady_seq _ _ (steady_drop_task k)
             (steady_continueConversation sessionId)).
  - apply (steady_seq _ _ (steady_drop_task k)
             (steady_createSession_generated _ _ _ _ _ _)).
  - apply (steady_seq _ _ (steady_drop_task k)).
    apply steady_with_session; intros s. apply steady_after_decision.
  - apply (steady_seq _ _ (steady_drop_task k) (steady_caught _ _)).
  - apply (steady_seq _ _ (steady_drop_task k) (steady_caught _ _)).
  - revert w. apply steady_with_session; intros s w.
    unfold OpenAIService.on_chunk.
    destruct (Js.truthy content0); simpl; apply keeps_sessions_refl.
  - simpl. apply (steady_seq _ _ (steady_drop_task k)
                    (steady_after_text _ _ _ _ _)).
  - revert w. apply steady_with_session; intros s w. simpl.
    apply (steady_seq _ _
             (steady_seq _ _
                (steady_seq _ _ (steady_emit _ _ _)
                   (steady_update_session _ _ (identity_isProcessing false)))
                (steady_drop_task k))
             (steady_after_text session sessionId agent decision fullResponse)).
  - apply (steady_seq _ _ (steady_seq _ _ (steady_drop_task k) (steady_spawn _))
             (steady_finish _ _ _ _)).
  - simpl. apply (steady_seq _ _ (steady_drop_task k) (steady_finish _ _ _ _)).
  - simpl. apply (steady_seq _ _ (steady_drop_task k) (steady_finish _ _ _ _)).
  - revert w. apply steady_with_session; intros s w.
    unfold TTSService.on_audio, ChatManager.onAudioChunk.
    destruct (firstAudioChunk closure); simpl; [|apply keeps_sessions_refl].
    destruct (ttsFirstAudioSent closure); simpl; apply keeps_sessions_refl.
  - revert w. apply steady_with_session; intros s w.
    unfold TTSService.on_flushed.
    destruct (TTSService.flushed connection); simpl; apply keeps_sessions_refl.
  - revert w. apply steady_with_session; intros s w.
    unfold TTSService.on_timeout.
    destruct (TTSService.flushed connection); simpl; apply keeps_sessions_refl.
Qed.

Lemma steady_step i : steady (step i).
Proof.
  destruct i; simpl.
  - apply steady_createSession.
  - apply steady_processUserMessage.
  - apply steady_onAudioPlaybackComplete.
  - apply steady_same; reflexivity.
  - apply steady_resume.
Qed.

End Steady.

(** A session object stays for good, and what it was created with never
    changes: over any inputs, deletions of the session included, the
    object that a suspended call holds has the same roster, scenario, user
    and socket. *)
Theorem session_object_keeps_what_it_was_created_with :
  forall inputs w l s,
    heap w !! l = Some s ->
    exists s',
      heap (run inputs w) !! l = Some s'
      /\ agents s' = agents s /\ scenario s' = scenario s
      /\ userName s' = userName s /\ userRole s' = userRole s
      /\ sink s' = sink s.
Proof.
  intros inputs w. revert w.
  assert (forall w, keeps_sessions (heap w) (heap (run inputs w))) as Hrun.
  { induction inputs as [|i inputs IH]; intros w; simpl.
    - apply keeps_sessions_refl.
    - eapply keeps_sessions_trans; [apply steady_step | apply IH]. }
  intros w l s Hl. apply (Hrun w l s Hl).
Qed.

(** ** Whom the events go to *)

Section Sends.

Variables l t : nat.

Lemma sends_quiet p :
  (forall w, heap (p w) = heap w) -> (forall w, emitted (p w) = emitted w) ->
  sends l t p.
Proof.
  intros Hh He w Hw. split.
  - intros s. rewrite Hh. apply Hw.
  - exists []. rewrite He, app_nil_r. split; constructor.
Qed.

Lemma sends_seq a b : sends l t a -> sends l t b -> sends l t (a >> b).
Proof.
  intros Ha Hb w Hw. destruct (Ha w Hw) as (Hw1 & new1 & He1 & Hn1).
  destruct (Hb (a w) Hw1) as (Hw2 & new2 & He2 & Hn2).
  split; [exact Hw2|]. exists (new1 ++ new2). split.
  - unfold seq. rewrite He2, He1, app_assoc. reflexivity.
  - apply Forall_app; split; assumption.
Qed.

Lemma sends_skip : sends l t skip.
Proof. apply sends_quiet; reflexivity. Qed.

Lemma sends_emit v e : sends l t (emit t v e).
Proof.
  intros w Hw. split; [exact Hw|]. exists [mkEmission t v e].
  split; [reflexivity | repeat constructor].
Qed.

Lemma sends_update_memory f : sends l t (update_memory f).
Proof. apply sends_quiet; reflexivity. Qed.

Lemma sends_spawn x : sends l t (spawn x).
Proof. apply sends_quiet; reflexivity. Qed.

Lemma sends_drop_task k : sends l t (drop_task k).
Proof. apply sends_quiet; reflexivity. Qed.

Lemma sends_put_task k x : sends l t (put_task k x).
Proof. apply sends_quiet; reflexivity. Qed.

Lemma sends_update_session l0 f :
  (forall s, sink (f s) = sink s) -> sends l t (update_session l0 f).
Proof.
  intros Hf w Hw. split.
  - intros s. simpl. destruct (decide (l = l0)) as [<-|Hne].
    + rewrite list_lookup_alter_eq.
      destruct (heap w !! l) as [s0|] eqn:Hl; [|discriminate].
      intros [= <-]. rewrite Hf. apply Hw, Hl.
    + rewrite list_lookup_alter_ne by congruence. apply Hw.
  - exists []. simpl. rewrite app_nil_r. split; constructor.
Qed.

Lemma sends_with_session k :
  (forall s, sink s = t -> sends l t (k s)) -> sends l t (with_session l k).
Proof.
  intros Hk w Hw. unfold with_session.
  destruct (heap w !! l) as [s|] eqn:Hl.
  - apply (Hk s (Hw s Hl) w Hw).
  - apply (sends_skip w Hw).
Qed.

Create HintDb sends.

Local Hint Resolve sends_seq sends_skip sends_emit sends_update_memory
  sends_spawn sends_drop_task sends_put_task sends_update_session : sends.

Lemma sends_finish agent d full : sends l t (ChatManager.finish l agent d full).
Proof.
  unfold ChatManager.finish. apply sends_with_session; intros s ->.
  destruct (String.eqb (speaker d) "end" || shouldEnd d); auto 10 with sends.
Qed.

Lemma sends_after_text sid agent d full :
  sends l t (ChatManager.after_text l sid agent d full).
Proof.
  unfold ChatManager.after_text. apply sends_with_session; intros s ->.
  apply sends_seq; [apply sends_update_memory|].
  intros w Hw. unfold TTSService.streamTextToSpeech.
  destruct (negb (Js.truthy full) || negb (Js.truthy (Js.trim full)));
    [|destruct (deepgram w)]; simpl.
  - apply (sends_seq _ _ (sends_emit _ _) (sends_finish agent d full) w Hw).
  - apply (sends_spawn _ w Hw).
  - apply (sends_finish agent d full w Hw).
Qed.

Lemma sends_after_decision sid d :
  sends l t (ChatManager.after_decision l sid d).
Proof.
  unfold ChatManager.after_decision. apply sends_with_session; intros s ->.
  destruct (String.eqb (speaker d) "user"); [auto with sends|].
  destruct (List.find _ (agents s)); [|auto with sends].
  pose proof (sends_after_text sid a d) as Hat.
  destruct (response d) as [r|]; [|auto 10 with sends].
  destruct (Js.truthy r && negb (String.eqb (Js.trim r) ""));
    auto 10 with sends.
Qed.

Lemma sends_caught m : sends l t (ChatManager.caught l m).
Proof.
  unfold ChatManager.caught. apply sends_with_session; intros s ->.
  auto 10 with sends.
Qed.

Lemma sends_continueConversation sid :
  sends l t (ChatManager.continueConversation sid).
Proof.
  intros w Hw. unfold ChatManager.continueConversation.
  destruct (sessions w !! sid) as [l0|]; [|apply (sends_skip w Hw)].
  unfold with_session. destruct (heap w !! l0) as [s|]; [|apply (sends_skip w Hw)].
  destruct (isProcessing s); [apply (sends_skip w Hw)|].
  destruct (waitingForAudioComplete s); [apply (sends_skip w Hw)|].
  apply (sends_seq _ _ (sends_update_session l0 (set_isProcessing true)
                          (fun s => eq_refl))
           (sends_spawn _) w Hw).
Qed.

End Sends.

Lemma silent_continueConversation sid w :
  emitted (ChatManager.continueConversation sid w) = emitted w.
Proof.
  unfold ChatManager.continueConversation.
  destruct (sessions w !! sid) as [l|]; [|reflexivity].
  unfold with_session. destruct (heap w !! l) as [s|]; [|reflexivity].
  destruct (isProcessing s); [reflexivity|].
  destruct (waitingForAudioComplete s); reflexivity.
Qed.

Lemma owns_own l s w : heap w !! l = Some s -> owns l (sink s) w.
Proof. intros Hl s' Hl'. congruence. Qed.

Lemma nothing_sent i w :
  emitted (step i w) = emitted w ->
  exists new,
    emitted (step i w) = emitted w ++ new
    /\ Forall (fun e => addressee i w = Some (to e)) new.
Proof. intros H. exists []. rewrite H, app_nil_r. split; constructor. Qed.

Lemma sent_to t i w new :
  addressee i w = Some t ->
  emitted (step i w) = emitted w ++ new ->
  Forall (fun e => to e = t) new ->
  exists new,
    emitted (step i w) = emitted w ++ new
    /\ Forall (fun e => addressee i w = Some (to e)) new.
Proof.
  intros Haddr He Hnew. exists new. rewrite Haddr. split; [exact He|].
  eapply Forall_impl; [exact Hnew|]. intros e ->. reflexivity.
Qed.

Lemma sent_to_owner i w p l s :
  step i w = p w ->
  heap w !! l = Some s ->
  addressee i w = Some (sink s) ->
  sends l (sink s) p ->
  exists new,
    emitted (step i w) = emitted w ++ new
    /\ Forall (fun e => addressee i w = Some (to e)) new.
Proof.
  intros Hstep Hl Haddr Hp.
  destruct (Hp w (owns_own l s w Hl)) as (_ & new & He & Hnew).
  apply (sent_to (sink s) i w new Haddr); [rewrite Hstep; exact He | exact Hnew].
Qed.

Ltac quiet Hk :=
  apply nothing_sent; simpl; unfold resume; rewrite Hk; try reflexivity.

Lemma resume_addressed k r w :
  exists new,
    emitted (step (Resume k r) w) = emitted w ++ new
    /\ Forall (fun e => addressee (Resume k r) w = Some (to e)) new.
Proof.
  destruct (tasks w !! k) as [task|] eqn:Hk; [|quiet Hk; destruct r; reflexivity].
  destruct task as [sid | sid sc un ur sk | l sid ref | l sid agent d full recv
                    | l sid agent d full model | l aid closure conn].
  - (* a timer *)
    quiet Hk. destruct r; try reflexivity.
    unfold seq. rewrite silent_continueConversation. reflexivity.
  - (* the generator *)
    destruct r as [| result | | | | | | | | | | | |]; try (quiet Hk; fail).
    assert (addressee (Resume k (Generated result)) w = Some sk) as Haddr
      by (simpl; rewrite Hk; reflexivity).
    destruct result as [m|[|a ags]].
    + apply (sent_to sk _ w
               [mkEmission sk onError
                  (error None
                     (ChatManager.or_default m "Failed to generate agents"))]);
        [exact Haddr | | repeat constructor].
      simpl. unfold resume. rewrite Hk. reflexivity.
    + apply (sent_to sk _ w
               [mkEmission sk onError
                  (error None "Failed to generate agents")]);
        [exact Haddr | | repeat constructor].
      simpl. unfold resume. rewrite Hk. reflexivity.
    + apply nothing_sent. simpl. unfold resume. rewrite Hk. reflexivity.
  - (* the orchestrator *)
    destruct (heap w !! l) as [s|] eqn:Hl.
    + destruct r as [| | upstream | message | | | | | | | | | |];
        try (quiet Hk; fail).
      * apply (sent_to_owner _ w
                 (drop_task k >>
                  ChatManager.after_decision l sid
                    (Orchestrator.decideAndGenerateResponse (agents s)
                       (ConversationMemory.deref ref (memory w))
                       (ConversationMemory.getMessages sid (memory w))
                       upstream)) l s).
        -- simpl. unfold resume. rewrite Hk. unfold seq, with_session. simpl.
           rewrite Hl. reflexivity.
        -- exact Hl.
        -- simpl. rewrite Hk, Hl. reflexivity.
        -- apply sends_seq; [apply sends_drop_task | apply sends_after_decision].
      * apply (sent_to_owner _ w (drop_task k >> ChatManager.caught l message)
                 l s).
        -- simpl. unfold resume. rewrite Hk. reflexivity.
        -- exact Hl.
        -- simpl. rewrite Hk, Hl. reflexivity.
        -- apply sends_seq; [apply sends_drop_task | apply sends_caught].
    + quiet Hk. destruct r; try reflexivity;
        unfold seq, ChatManager.caught, with_session; simpl; rewrite Hl;
        reflexivity.
  - (* the text stream *)
    destruct (heap w !! l) as [s|] eqn:Hl.
    + assert (addressee (Resume k r) w = Some (sink s)) as Haddr
        by (simpl; rewrite Hk, Hl; reflexivity).
      destruct r as [| | | message | content | | message | | | | | | |];
        try (quiet Hk; fail).
      * apply (sent_to_owner _ w (drop_task k >> ChatManager.caught l message)
                 l s); [| exact Hl | exact Haddr |].
        -- simpl. unfold resume. rewrite Hk. reflexivity.
        -- apply sends_seq; [apply sends_drop_task | apply sends_caught].
      * apply (sent_to (sink s) _ w
                 (if Js.truthy content
                  then [mkEmission (sink s) onStreamChunk
                          (ai_response_chunk (speaker d) content)]
                  else [])); [exact Haddr | |].
        -- simpl. unfold resume, with_session. rewrite Hk, Hl.
           unfold OpenAIService.on_chunk.
           destruct (Js.truthy content); simpl;
             [reflexivity | rewrite app_nil_r; reflexivity].
        -- destruct (Js.truthy content); repeat constructor.
      * apply (sent_to_owner _ w
                 (drop_task k >> ChatManager.after_text l sid agent d recv)
                 l s); [| exact Hl | exact Haddr |].
        -- simpl. unfold resume. rewrite Hk. reflexivity.
        -- apply sends_seq; [apply sends_drop_task | apply sends_after_text].
      * apply (sent_to_owner _ w
                 (emit (sink s) onError
                    (error (Some (speaker d))
                       (ChatManager.or_default message
                          "Failed to generate response")) >>
                  update_session l (set_isProcessing false) >>
                  drop_task k >>
                  ChatManager.after_text l sid agent d full)
                 l s); [| exact Hl | exact Haddr |].
        -- simpl. unfold resume, with_session. rewrite Hk, Hl. reflexivity.
        -- apply sends_seq; [|apply sends_after_text].
           apply sends_seq; [|apply sends_drop_task].
           apply sends_seq; [apply sends_emit|].
           apply sends_update_session. reflexivity.
    + quiet Hk. destruct r; try reflexivity;
        unfold seq, ChatManager.caught, ChatManager.after_text, with_session;
        simpl; rewrite ?Hl; reflexivity.
  - (* the speech connection being opened *)
    destruct (heap w !! l) as [s|] eqn:Hl.
    + assert (addressee (Resume k r) w = Some (sink s)) as Haddr
        by (simpl; rewrite Hk, Hl; reflexivity).
      destruct r; try (quiet Hk; fail).
      * apply (sent_to_owner _ w
                 (drop_task k >>
                  spawn (Speaking l (speaker d) (mkAudioClosure true false)
                           (TTSService.opened model)) >>
                  ChatManager.finish l agent d full)
                 l s); [| exact Hl | exact Haddr |].
        -- simpl. unfold resume. rewrite Hk. reflexivity.
        -- apply sends_seq; [|apply sends_finish].
           apply sends_seq; [apply sends_drop_task | apply sends_spawn].
      * apply (sent_to_owner _ w
                 (drop_task k >> ChatManager.finish l agent d full)
                 l s); [| exact Hl | exact Haddr |].
        -- simpl. unfold resume. rewrite Hk. reflexivity.
        -- apply sends_seq; [apply sends_drop_task | apply sends_finish].
      * apply (sent_to_owner _ w
                 (drop_task k >> ChatManager.finish l agent d full)
                 l s); [| exact Hl | exact Haddr |].
        -- simpl. unfold resume. rewrite Hk. reflexivity.
        -- apply sends_seq; [apply sends_drop_task | apply sends_finish].
    + quiet Hk. destruct r; try reflexivity;
        unfold seq, ChatManager.finish, with_session;
        simpl; rewrite ?Hl; reflexivity.
  - (* the open speech connection *)
    destruct (heap w !! l) as [s|] eqn:Hl.
    + assert (addressee (Resume k r) w = Some (sink s)) as Haddr
        by (simpl; rewrite Hk, Hl; reflexivity).
      destruct r as [| | | | | | | | | | data | | |]; try (quiet Hk; fail).
      * apply (sent_to (sink s) _ w
                 (if firstAudioChunk closure then
                    (if ttsFirstAudioSent closure then []
                     else [mkEmission (sink s) onStreamChunk
                             (tts_first_audio aid)])
                    ++ [mkEmission (sink s) onStreamChunk
                          (ai_audio_chunk aid
                             (TTSService.createWavHeader ++ data))]
                  else [mkEmission (sink s) onStreamChunk
                          (ai_audio_chunk aid data)]));
          [exact Haddr | |].
        -- simpl. unfold resume, with_session. rewrite Hk, Hl.
           unfold TTSService.on_audio, ChatManager.onAudioChunk.
           destruct (firstAudioChunk closure);
             [destruct (ttsFirstAudioSent closure)|]; simpl;
             rewrite <- ?app_assoc; reflexivity.
        -- destruct (firstAudioChunk closure);
             [destruct (ttsFirstAudioSent closure)|]; repeat constructor.
      * apply (sent_to (sink s) _ w
                 (if TTSService.flushed conn then []
                  else [mkEmission (sink s) onStreamChunk (ai_audio_end aid)]));
          [exact Haddr | |].
        -- simpl. unfold resume, with_session. rewrite Hk, Hl.
           unfold TTSService.on_flushed.
           destruct (TTSService.flushed conn); simpl;
             [rewrite app_nil_r|]; reflexivity.
        -- destruct (TTSService.flushed conn); repeat constructor.
      * apply (sent_to (sink s) _ w
                 (if TTSService.flushed conn then []
                  else [mkEmission (sink s) onStreamChunk (ai_audio_end aid)]));
          [exact Haddr | |].
        -- simpl. unfold resume, with_session. rewrite Hk, Hl.
           unfold TTSService.on_timeout.
           destruct (TTSService.flushed conn); simpl;
             [rewrite app_nil_r|]; reflexivity.
        -- destruct (TTSService.flushed conn); repeat constructor.
    + quiet Hk. destruct r; try reflexivity;
        unfold with_session; rewrite Hl; reflexivity.
Qed.

(** Whatever a turn of the event loop sends, it sends to the socket of the
    session it works for: a user message to the socket of its session, the
    resumption of a suspended call to the socket of the session object the
    call holds, the failure of a creation to the socket that asked for it.
    The creation request itself, an acknowledgement, a deletion and a
    timer send nothing. *)
Theorem events_go_to_the_socket_of_their_session :
  forall i w,
    exists new,
      emitted (step i w) = emitted w ++ new
      /\ Forall (fun e => addressee i w = Some (to e)) new.
Proof.
  intros i w. destruct i as [sid sc un ur sk | sid m | sid a | sid | k r].
  - (* a session is asked for *)
    apply nothing_sent. simpl. unfold ChatManager.createSession.
    destruct (negb (Js.truthy sc) || negb (Js.truthy un) || negb (Js.truthy ur));
      reflexivity.
  - (* a message of the user *)
    destruct (sessions w !! sid) as [l|] eqn:Hsid;
      [destruct (heap w !! l) as [s|] eqn:Hl|].
    + apply (sent_to_owner _ w
               (emit (sink s) onStreamChunk
                  (ai_thinking "Processing your response...") >>
                update_memory (ConversationMemory.addUserMessage sid m) >>
                ChatManager.continueConversation sid) l s).
      * simpl. unfold ChatManager.processUserMessage, with_session.
        rewrite Hsid, Hl. reflexivity.
      * exact Hl.
      * simpl. rewrite Hsid, Hl. reflexivity.
      * apply sends_seq; [|apply sends_continueConversation].
        apply sends_seq; [apply sends_emit | apply sends_update_memory].
    + apply nothing_sent. simpl.
      unfold ChatManager.processUserMessage, with_session.
      rewrite Hsid, Hl. reflexivity.
    + apply nothing_sent. simpl. unfold ChatManager.processUserMessage.
      rewrite Hsid. reflexivity.
  - (* an acknowledgement *)
    apply nothing_sent. simpl.
    unfold ChatManager.onAudioPlaybackComplete, with_session.
    destruct (sessions w !! sid) as [l|]; [|reflexivity].
    destruct (heap w !! l) as [s|]; [|reflexivity].
    destruct (waitingForAudioComplete s && strict_eq _ a); reflexivity.
  - (* a deletion *)
    apply nothing_sent. reflexivity.
  - apply resume_addressed.
Qed.

(** ** The end marker behind a text *)

Lemma includes_cons c t p :
  Js.includes (String c t) p = Js.startsWith (String c t) p || Js.includes t p.
Proof. reflexivity. Qed.

Lemma includes_start s p : Js.startsWith s p = true -> Js.includes s p = true.
Proof. intros H. destruct s; simpl; rewrite H; reflexivity. Qed.

Lemma includes_app a b p :
  Js.includes b p = true -> Js.includes (a +:+ b) p = true.
Proof.
  intros H. induction a as [|c a IH]; [exact H|].
  rewrite append_cons, includes_cons, IH. apply orb_true_r.
Qed.

Lemma marker_free_tail c t : marker_free (String c t) = true -> marker_free t = true.
Proof.
  unfold marker_free. rewrite !includes_cons, !negb_orb.
  destruct (Js.includes t "]:"), (Js.includes t "R:"), (Js.includes t "r:");
    try reflexivity; rewrite ?andb_false_r; simpl; rewrite ?andb_false_r;
    intros H; discriminate H.
Qed.

Lemma marker_free_drop_while p s :
  marker_free s = true -> marker_free (Js.drop_while p s) = true.
Proof.
  induction s as [|c t IH]; [intros H; exact H|].
  rewrite drop_while_cons. intros H. destruct (p c); [|exact H].
  apply IH, (marker_free_tail c t H).
Qed.

Lemma label_needs_pair prev t n :
  Orchestrator.label_at prev t = Some n -> Js.includes t "]:" = true.
Proof.
  unfold Orchestrator.label_at. destruct t as [|c t]; [discriminate|].
  destruct (Ascii.eqb_spec c "[") as [-> | Hc].
  - destruct (Js.span (fun c => negb (Ascii.eqb c "]")) t) as [body r] eqn:Hspan.
    apply span_parts in Hspan. subst t.
    destruct body as [|b body]; [discriminate|].
    destruct r as [|r1 [|r2 r]]; try discriminate.
    + destruct r1 as [[] [] [] [] [] [] [] []]; discriminate.
    + destruct (Ascii.eqb_spec r1 "]") as [-> | H1];
        [|destruct r1 as [[] [] [] [] [] [] [] []]; try discriminate;
          exfalso; apply H1; reflexivity].
      destruct (Ascii.eqb_spec r2 ":") as [-> | H2];
        [|destruct r2 as [[] [] [] [] [] [] [] []]; try discriminate;
          exfalso; apply H2; reflexivity].
      intros _. rewrite includes_cons.
      rewrite (includes_app (String b body) (String "]" (String ":" r)) "]:");
        [apply orb_true_r | reflexivity].
  - destruct c as [[] [] [] [] [] [] [] []]; try discriminate.
    exfalso; apply Hc; reflexivity.
Qed.

Lemma upper_is_R c :
  Ascii.eqb (Js.upper "R") (Js.upper c) = true -> c = "R"%char \/ c = "r"%char.
Proof.
  destruct c as [[] [] [] [] [] [] [] []]; vm_compute; intros H;
    try discriminate H; auto.
Qed.

Lemma upper_is_colon c :
  Ascii.eqb (Js.upper ":") (Js.upper c) = true -> c = ":"%char.
Proof.
  destruct c as [[] [] [] [] [] [] [] []]; vm_compute; intros H;
    try discriminate H; reflexivity.
Qed.

Lemma user_marker_needs_pair t :
  marker_free t = true -> Js.strip_prefix_ci "USER:" t = None.
Proof.
  intros Hfree.
  destruct (Js.strip_prefix_ci "USER:" t) as [r|] eqn:Hr; [|reflexivity].
  exfalso.
  destruct t as [|c1 [|c2 [|c3 [|c4 [|c5 t]]]]]; cbn [Js.strip_prefix_ci] in Hr;
    repeat match type of Hr with
           | (if ?b then _ else _) = Some _ =>
               destruct b eqn:?; [|discriminate Hr]
           end; try discriminate Hr.
  repeat match goal with
         | H : Ascii.eqb (Js.upper ":") (Js.upper c5) = true |- _ =>
             apply upper_is_colon in H; subst c5
         | H : Ascii.eqb (Js.upper "R") (Js.upper c4) = true |- _ =>
             apply upper_is_R in H
         end.
  apply marker_free_tail, marker_free_tail, marker_free_tail in Hfree.
  unfold marker_free in Hfree. rewrite !includes_cons in Hfree.
  match goal with
  | H : c4 = _ \/ c4 = _ |- _ => destruct H as [-> | ->]
  end;
    destruct (Js.includes t "]:"), (Js.includes t "R:"), (Js.includes t "r:");
    vm_compute in Hfree; discriminate Hfree.
Qed.

Lemma remove_all_free m s :
  (forall prev t, marker_free t = true -> m prev t = None) ->
  marker_free s = true ->
  forall prev, Js.remove_all_from m prev 0 s = s.
Proof.
  intros Hm. induction s as [|c t IH]; intros Hs prev; [reflexivity|].
  simpl. rewrite (Hm prev (String c t) Hs).
  rewrite (IH (marker_free_tail c t Hs)). reflexivity.
Qed.

Lemma strip_trailing_user_free s :
  marker_free s = true -> Orchestrator.strip_trailing_user s = s.
Proof.
  induction s as [|c t IH]; intros Hs.
  - reflexivity.
  - assert (Js.strip_prefix_ci "USER:" (Js.drop_while Js.is_space (String c t))
            = None) as Hnone
      by (apply user_marker_needs_pair, marker_free_drop_while, Hs).
    cbn [Orchestrator.strip_trailing_user].
    rewrite Hnone, (IH (marker_free_tail c t Hs)). reflexivity.
Qed.

(** The cleaning changes nothing in a text that is trimmed and holds no
    label and no user marker. *)
Lemma clean_body_free body :
  Js.trim body = body ->
  marker_free body = true ->
  Orchestrator.clean_body body = body.
Proof.
  intros Htrim Hfree.
  destruct (trim_fixed body Htrim) as [Hhead _].
  assert (Orchestrator.drop_leading_newlines body = body) as H1.
  { unfold Orchestrator.drop_leading_newlines.
    apply drop_while_head in Hhead.
    destruct body as [|c t]; [reflexivity|]. simpl. rewrite Hhead.
    reflexivity. }
  assert (Orchestrator.strip_labels body = body) as H2.
  { apply remove_all_free; [|exact Hfree].
    intros prev t Ht.
    destruct (Orchestrator.label_at prev t) as [n|] eqn:Hn; [|reflexivity].
    apply label_needs_pair in Hn. unfold marker_free in Ht.
    rewrite Hn in Ht. discriminate. }
  assert (Orchestrator.strip_leading_user body = body) as H3.
  { unfold Orchestrator.strip_leading_user.
    rewrite (user_marker_needs_pair body Hfree). reflexivity. }
  assert (Orchestrator.strip_user_markers body = body) as H4.
  { apply remove_all_free; [|exact Hfree].
    intros prev t Ht. unfold Orchestrator.user_marker_at.
    rewrite (user_marker_needs_pair t Ht).
    destruct prev as [c|]; [destruct (Js.is_word c)|]; reflexivity. }
  unfold Orchestrator.clean_body. cbv zeta.
  rewrite Htrim, H1, Htrim, H2, Htrim, H3, Htrim,
    (strip_trailing_user_free body Hfree), Htrim, H4.
  exact Htrim.
Qed.

(** In a text without a colon followed by the end marker, the only colon
    comes behind the letter D. *)
Lemma pair_absent x u :
  Ascii.eqb x "D" = false ->
  Js.all_chars not_colon u = true ->
  Js.includes (u +:+ String nl "END:") (String x ":") = false.
Proof.
  intros Hx Hu. induction u as [|c u IH].
  - change ("" +:+ String nl "END:") with (String nl "END:").
    unfold nl. rewrite !includes_cons. unfold Js.startsWith.
    cbn [Js.strip_prefix Js.includes]. rewrite Hx.
    destruct (Ascii.eqb x "010"), (Ascii.eqb x "E"), (Ascii.eqb x "N"),
      (Ascii.eqb x ":"); reflexivity.
  - simpl in Hu. apply andb_true_iff in Hu as [Hc Hu].
    rewrite append_cons, includes_cons, (IH Hu), orb_false_r.
    unfold Js.startsWith. cbn [Js.strip_prefix].
    destruct (Ascii.eqb x c); [|reflexivity].
    destruct u as [|c' u'].
    + reflexivity.
    + rewrite append_cons. simpl in Hu. apply andb_true_iff in Hu as [Hc' _].
      unfold not_colon in Hc'. apply negb_true_iff in Hc'.
      cbn [Js.strip_prefix]. rewrite Ascii.eqb_sym, Hc'. reflexivity.
Qed.

Lemma marker_free_before_end u :
  Js.all_chars not_colon u = true ->
  marker_free (u +:+ String nl "END:") = true.
Proof.
  intros Hu. unfold marker_free.
  rewrite !pair_absent by (reflexivity || exact Hu). reflexivity.
Qed.

Ltac settle_chars :=
  repeat match goal with
         | H : Ascii.eqb _ _ = true |- _ =>
             apply Ascii.eqb_eq in H; first [discriminate H | subst]
         end;
  repeat match goal with
         | H : not_colon ":" = true |- _ => discriminate H
         end.

(** Before the end of a text without a colon, no end marker begins. *)
Lemma no_end_marker_yet c u :
  Js.all_chars not_colon (String c u) = true ->
  Js.startsWith (String c (u +:+ String nl "END:")) (String nl "END:")
  || Js.startsWith (String c (u +:+ String nl "END:")) "END:" = false.
Proof.
  intros Hu. unfold nl in *.
  destruct u as [|c1 [|c2 [|c3 [|c4 u]]]];
    rewrite ?append_cons; change ("" +:+ String "010" "END:")
                            with (String "010" "END:");
    simpl in Hu; repeat (apply andb_true_iff in Hu as [? Hu]);
    unfold Js.startsWith; cbn [Js.strip_prefix];
    repeat match goal with
           | |- context [Ascii.eqb ?a ?b] => destruct (Ascii.eqb a b) eqn:?
           end;
    try reflexivity; exfalso; settle_chars.
Qed.

(** [before_end] gives back what stands before the marker. *)
Lemma before_end_stops u :
  Js.all_chars not_colon u = true ->
  Orchestrator.before_end (u +:+ String nl "END:") = u.
Proof.
  intros Hu. induction u as [|c u IH]; [reflexivity|].
  rewrite append_cons. cbn [Orchestrator.before_end].
  rewrite (no_end_marker_yet c u Hu).
  simpl in Hu. apply andb_true_iff in Hu as [_ Hu].
  rewrite (IH Hu). reflexivity.
Qed.

Lemma length_append a b :
  String.length (a +:+ b) = String.length a + String.length b.
Proof.
  induction a as [|c a IH]; [reflexivity|].
  rewrite append_cons. simpl. rewrite IH. reflexivity.
Qed.

Lemma length_map_chars f s :
  String.length (Js.map_chars f s) = String.length s.
Proof. induction s as [|c s IH]; [reflexivity|]. simpl. rewrite IH. reflexivity. Qed.

(** The provider answers with the marker, an id, white space, a text and,
    on a line of its own, the end marker; the text is trimmed and has no
    colon in it.  The decision names that id, brings the text that stands
    before the end marker, and ends the conversation.  The id is taken as
    it is: on this path it is not compared with the roster. *)
Theorem end_marker_behind_a_text_ends_the_conversation :
  forall agents fullHistory reread response id sep body,
    Js.trim response
    = "AGENT:" +:+ id +:+ sep +:+ body +:+ String nl "END:" ->
    id <> "" ->
    Js.all_chars Js.is_word id = true ->
    sep <> "" ->
    Js.all_chars Js.is_space sep = true ->
    body <> "" ->
    Js.trim body = body ->
    Js.all_chars not_colon body = true ->
    Orchestrator.decideAndGenerateResponse agents fullHistory reread
      (Some response)
    = mkDecision id (Some body) true.
Proof.
  intros agents fullHistory reread response id sep body HT Hid Hword Hsep
         Hspace Hbody Htrim Hnc.
  set (B := body +:+ String nl "END:") in *.
  set (rest := id +:+ sep +:+ B) in *.
  set (T := String "A" (String "G" (String "E" (String "N" (String "T"
              (String ":" rest)))))).
  change (Js.trim response = T) in HT.
  destruct (trim_fixed body Htrim) as [Hhead _].
  assert (Js.drop_while Js.is_space B = B) as HheadB.
  { apply drop_while_stop. apply drop_while_head in Hhead. unfold B.
    destruct body as [|c t]; [congruence|]. rewrite append_cons. exact Hhead. }
  assert (Js.trim B = B) as HtrimB.
  { apply trim_of_ends; [exact HheadB|].
    unfold B. rewrite rev_app. reflexivity. }
  assert (Js.trim T = T) as HtrimT.
  { apply trim_of_ends; [reflexivity|].
    assert (T = ("AGENT:" +:+ id +:+ sep +:+ body) +:+ String nl "END:") as ->
      by (unfold T, rest, B; rewrite !append_assoc; reflexivity).
    rewrite rev_app. reflexivity. }
  assert (Orchestrator.agentMatch T = Some (id, B)) as Hmatch.
  { unfold Orchestrator.agentMatch.
    change (Js.strip_prefix "AGENT:" T) with (Some rest). unfold rest.
    rewrite (span_app_stop Js.is_word id (sep +:+ B) Hword).
    - destruct id; [congruence|]. simpl.
      rewrite (drop_while_app_all _ _ _ Hspace), HheadB. reflexivity.
    - destruct sep as [|c sep']; [congruence|]. rewrite append_cons.
      simpl in Hspace. apply andb_true_iff in Hspace as [Hc _].
      apply space_not_word, Hc. }
  assert (Orchestrator.clean_body B = B) as Hclean
    by (apply clean_body_free; [exact HtrimB | apply marker_free_before_end, Hnc]).
  assert (Orchestrator.is_only_user_token B = false) as Honly.
  { unfold Orchestrator.is_only_user_token. rewrite trim_upper, HtrimB.
    assert (5 < String.length (Js.toUpperCase B)) as Hlen.
    { unfold Js.toUpperCase, B. rewrite length_map_chars, length_append.
      destruct body; [congruence|]. simpl. lia. }
    apply orb_false_iff. split; apply String.eqb_neq; intros H;
      rewrite H in Hlen; simpl in Hlen; lia. }
  assert (Js.includes B "END:" = true) as Hend
    by (apply includes_app; reflexivity).
  unfold Orchestrator.decideAndGenerateResponse, Orchestrator.parseResponse.
  cbv zeta. rewrite HT.
  change (Js.startsWith T "END:" || String.eqb T "END") with false.
  change (Orchestrator.userTurnPattern T) with false.
  assert (Orchestrator.is_user_token T = false) as ->.
  { unfold Orchestrator.is_user_token. rewrite HtrimT. reflexivity. }
  cbv iota. rewrite Hmatch. cbv iota beta.
  rewrite (word_trimmed id Hword), Hclean.
  assert (Js.truthy B = true) as -> by (unfold B; destruct body; [congruence | reflexivity]).
  rewrite Honly, Hend. cbn [negb orb].
  unfold B at 1. rewrite (before_end_stops body Hnc), Htrim. reflexivity.
Qed.

(* ===================================================================== *)
(** * The theorems at work on the concrete session *)
(* ===================================================================== *)

Lemma C2_speaker_tracked_iff_waiting_witness :
  Forall coherent (heap awaiting_ack)
  /\ Forall coherent
       (heap (step (AudioPlaybackComplete "s1" (JStr "Alice_Coach"))
                   awaiting_ack)).
Proof.
  assert (Forall coherent (heap awaiting_ack)) as H.
  { vm_compute. constructor; [split; reflexivity | constructor]. }
  split; [exact H|].
  apply (proj2 C2_speaker_tracked_iff_waiting). exact H.
Defined.

Lemma C6_playback_ack_idempotent_witness :
  tasks (ChatManager.onAudioPlaybackComplete "s1" (JStr "Alice_Coach")
                                             awaiting_ack)
  = tasks awaiting_ack ++ [Timer "s1"]
  /\ ChatManager.onAudioPlaybackComplete "s1" (JStr "Bob_Manager") awaiting_ack
     = awaiting_ack.
Proof.
  pose (s := mkSession [alice; bob] "standup" "Mahesh" "dev" 7
                       true true (JStr "Alice_Coach")).
  split.
  - apply (proj1 (proj2 (C6_playback_ack_idempotent
                           awaiting_ack "s1" (JStr "Alice_Coach"))) 0 s);
      vm_compute; reflexivity.
  - apply (proj2 (proj2 (C6_playback_ack_idempotent
                           awaiting_ack "s1" (JStr "Bob_Manager"))) 0 s);
      [vm_compute; reflexivity | vm_compute; reflexivity | discriminate].
Defined.

Lemma C7_fallback_round_robin_witness :
  Orchestrator.fallbackDecision [alice; bob]
    [ mkMessage system "practice" None;
      mkMessage assistant "What did you ship?" (Some "Alice_Coach");
      mkMessage user "The parser." None;
      mkMessage assistant "Late again." (Some "Bob_Manager");
      mkMessage user "Sorry." None ]
  = mkDecision "Alice_Coach" None false
  /\ Orchestrator.fallbackDecision [alice; bob]
       [ mkMessage system "practice" None; mkMessage user "Hello?" None ]
     = mkDecision "Alice_Coach" None false.
Proof.
  split.
  - apply (proj1 (C7_fallback_round_robin [alice; bob] _)
             [ mkMessage system "practice" None;
               mkMessage assistant "What did you ship?" (Some "Alice_Coach");
               mkMessage user "The parser." None ]
             (mkMessage assistant "Late again." (Some "Bob_Manager"))
             [ mkMessage user "Sorry." None ]
             "Bob_Manager" 1 bob alice).
    + reflexivity.
    + repeat split. discriminate.
    + constructor; [|constructor]. intros y (Hrole & _). discriminate.
    + reflexivity.
    + reflexivity.
    + intros j b Hj. destruct j as [|j]; [|lia].
      intros [= <-]. discriminate.
    + reflexivity.
  - apply (proj2 (C7_fallback_round_robin [alice; bob] _) alice [bob]).
    + reflexivity.
    + repeat constructor; intros y (Hrole & _); discriminate.
Defined.

Lemma C8_leaked_label_stripped_witness :
  Orchestrator.parseResponse [alice; bob] [] leaked_label_text
  = mkDecision "Alice_Coach" (Some "Good job") false.
Proof.
  apply (C8_leaked_label_stripped [alice; bob] []).
  exists alice. split; [left; reflexivity | reflexivity].
Defined.

Lemma C10_blank_text_completes_at_once_witness :
  TTSService.streamTextToSpeech true (Some "  ") "female" 0
                                (fun _ n => n + 10) S Nat.pred 0
  = (TTSService.Returned, 1)
  /\ emitted (ChatManager.after_text 0 "s1" alice
                (mkDecision "Alice_Coach" None false) ""
                (run streaming (init true)))
     = emitted (run streaming (init true))
       ++ [ mkEmission 7 onStreamChunk (ai_audio_end "Alice_Coach");
            mkEmission 7 onStreamComplete
                       (ai_response_end "Alice_Coach" "" "Alice (Coach)") ].
Proof.
  split.
  - apply (proj1 C10_blank_text_completes_at_once nat (fun _ n => n + 10)
             S Nat.pred true (Some "  ") "female" 0 0).
    reflexivity.
  - apply (proj2 C10_blank_text_completes_at_once (run streaming (init true))
             0 "s1" alice (mkDecision "Alice_Coach" None false) ""
             (mkSession [alice; bob] "standup" "Mahesh" "dev" 7
                        true false JUndefined)).
    + vm_compute. reflexivity.
    + reflexivity.
Defined.


Lemma trigger_dropped_while_flagged_witness :
  ChatManager.continueConversation "s1" awaiting_ack = awaiting_ack.
Proof.
  apply (trigger_dropped_while_flagged awaiting_ack "s1" 0
           (mkSession [alice; bob] "standup" "Mahesh" "dev" 7
                      true true (JStr "Alice_Coach"))).
  - vm_compute. reflexivity.
  - vm_compute. reflexivity.
  - left. reflexivity.
Defined.

Lemma header_on_first_chunk_only_witness :
  emitted (run (audio_inputs 0 [[x01; x02]; [x03]]) speaking)
  = emitted speaking
    ++ [ mkEmission 7 onStreamChunk (tts_first_audio "Alice_Coach");
         mkEmission 7 onStreamChunk
           (ai_audio_chunk "Alice_Coach"
              (TTSService.createWavHeader ++ [x01; x02])) ]
    ++ audio_emissions 7 "Alice_Coach" [[x03]].
Proof.
  apply (header_on_first_chunk_only speaking 0 0
           (mkSession [alice; bob] "standup" "Mahesh" "dev" 7
                      true true (JStr "Alice_Coach"))
           "Alice_Coach" (TTSService.opened "aura-2-thalia-en")).
  - vm_compute. reflexivity.
  - vm_compute. reflexivity.
Defined.

Lemma one_evaluation_while_no_stream_fails_witness :
  in_flight 0 (run streaming (init true)) <= 1
  /\ (in_flight 0 (run streaming (init true)) = 1 ->
      exists s, heap (run streaming (init true)) !! 0 = Some s
                /\ isProcessing s = true
                /\ waitingForAudioComplete s = false).
Proof.
  apply (one_evaluation_while_no_stream_fails true streaming 0).
  reflexivity.
Defined.

Lemma fallback_names_a_roster_member_witness :
  exists a,
    In a [alice; bob]
    /\ Orchestrator.fallbackDecision [alice; bob]
         [ mkMessage assistant "Late again." (Some "Bob_Manager") ]
       = mkDecision (agent_id a) None false.
Proof.
  apply (proj2 (fallback_names_a_roster_member [alice; bob]
                  [ mkMessage assistant "Late again." (Some "Bob_Manager") ])).
  discriminate.
Defined.

Lemma fallback_restarts_after_unknown_speaker_witness :
  Orchestrator.fallbackDecision [alice; bob]
    [ mkMessage system "practice" None;
      mkMessage assistant "I was just passing." (Some "Carol_Guest");
      mkMessage user "Who was that?" None ]
  = mkDecision "Alice_Coach" None false.
Proof.
  apply (fallback_restarts_after_unknown_speaker alice [bob]
           [ mkMessage system "practice" None ]
           (mkMessage assistant "I was just passing." (Some "Carol_Guest"))
           [ mkMessage user "Who was that?" None ] "Carol_Guest").
  - repeat split. discriminate.
  - repeat constructor. intros y (Hrole & _). discriminate.
  - intros a [<- | [<- | []]]; discriminate.
Defined.

Lemma fallback_never_repeats_last_speaker_witness :
  speaker (Orchestrator.fallbackDecision [alice; bob]
             [ mkMessage system "practice" None;
               mkMessage assistant "Late again." (Some "Bob_Manager");
               mkMessage user "Sorry." None ])
  <> "Bob_Manager".
Proof.
  apply (fallback_never_repeats_last_speaker [alice; bob]
           [ mkMessage system "practice" None ]
           (mkMessage assistant "Late again." (Some "Bob_Manager"))
           [ mkMessage user "Sorry." None ] "Bob_Manager").
  - repeat split. discriminate.
  - repeat constructor. intros y (Hrole & _). discriminate.
  - apply (bool_decide_unpack _). vm_compute. exact I.
  - simpl. lia.
Defined.

Lemma decision_names_end_user_or_roster_member_witness :
  let d :=
    Orchestrator.decideAndGenerateResponse [alice; bob] [] []
      (Some "I think Bob should answer that.") in
  speaker d = "end" \/ speaker d = "user"
  \/ exists a, In a [alice; bob] /\ agent_id a = speaker d.
Proof.
  apply (decision_names_end_user_or_roster_member [alice; bob] [] []
           (Some "I think Bob should answer that.")).
  vm_compute. reflexivity.
Defined.

Lemma user_marker_in_any_case_is_user_turn_witness :
  Orchestrator.decideAndGenerateResponse [alice; bob] [] [] (Some " user: ")
  = mkDecision "user" None false.
Proof.
  apply (user_marker_in_any_case_is_user_turn [alice; bob] [] [] " user: ").
  right. vm_compute. reflexivity.
Defined.

Lemma well_formed_answer_is_taken_as_it_is_witness :
  Orchestrator.decideAndGenerateResponse [alice; bob] [] []
    (Some ("  AGENT:Bob_Manager" +:+ String nl "Ship it on Friday.  "))
  = mkDecision "Bob_Manager" (Some "Ship it on Friday.") false.
Proof.
  apply (well_formed_answer_is_taken_as_it_is [alice; bob] [] []
           ("  AGENT:Bob_Manager" +:+ String nl "Ship it on Friday.  ")
           "Bob_Manager" (String nl "") "Ship it on Friday.").
  - vm_compute. reflexivity.
  - discriminate.
  - vm_compute. reflexivity.
  - discriminate.
  - vm_compute. reflexivity.
  - discriminate.
  - vm_compute. reflexivity.
  - vm_compute. reflexivity.
  - vm_compute. discriminate.
  - exists bob. split; [right; left; reflexivity | reflexivity].
Defined.

Lemma memory_add_appends_to_one_log_witness :
  ConversationMemory.getMessages "s1"
    (ConversationMemory.addAssistantMessage "s1" "Hello" "Alice_Coach"
       (memory (deciding true)))
  = ConversationMemory.getMessages "s1" (memory (deciding true))
    ++ [mkMessage assistant "Hello" (Some "Alice_Coach")].
Proof.
  apply (memory_add_appends_to_one_log (memory (deciding true)) "s1" "Hello"
           "Alice_Coach").
  apply store_wf_run, store_wf_empty.
Defined.

Lemma memory_initialize_and_clear_witness :
  ConversationMemory.getMessages "s1"
    (ConversationMemory.clearSession "s2"
       (ConversationMemory.initializeSession "s2" "retro" "Ana" "lead"
          (memory (deciding true))))
  = ConversationMemory.getMessages "s1" (memory (deciding true)).
Proof.
  apply (memory_initialize_and_clear (memory (deciding true)) "s2" "retro"
           "Ana" "lead").
  - apply store_wf_run, store_wf_empty.
  - discriminate.
Defined.

Lemma reachable_store_is_well_formed_witness :
  store_wf (memory (run deleted_mid_stream (init true))).
Proof.
  apply (reachable_store_is_well_formed (run deleted_mid_stream (init true))).
  exists true, deleted_mid_stream. reflexivity.
Defined.

Lemma log_is_append_only_witness :
  ConversationMemory.getMessages "s1" (memory (run streaming (init true)))
  `prefix_of`
  ConversationMemory.getMessages "s1"
    (memory (run [ ProcessUserMessage "s1" "hello?";
                   CreateSession "s2" "retro" "Ana" "lead" 8;
                   Resume 0 StreamEnd ]
                 (run streaming (init true)))).
Proof.
  apply (log_is_append_only "s1"
           [ ProcessUserMessage "s1" "hello?";
             CreateSession "s2" "retro" "Ana" "lead" 8;
             Resume 0 StreamEnd ]
           (run streaming (init true))).
  - apply store_wf_run, store_wf_empty.
  - reflexivity.
Defined.

Lemma session_creation_outcome_witness :
  tasks (run [ CreateSession "s1" "standup" "Mahesh" "dev" 7;
               Resume 0 (Generated (inr [alice; bob])) ] (init true))
  = [Timer "s1"]
  /\ emitted (run [ CreateSession "s1" "standup" "Mahesh" "dev" 7;
                    Resume 0 (Generated (inl "")) ] (init true))
     = [mkEmission 7 onError (error None "Failed to generate agents")].
Proof.
  split.
  - apply (session_creation_outcome (init true) "s1" "standup" "Mahesh" "dev"
             7 (inr [alice; bob]) eq_refl eq_refl eq_refl).
  - apply (session_creation_outcome (init true) "s1" "standup" "Mahesh" "dev"
             7 (inl "") eq_refl eq_refl eq_refl).
Defined.

Lemma user_message_is_recorded_even_when_busy_witness :
  ConversationMemory.getMessages "s1"
    (memory (step (ProcessUserMessage "s1" "hello?") awaiting_ack))
  = ConversationMemory.getMessages "s1" (memory awaiting_ack)
    ++ [mkMessage user "hello?" None]
  /\ tasks (step (ProcessUserMessage "s1" "hello?") awaiting_ack)
     = tasks awaiting_ack.
Proof.
  destruct (user_message_is_recorded_even_when_busy awaiting_ack "s1" "hello?"
              0 waiting_session) as (Hlog & _ & Htasks & _).
  - apply store_wf_run, store_wf_empty.
  - vm_compute. reflexivity.
  - vm_compute. reflexivity.
  - split; [exact Hlog | exact Htasks].
Defined.

Lemma user_turn_waits_for_the_user_witness :
  emitted (step (Resume 0 (Answered (Some "USER"))) (deciding true))
  = emitted (deciding true)
    ++ [mkEmission 7 onStreamChunk (user_turn "It's your turn to speak")]
  /\ (isProcessing
        <$> heap (step (ProcessUserMessage "s1" "My turn then.")
                    (step (Resume 0 (Answered (Some "USER"))) (deciding true)))
            !! 0)
     = Some true.
Proof.
  destruct (user_turn_waits_for_the_user (deciding true) 0 0 "s1" (Some 0)
              busy_session (Some "USER") "My turn then.")
    as (_ & _ & _ & He & _ & Hp); try (vm_compute; reflexivity).
  split; [exact He | exact Hp].
Defined.

Lemma decision_text_is_sent_recorded_and_announced_witness :
  ConversationMemory.getMessages "s1"
    (memory (step (Resume 0 (Answered
                               (Some ("AGENT:Alice_Coach"
                                      +:+ String nl "Hello Mahesh"))))
               (deciding false)))
  = ConversationMemory.getMessages "s1" (memory (deciding false))
    ++ [mkMessage assistant "Hello Mahesh" (Some "Alice_Coach")].
Proof.
  apply (decision_text_is_sent_recorded_and_announced (deciding false) 0 0
           "s1" (Some 0) busy_session
           (Some ("AGENT:Alice_Coach" +:+ String nl "Hello Mahesh"))
           (mkDecision "Alice_Coach" (Some "Hello Mahesh") false) alice
           "Hello Mahesh").
  - apply store_wf_run, store_wf_empty.
  - vm_compute. reflexivity.
  - vm_compute. reflexivity.
  - vm_compute. reflexivity.
  - discriminate.
  - vm_compute. reflexivity.
  - reflexivity.
  - vm_compute. discriminate.
Defined.

Lemma streamed_text_is_recorded_whole_witness :
  ConversationMemory.getMessages "s1"
    (memory (run (chunk_inputs 0 ["Hel"; ""; "lo"] ++ [Resume 0 StreamEnd])
                 (run (opening (Some "garbage")) (init true))))
  = ConversationMemory.getMessages "s1"
      (memory (run (opening (Some "garbage")) (init true)))
    ++ [mkMessage assistant "Hello" (Some "Alice_Coach")].
Proof.
  apply (streamed_text_is_recorded_whole
           (run (opening (Some "garbage")) (init true)) 0 0 "s1" alice
           (mkDecision "Alice_Coach" None false) ["Hel"; ""; "lo"]
           busy_session).
  - apply store_wf_run, store_wf_empty.
  - vm_compute. reflexivity.
  - vm_compute. reflexivity.
Defined.

Lemma acknowledged_turn_leads_to_next_evaluation_witness :
  tasks (step (Resume 0 Fired)
           (step (AudioPlaybackComplete "s1" (JStr "Alice_Coach"))
                 awaiting_ack))
  = [Deciding 0 "s1" (Some 0)].
Proof.
  apply (acknowledged_turn_leads_to_next_evaluation awaiting_ack "s1"
           (JStr "Alice_Coach") 0 waiting_session);
    vm_compute; reflexivity.
Defined.



Lemma voice_follows_place_in_roster_witness :
  exists model,
    TTSService.male !! (1 mod 3) = Some model
    /\ tasks (ChatManager.after_text 0 "s1" bob
                (mkDecision "Bob_Manager" None false) "Fine."
                (run streaming (init true)))
       = tasks (run streaming (init true))
         ++ [OpeningTts 0 "s1" bob (mkDecision "Bob_Manager" None false)
                        "Fine." model].
Proof.
  apply (voice_follows_place_in_roster (run streaming (init true)) 0 "s1" bob
           (mkDecision "Bob_Manager" None false) "Fine." busy_session 1).
  - vm_compute. reflexivity.
  - reflexivity.
  - vm_compute. discriminate.
  - reflexivity.
  - reflexivity.
  - reflexivity.
  - intros [|j] b Hj; [|lia]. intros [= <-]. discriminate.
Defined.

Lemma generated_ids_are_words_and_not_reserved_witness :
  agent_id bob <> "user" /\ agent_id bob <> "end".
Proof.
  apply (generated_ids_are_words_and_not_reserved "Mahesh" raw_roster
           [alice; bob] bob).
  - vm_compute. reflexivity.
  - right. left. reflexivity.
Defined.

Lemma generated_roster_leaves_out_the_users_name_witness :
  [alice; bob] <> []
  /\ Js.trim (Js.toLowerCase (agent_name bob))
     <> Js.trim (Js.toLowerCase "Mahesh").
Proof.
  destruct (generated_roster_leaves_out_the_users_name "Mahesh" raw_roster
              [alice; bob]) as (Hne & Hnames & _).
  - vm_compute. reflexivity.
  - split; [exact Hne|]. apply (Hnames bob). right. left. reflexivity.
Defined.

Lemma generation_errors_witness :
  Forall (fun raw => complete raw = true /\ named_as "Mahesh " raw = true)
    [ AgentGenerator.mkRawAgent (Some "MAHESH") (Some "Developer")
        None None None ].
Proof.
  apply (generation_errors "Mahesh "
           [ AgentGenerator.mkRawAgent (Some "MAHESH") (Some "Developer")
               None None None ]
           AgentGenerator.NoValidAgents).
  vm_compute. reflexivity.
Defined.

Lemma end_decision_is_dropped_for_generated_rosters_witness :
  ChatManager.after_decision 0 "s1" (mkDecision "end" None false)
    (deciding true)
  = update_session 0 (set_isProcessing false) (deciding true).
Proof.
  apply (end_decision_is_dropped_for_generated_rosters "Mahesh" raw_roster
           (deciding true) 0 "s1" busy_session (mkDecision "end" None false)).
  - vm_compute. reflexivity.
  - vm_compute. reflexivity.
  - reflexivity.
Defined.

Lemma session_object_keeps_what_it_was_created_with_witness :
  exists s',
    heap (run [ DeleteSession "s1"; Resume 0 StreamEnd; Resume 0 TtsOpen ]
              (run streaming (init true))) !! 0 = Some s'
    /\ agents s' = [alice; bob] /\ scenario s' = "standup"
    /\ userName s' = "Mahesh" /\ userRole s' = "dev" /\ sink s' = 7.
Proof.
  apply (session_object_keeps_what_it_was_created_with
           [ DeleteSession "s1"; Resume 0 StreamEnd; Resume 0 TtsOpen ]
           (run streaming (init true)) 0 busy_session).
  vm_compute. reflexivity.
Defined.

Lemma events_go_to_the_socket_of_their_session_witness :
  exists new,
    emitted (step (Resume 0 (TtsAudio [x01; x02])) speaking)
    = emitted speaking ++ new
    /\ Forall (fun e => Some 7 = Some (to e)) new.
Proof.
  apply (events_go_to_the_socket_of_their_session
           (Resume 0 (TtsAudio [x01; x02])) speaking).
Defined.

Lemma end_marker_behind_a_text_ends_the_conversation_witness :
  Orchestrator.decideAndGenerateResponse [alice; bob] [] []
    (Some ("AGENT:Alice_Coach" +:+ String nl "Thanks everyone"
           +:+ String nl "END:"))
  = mkDecision "Alice_Coach" (Some "Thanks everyone") true.
Proof.
  apply (end_marker_behind_a_text_ends_the_conversation [alice; bob] [] []
           ("AGENT:Alice_Coach" +:+ String nl "Thanks everyone"
            +:+ String nl "END:")
           "Alice_Coach" (String nl "") "Thanks everyone").
  - vm_compute. reflexivity.
  - discriminate.
  - vm_compute. reflexivity.
  - discriminate.
  - vm_compute. reflexivity.
  - discriminate.
  - vm_compute. reflexivity.
  - vm_compute. reflexivity.
Defined.
